(** * ctar: peak-gene correlation testing, Monte Carlo p-values and control sampling

    A shallow embedding of [src/ctar/method.py] and [src/ctar/method-Isuru.py].

    Numbers.  The arrays of the program hold IEEE binary64 values; the
    numeric functions below are written once over an interface [Num] of the
    operations numpy applies to them and are run on Rocq's primitive floats
    (instance [Num_float]); every theorem about the program is stated for
    binary64 values or for every instance of [Num].  The real numbers
    (instance [Num_R]) serve one auxiliary lemma about exact arithmetic.
    Integer results (indices, counts) are [nat]; the quotient of two integers
    that [mc_pval] returns is kept as the exact rational in [Q].

    Libraries.  The functions of numpy, scipy, pandas, random and statsmodels
    that the program calls are written out by what they compute on the
    values passed to them; a matrix is the list of its rows in the tester and
    the list of its columns in the correlation engine; a raised exception is
    a [Raise] result; random draws are read from a tape. *)

From Stdlib Require Import String.
From Stdlib Require Import List Arith ZArith QArith Lia Bool Permutation.
From Stdlib Require Import Floats Uint63.
From Stdlib Require Import Reals Lra.
Import ListNotations.

Set Implicit Arguments.
Local Open Scope nat_scope.
Local Open Scope list_scope.

(** ** The numeric interface *)

Class Num (T : Type) : Type := {
  zero   : T;
  add    : T -> T -> T;
  sub    : T -> T -> T;
  mul    : T -> T -> T;
  div    : T -> T -> T;
  sqrt   : T -> T;
  abs    : T -> T;
  of_nat : nat -> T;          (* an integer count used as a float *)
  ltb    : T -> T -> bool;    (* [a < b], false on NaN *)
  leb    : T -> T -> bool;    (* [a <= b], false on NaN *)
  eqb    : T -> T -> bool;    (* [a == b], false on NaN *)
  f32    : T -> T;            (* the cast to [np.float32] *)
  lit_1em6 : T;               (* the literal 1e-6 *)
  lit_1em8 : T                (* the literal 1e-8 *)
}.

(** The laws an order needs for sorting and binary search: [lt] is a strict
    weak order. *)
Record StrictWeak {T : Type} (lt : T -> T -> bool) : Prop := {
  sw_irrefl : forall a, lt a a = false;
  sw_trans  : forall a b c, lt a b = true -> lt b c = true -> lt a c = true;
  sw_ntrans : forall a b c, lt a b = false -> lt b c = false -> lt a c = false
}.

(** ** numpy primitives *)

Section Numpy.
Context {T : Type} {N : Num T}.

(** [npy::less]: the order numpy sorts and searches floats by,
    [a < b || (b != b && a == a)]; NaN is placed after every number. *)
Definition less (a b : T) : bool :=
  ltb a b || (negb (eqb b b) && eqb a a).

(** [np.sum] over one axis of a small array: a left-to-right accumulation.
    (numpy adds rows of eight or more values in pairs; the two groupings can
    differ in the last bits of the sum.) *)
Definition np_sum (l : list T) : T := fold_left add l zero.

(** [np.mean(l)]: the sum divided by the count. *)
Definition np_mean (l : list T) : T := div (np_sum l) (of_nat (length l)).

(** [np.var(l)] with [ddof=0]: the mean of the squared deviations. *)
Definition np_var (l : list T) : T :=
  let m := np_mean l in
  let d := map (fun x => sub x m) l in
  div (np_sum (map (fun x => mul x x) d)) (of_nat (length l)).

(** [np.std(l)]. *)
Definition np_std (l : list T) : T := sqrt (np_var l).

(** [a.clip(lo)]: [lo] where [a < lo], else [a] (NaN stays NaN). *)
Definition clip (lo a : T) : T := if ltb a lo then lo else a.

(** [np.sort]: a sort by [less]; here by insertion. *)
Fixpoint insert (x : T) (l : list T) : list T :=
  match l with
  | [] => [x]
  | y :: l' => if less x y then x :: l else y :: insert x l'
  end.

Fixpoint np_sort (l : list T) : list T :=
  match l with
  | [] => []
  | x :: l' => insert x (np_sort l')
  end.

(** The bisection loop of [np.searchsorted(a, key)] with [side='left']:
<<
    while (min_idx < max_idx) {
        mid = min_idx + ((max_idx - min_idx) >> 1);
        if (less(arr[mid], key)) min_idx = mid + 1; else max_idx = mid;
    }
>>
    [fuel] bounds the number of iterations; [length a] is always enough. *)
Fixpoint bisect_left (fuel : nat) (a : list T) (key : T) (lo hi : nat) : nat :=
  match fuel with
  | O => lo
  | S fuel' =>
      if lo <? hi then
        let mid := lo + (hi - lo) / 2 in
        if less (nth mid a key) key
        then bisect_left fuel' a key (mid + 1) hi
        else bisect_left fuel' a key lo mid
      else lo
  end.

Definition searchsorted1 (a : list T) (key : T) : nat :=
  bisect_left (length a) a key 0 (length a).

Definition searchsorted (a : list T) (keys : list T) : list nat :=
  map (searchsorted1 a) keys.

(** The entries of [l] where [mask] holds. *)
Definition where_ {A : Type} (mask : list bool) (l : list A) : list A :=
  map snd (filter fst (combine mask l)).

(** Elementwise binary operation on two vectors of one length. *)
Fixpoint map2 {A B C : Type} (f : A -> B -> C) (l : list A) (l' : list B) : list C :=
  match l, l' with
  | x :: t, y :: t' => f x y :: map2 f t t'
  | _, _ => []
  end.

End Numpy.

(** ** src/ctar/method.py: the Monte Carlo tester *)

(** The p-value [(1 + indicator) / (1 + nb)], a quotient of two integers. *)
Definition pval_of (indicator nb : nat) : Q :=
  Z.of_nat (1 + indicator) # Pos.of_nat (1 + nb).

(** The shape [(n, b)] of a matrix given as the list of its rows. *)
Definition shape {T : Type} (m : list (list T)) : nat * nat :=
  (length m, length (hd [] m)).

Definition well_shaped {T : Type} (m : list (list T)) : Prop :=
  Forall (fun r => length r = snd (shape m)) m.

Section Tester.
Context {T : Type} {N : Num T}.

(** [center_ctrls] before the final absolute values are taken: every row of
    [ctrl_array] and the matching entry of [main_array] are centered by that
    row's mean and standard deviation. *)
Definition center_rows (ctrl_array : list (list T)) : list (list T) :=
  map (fun r => map (fun x => div (sub x (np_mean r)) (np_std r)) r) ctrl_array.

(** The observed vector has one entry per row of [ctrl_array] (with another
    length numpy broadcasts a single row or raises; the statements below
    assume the lengths agree). *)
Definition center_main (ctrl_array : list (list T)) (main_array : list T) : list T :=
  map2 (fun x r => div (sub x (np_mean r)) (np_std r)) main_array ctrl_array.

(** [center_ctrls(ctrl_array, main_array)] of method.py, returning
    [np.abs(ctrls.flatten()), np.abs(main)]. *)
Definition center_ctrls (ctrl_array : list (list T)) (main_array : list T)
  : list T * list T :=
  (map abs (concat (center_rows ctrl_array)),
   map abs (center_main ctrl_array main_array)).

(** [mc_pval(del_cctrl_full, del_c)] of method.py. *)
Definition mc_pval (del_cctrl_full : list (list T)) (del_c : list T) : list Q :=
  let '(ctrls, main) := center_ctrls del_cctrl_full del_c in
  let del_cctrl_full_centered := np_sort ctrls in
  let '(n, b) := shape del_cctrl_full in
  let indicator :=
    map (fun i => length del_cctrl_full_centered - i)
        (searchsorted del_cctrl_full_centered main) in
  map (fun k => pval_of k (n * b)) indicator.

End Tester.

(** ** src/ctar/method-Isuru.py: the Monte Carlo tester *)

Module Isuru.
Section Tester.
Context {T : Type} {N : Num T}.

(** [center_ctrls(ctrl_array, main_array)] of method-Isuru.py, returning
    [ctrls.flatten(), main]: no absolute value is taken here. *)
Definition center_ctrls (ctrl_array : list (list T)) (main_array : list T)
  : list T * list T :=
  (concat (center_rows ctrl_array), center_main ctrl_array main_array).

(** [mc_pval(del_cctrl_full, del_c)] of method-Isuru.py: the absolute values
    are taken before centering. *)
Definition mc_pval (del_cctrl_full : list (list T)) (del_c : list T) : list Q :=
  let '(ctrls, main) :=
    center_ctrls (map (map abs) del_cctrl_full) (map abs del_c) in
  let del_cctrl_full_centered := np_sort ctrls in
  let '(n, b) := shape del_cctrl_full in
  let indicator :=
    map (fun i => length del_cctrl_full_centered - i)
        (searchsorted del_cctrl_full_centered main) in
  map (fun k => pval_of k (n * b)) indicator.

End Tester.
End Isuru.

(** ** Python exceptions *)

Inductive exn : Set := ValueError | AttributeError | KeyError | IndexError.

Inductive result (A : Type) : Type :=
| Ok (a : A)
| Raise (e : exn).
Arguments Ok {A} a.
Arguments Raise {A} e.

Definition bind {A B : Type} (r : result A) (k : A -> result B) : result B :=
  match r with
  | Ok a => k a
  | Raise e => Raise e
  end.

Notation "x <- r ;; k" := (bind r (fun x => k))
  (at level 61, r at next level, right associativity).

(** ** src/ctar/method.py: the sparse correlation engine *)

Section Pearson.
Context {T : Type} {N : Num T}.

(** An input array: one-dimensional, or a matrix of shape (N, M) given by its
    M columns (the implicit zeros of the sparse layout written out). *)
Inductive ndarray : Type :=
| Arr1 (v : list T)
| Arr2 (cols : list (list T)).

(** What [pearson_corr_sparse] returns: a flat vector, the 1 x M array, or
    the pair of that array and the keep-mask. *)
Inductive corr_result : Type :=
| Flat (mat_corr : list T)
| Row (mat_corr : list T)
| WithMask (mat_corr : list T) (keep : list bool).

(** [a.reshape([-1, 1])] for a one-dimensional input. *)
Definition as_columns (a : ndarray) : list (list T) :=
  match a with
  | Arr1 v => [v]
  | Arr2 cols => cols
  end.

(** Elementwise operation with numpy's broadcasting of a length-one side
    (two sides of one length otherwise). *)
Definition bmap2 {A B C : Type} (f : A -> B -> C) (l : list A) (l' : list B) : list C :=
  match l, l' with
  | [x], _ :: _ :: _ => map (f x) l'
  | _ :: _ :: _, [y] => map (fun x => f x y) l
  | _, _ => map2 f l l'
  end.

(** Modelled from the spec: [scdrs.pp._get_mean_var(mat, axis=0)], a function
    of the scdrs package: per column the mean, and the variance by the sparse
    identity [var = E[x^2] - E[x]^2]. *)
Definition _get_mean_var (mat : list (list T)) : list T * list T :=
  let v_mean := map np_mean mat in
  let v_sq := map (fun c => np_mean (map (fun x => mul x x) c)) mat in
  (v_mean, map2 sub v_sq (map (fun m => mul m m) v_mean)).

(** [a[mask]] and [mat[:, mask]]: the entries where the mask is true; a mask
    of another length is an [IndexError]. *)
Definition select {A : Type} (mask : list bool) (l : list A) : result (list A) :=
  if length mask =? length l
  then Ok (where_ mask l)
  else Raise IndexError.

Definition np_any (l : list bool) : bool := existsb (fun x => x) l.

(** The mask [no_var = (v_X_var <= 1e-6) | (v_Y_var <= 1e-6)]. *)
Definition no_var_mask (v_X_var v_Y_var : list T) : list bool :=
  bmap2 orb (map (fun v => leb v lit_1em6) v_X_var)
            (map (fun v => leb v lit_1em6) v_Y_var).

(** [pearson_corr_sparse(mat_X, mat_Y, var_filter)].  The two matrices have
    the same number of columns, or one of them a single column that is
    broadcast (for other shapes the sparse product raises; see
    [IsuruControl.pearson_of_matrices]). *)
Definition pearson_corr_sparse (mat_X mat_Y : ndarray) (var_filter : bool)
  : result corr_result :=
  let mat_X := as_columns mat_X in
  let mat_Y := as_columns mat_Y in
  let '(v_X_mean, v_X_var) := _get_mean_var mat_X in
  let '(v_Y_mean, v_Y_var) := _get_mean_var mat_Y in
  let no_var := no_var_mask v_X_var v_Y_var in
  let keep := map negb no_var in
  filtered <-
    (if var_filter && np_any no_var then
       mat_X' <- select keep mat_X ;;
       mat_Y' <- select keep mat_Y ;;
       v_X_mean' <- select keep v_X_mean ;;
       v_X_var' <- select keep v_X_var ;;
       v_Y_mean' <- select keep v_Y_mean ;;
       v_Y_var' <- select keep v_Y_var ;;
       Ok (mat_X', mat_Y', (v_X_mean', v_X_var'), (v_Y_mean', v_Y_var'))
     else Ok (mat_X, mat_Y, (v_X_mean, v_X_var), (v_Y_mean, v_Y_var))) ;;
  let '(mat_X, mat_Y, (v_X_mean, v_X_var), (v_Y_mean, v_Y_var)) := filtered in
  let v_X_sd := map (fun v => sqrt (clip lit_1em8 v)) v_X_var in
  let v_Y_sd := map (fun v => sqrt (clip lit_1em8 v)) v_Y_var in
  let mat_corr := map np_mean (bmap2 (map2 mul) mat_X mat_Y) in
  let mat_corr := bmap2 sub mat_corr (bmap2 mul v_X_mean v_Y_mean) in
  let mat_corr := bmap2 div (bmap2 div mat_corr v_X_sd) v_Y_sd in
  let mat_corr := map f32 mat_corr in
  if (length mat_X =? 1) || (length mat_Y =? 1) then Ok (Flat mat_corr)
  else if var_filter then Ok (WithMask mat_corr keep)
  else Ok (Row mat_corr).

End Pearson.

(** ** The random source *)

(** The generator state is the tape of raw draws still to come; an exhausted
    tape yields zeros.  [randbelow n] is a draw in [0, n). *)
Definition rng : Type := list nat.

Definition randbelow (n : nat) (g : rng) : nat * rng :=
  match g with
  | [] => (0, [])
  | r :: g' => (r mod n, g')
  end.

(** [l] without its entry at position [j]. *)
Definition remove_at {A : Type} (j : nat) (l : list A) : list A :=
  firstn j l ++ skipn (S j) l.

(** [k] draws without replacement: each draw takes one entry of the
    remaining pool out of it.  (CPython's [random.sample] moves the last
    item of the pool into the place of the entry taken, so the same raw
    draws can select other entries from the second draw on; the samples that
    can be drawn are the same.) *)
Fixpoint draw {A : Type} (k : nat) (pool : list A) (g : rng) : list A * rng :=
  match k with
  | O => ([], g)
  | S k' =>
      let '(j, g1) := randbelow (length pool) g in
      match nth_error pool j with
      | Some x =>
          let '(rest, g2) := draw k' (remove_at j pool) g1 in
          (x :: rest, g2)
      | None => ([], g1)
      end
  end.

(** [random.sample(population, k)]: [ValueError] when the sample is larger
    than the population, else [k] entries at distinct positions. *)
Definition random_sample {A : Type} (population : list A) (k : nat) (g : rng)
  : result (list A * rng) :=
  if k <=? length population then Ok (draw k population g)
  else Raise ValueError.

(** [np.random.choice(a, size=(b,), replace=False)]: [ValueError] ("Cannot
    take a larger sample than population when 'replace=False'") when [b]
    exceeds the population, else [b] entries at distinct positions. *)
Definition random_choice {A : Type} (a : list A) (size : nat) (g : rng)
  : result (list A * rng) :=
  if length a <? size then Raise ValueError
  else Ok (draw size a g).

(** ** src/ctar/method.py: the control peak sampler *)

(** A row of the [bins] table of [get_bins]: [name] is the row's index label
    (the link identifier of [adata.var]), [ind] its position. *)
Record bins_row : Type := {
  name : string;
  gene_ids : string;
  ind : nat;
  combined_mfa_gc : Z
}.

(** A cell of a pandas object column, and a pandas Series as its labelled
    cells. *)
Inductive pyobj : Type :=
| PyList (l : list nat)
| PyStr (s : string).

Definition series : Type := list (string * pyobj).

(** Python's [!=] between two objects: a list and a string are never equal. *)
Definition py_ne (a b : pyobj) : bool :=
  match a, b with
  | PyList l, PyList l' => negb (if list_eq_dec Nat.eq_dec l l' then true else false)
  | PyStr s, PyStr s' => negb (String.eqb s s')
  | _, _ => true
  end.

Fixpoint lookup {K V : Type} (eqk : K -> K -> bool) (k : K) (l : list (K * V)) : option V :=
  match l with
  | [] => None
  | (k', v) :: l' => if eqk k k' then Some v else lookup eqk k l'
  end.

(** The distinct bin identifiers of a table (the order of the groups plays
    no role: they are only looked up). *)
Fixpoint bin_keys (seen : list Z) (l : list Z) : list Z :=
  match l with
  | [] => []
  | k :: l' =>
      if existsb (Z.eqb k) seen then bin_keys seen l'
      else k :: bin_keys (k :: seen) l'
  end.

(** [bins[['ind','combined_mfa_gc']].groupby(['combined_mfa_gc']).agg(list)]:
    per bin a row whose single column ['ind'] holds the list of the bin's
    indices. *)
Definition bins_grouped (bins : list bins_row) : list (Z * series) :=
  map (fun k =>
         (k, [("ind"%string,
               PyList (map ind (filter (fun r => Z.eqb (combined_mfa_gc r) k) bins)))]))
      (bin_keys [] (map combined_mfa_gc bins)).

(** [rand_peaks(row, df, b)]. *)
Definition rand_peaks (row : bins_row) (df : list (Z * series)) (b : nat) (g : rng)
  : result (list nat * rng) :=
  (* row_bin = df.loc[row.combined_mfa_gc] *)
  match lookup Z.eqb (combined_mfa_gc row) df with
  | None => Raise KeyError
  | Some row_bin =>
      (* row_bin_copy = row_bin[row_bin != row.name] *)
      let row_bin_copy :=
        filter (fun cell => py_ne (snd cell) (PyStr (name row))) row_bin in
      (* random.sample(row_bin_copy['ind'], k=b) *)
      match lookup String.eqb "ind"%string row_bin_copy with
      | Some (PyList population) => random_sample population b g
      | _ => Raise KeyError
      end
  end.

(** [bins.apply(rand_peaks, axis=1, df=bins_grouped, b=b)]: the rows in
    order, drawing from one generator. *)
Fixpoint apply_rand_peaks (rows : list bins_row) (df : list (Z * series)) (b : nat)
  (g : rng) : result (list (list nat)) :=
  match rows with
  | [] => Ok []
  | row :: rows' =>
      r <- rand_peaks row df b g ;;
      rest <- apply_rand_peaks rows' df b (snd r) ;;
      Ok (fst r :: rest)
  end.

(** [create_ctrl_peaks(adata, b=b)] of method.py on the table [get_bins]
    returned for [adata]. *)
Definition create_ctrl_peaks (bins : list bins_row) (b : nat) (g : rng)
  : result (list (list nat)) :=
  apply_rand_peaks bins (bins_grouped bins) b g.

(** [get_bins] of method.py: one row per link, [ind = range(len(bins))]; the
    quantile bins [mfa_bin], [gc_bin] that [pd.qcut] assigns are inputs. *)
Definition get_bins (var_index peaks : list string) (mfa_bin gc_bin : list Z)
  : list bins_row :=
  map (fun '(i, (nm, (p, (m, q)))) =>
         {| name := nm; gene_ids := p; ind := i;
            combined_mfa_gc := (m * 10 + q)%Z |})
      (combine (seq 0 (length var_index))
         (combine var_index (combine peaks (combine mfa_bin gc_bin)))).

(** ** src/ctar/method-Isuru.py: the control peak sampler *)

Module IsuruSampler.

(** A row of [adata.var]: the column ['peak'] and the column named by
    [peak_col]. *)
Record var_row : Type := {
  v_peak : string;
  v_peak_col : string
}.

(** A row of the [bins] table of [get_bins]. *)
Record bins_row : Type := {
  peak : string;
  ind : nat;
  mfa_bin : Z;
  combined_mfa_gc : Z
}.

(** [Series.duplicated()]: true where the value occurred at an earlier
    position. *)
Fixpoint duplicated_from (seen : list string) (l : list string) : list bool :=
  match l with
  | [] => []
  | x :: l' => existsb (String.eqb x) seen :: duplicated_from (x :: seen) l'
  end.

Definition duplicated (l : list string) : list bool := duplicated_from [] l.

(** Position of the first entry equal to [x]. *)
Fixpoint index_of (x : string) (l : list string) : nat :=
  match l with
  | [] => 0
  | y :: l' => if String.eqb x y then 0 else S (index_of x l')
  end.

(** [pd.factorize(values)[0]]: each value's number among the distinct values
    in order of first appearance. *)
Definition factorize (values : list string) : list nat :=
  let uniques := where_ (map negb (duplicated values)) values in
  map (fun x => index_of x uniques) values.

(** [get_bins(adata, num_bins, peak_col, gc)]: one row per peak that is not a
    duplicate, [ind] its position in [adata.var]; the quantile bins that
    [pd.qcut] assigns to these rows are the inputs [mfa_q] and [gc_q] (the
    latter is read only with [gc]; without it the table has no
    ['combined_mfa_gc'] column and the field is not used). *)
Definition get_bins (var : list var_row) (mfa_q gc_q : list Z) (gc : bool)
  : list bins_row :=
  let unique := map negb (duplicated (map v_peak var)) in
  let peaks := where_ unique (map v_peak_col var) in
  let index_z := where_ unique (seq 0 (length var)) in
  let gc_bin := if gc then gc_q else map (fun _ => 0%Z) mfa_q in
  map (fun '(p, (i, (m, q))) =>
         {| peak := p; ind := i; mfa_bin := m;
            combined_mfa_gc := (m * 10 + q)%Z |})
      (combine peaks (combine index_z (combine mfa_q gc_bin))).

(** The bin a row is grouped by: ['combined_mfa_gc'] with [gc], else
    ['mfa_bin']. *)
Definition bin_of (gc : bool) (r : bins_row) : Z :=
  if gc then combined_mfa_gc r else mfa_bin r.

(** [bins_grouped.loc[k]]: the array of the [ind] of the rows of bin [k]. *)
Definition bins_grouped (gc : bool) (bins : list bins_row) (k : Z) : list nat :=
  map ind (filter (fun r => Z.eqb (bin_of gc r) k) bins).

(** The loop over [bins.itertuples()] filling [ctrl_peaks]. *)
Fixpoint sample_rows (gc : bool) (bins rows : list bins_row) (b : nat) (g : rng)
  : result (list (list nat)) :=
  match rows with
  | [] => Ok []
  | peak :: rows' =>
      let row_bin := bins_grouped gc bins (bin_of gc peak) in
      let row_bin_copy := filter (fun i => negb (i =? ind peak)) row_bin in
      r <- random_choice row_bin_copy b g ;;
      rest <- sample_rows gc bins rows' b (snd r) ;;
      Ok (fst r :: rest)
  end.

(** [ctrl_peaks[ind, :]]: the rows picked by a list of row numbers. *)
Fixpoint take_rows {A : Type} (m : list A) (idx : list nat) : result (list A) :=
  match idx with
  | [] => Ok []
  | i :: idx' =>
      match nth_error m i with
      | Some r => rest <- take_rows m idx' ;; Ok (r :: rest)
      | None => Raise IndexError
      end
  end.

(** [create_ctrl_peaks(adata, num_bins, b, update, gc, peak_col)]. *)
Definition create_ctrl_peaks (var : list var_row) (mfa_q gc_q : list Z)
  (b : nat) (gc : bool) (g : rng) : result (list (list nat)) :=
  let bins := get_bins var mfa_q gc_q gc in
  ctrl_peaks <- sample_rows gc bins bins b g ;;
  (* for duplicated peaks, simply copy these rows *)
  let ind := factorize (map v_peak_col var) in
  take_rows ctrl_peaks ind.

End IsuruSampler.

(** ** src/ctar/method-Isuru.py: the Poisson coefficient *)

(** A value that [fit_poisson] returns. *)
Inductive pyval (T : Type) : Type :=
| PyNone
| PyInt (z : Z)
| PyFloat (x : T).
Arguments PyNone {T}.
Arguments PyInt {T} z.
Arguments PyFloat {T} x.

(** What [get_poiss_coeff] returns: the retained feature columns of [adata]
    and the coefficients written to [adata.var[label]]. *)
Record poiss_adata (T : Type) : Type := {
  features : list nat;
  poiss_coeff : list T
}.

Section Poisson.
Context {T : Type} {N : Num T}.

(** The body of the [try] block of [fit_poisson]: the accessibility
    coefficient [result.params[1]] of the fitted model, or [None] when
    building or fitting the model raises. *)
Variable glm_fit : list T -> list T -> option T.

(** [fit_poisson(x, y, return_none)]. *)
Definition fit_poisson (x y : list T) (return_none : bool) : pyval T :=
  match glm_fit x y with
  | Some c => PyFloat c
  | None => if return_none then PyNone else PyInt 0
  end.

(** [v.any()]: defined on a numpy scalar (true unless it is zero); [None]
    and a Python [int] have no such attribute. *)
Definition py_any (v : pyval T) : result bool :=
  match v with
  | PyFloat c => Ok (negb (eqb c zero))
  | PyNone | PyInt _ => Raise AttributeError
  end.

(** The loop of [get_poiss_coeff] from column [i] on. *)
Fixpoint poiss_loop (i : nat) (x y : list (list T)) (coeffs : list (pyval T))
  (failed : list nat) : result (list (pyval T) * list nat) :=
  match x, y with
  | [], _ => Ok (coeffs, failed)
  | _ :: _, [] => Raise IndexError
  | xi :: x', yi :: y' =>
      let coeff_ := fit_poisson xi yi true in
      a <- py_any coeff_ ;;
      if negb a then poiss_loop (S i) x' y' coeffs (failed ++ [i])
      else poiss_loop (S i) x' y' (coeffs ++ [coeff_]) failed
  end.

(** [np.delete(idx, failed)]. *)
Definition np_delete (idx failed : list nat) : list nat :=
  filter (fun i => negb (existsb (Nat.eqb i) failed)) idx.

(** [np.array(coeffs)] as the new column of [adata.var]: a [ValueError] when
    its length is not the number of retained features. *)
Definition set_var (idx : list nat) (coeffs : list (pyval T)) : result (poiss_adata T) :=
  if length coeffs =? length idx then
    Ok {| features := idx;
          poiss_coeff := flat_map (fun v => match v with PyFloat c => [c] | _ => [] end) coeffs |}
  else Raise ValueError.

(** [get_poiss_coeff(adata, layer, binarize, label)] on the dense columns
    [x], [y] of the two layers. *)
Definition get_poiss_coeff (x y : list (list T)) : result (poiss_adata T) :=
  r <- poiss_loop 0 x y [] [] ;;
  let '(coeffs, failed) := r in
  let idx := np_delete (seq 0 (length x)) failed in
  set_var idx coeffs.

End Poisson.

(** ** The binary64 instance *)

Definition float_of_nat (n : nat) : float :=
  PrimFloat.of_uint63 (Uint63.of_Z (Z.of_nat n)).

(** Rounding of a binary64 value to binary32 (24 bits, maximal exponent 128). *)
Definition float_f32 (x : float) : float :=
  match Prim2SF x with
  | S754_finite s m e =>
      SF2Prim (binary_normalize 24 128 (if s then Z.neg m else Z.pos m) e s)
  | _ => x
  end.

#[export] Instance Num_float : Num float := {
  zero := 0%float;
  add := PrimFloat.add;
  sub := PrimFloat.sub;
  mul := PrimFloat.mul;
  div := PrimFloat.div;
  sqrt := PrimFloat.sqrt;
  abs := PrimFloat.abs;
  of_nat := float_of_nat;
  ltb := PrimFloat.ltb;
  leb := PrimFloat.leb;
  eqb := PrimFloat.eqb;
  f32 := float_f32;
  lit_1em6 := 1e-6%float;
  lit_1em8 := 1e-8%float
}.

(** ** The exact instance: real numbers *)

Definition R_ltb (a b : R) : bool := if Rlt_dec a b then true else false.
Definition R_leb (a b : R) : bool := if Rle_dec a b then true else false.
Definition R_eqb (a b : R) : bool := if Req_dec_T a b then true else false.

#[export] Instance Num_R : Num R := {
  zero := 0%R;
  add := Rplus;
  sub := Rminus;
  mul := Rmult;
  div := Rdiv;
  sqrt := R_sqrt.sqrt;
  abs := Rabs;
  of_nat := INR;
  ltb := R_ltb;
  leb := R_leb;
  eqb := R_eqb;
  f32 := fun x => x;
  lit_1em6 := (1 / 1000000)%R;
  lit_1em8 := (1 / 100000000)%R
}.

(** ** Further functions of method.py and method-Isuru.py *)

Section Initial.
Context {T : Type} {N : Num T}.

(** [initial_mcpval(del_cctrl, del_c)]: per feature the number of its own
    controls with [np.abs(del_cctrl) >= np.abs(del_c)], then
    [(1 + indicator) / (1 + del_cctrl.shape[1])]. *)
Definition initial_mcpval (del_cctrl : list (list T)) (del_c : list T) : list Q :=
  let indicator :=
    map2 (fun r c => length (filter (fun e => leb (abs c) (abs e)) r)) del_cctrl del_c in
  map (fun k => pval_of k (snd (shape del_cctrl))) indicator.

End Initial.

(** The slice [lst[start:stop]]. *)
Definition py_slice {A : Type} (start stop : nat) (lst : list A) : list A :=
  firstn (stop - start) (skipn start lst).

(** The loop of [chunk_lists]: [list_chunks] is the dictionary built so far,
    in insertion order; [fuel] bounds the number of iterations. *)
Fixpoint chunk_while {A : Type} (fuel g num_groups group_size : nat) (lst : list A)
  (list_chunks : list (nat * list A)) : list (nat * list A) :=
  match fuel with
  | O => list_chunks
  | S fuel' =>
      if g <=? num_groups + 1 then
        let chunk :=
          if g <? num_groups + 1
          then py_slice (group_size * (g - 1)) (group_size * g) lst
          else skipn (group_size * (g - 1)) lst in
        chunk_while fuel' (g + 1) num_groups group_size lst (list_chunks ++ [(g, chunk)])
      else list_chunks
  end.

(** [chunk_lists(lst, num_groups)] of method-Isuru.py; [None] is the
    [ZeroDivisionError] of [len(lst)//num_groups] for [num_groups = 0].  The
    loop runs [num_groups + 1] times. *)
Definition chunk_lists {A : Type} (lst : list A) (num_groups : nat)
  : option (list (nat * list A)) :=
  if num_groups =? 0 then None
  else Some (chunk_while (num_groups + 1) 1 num_groups (length lst / num_groups) lst []).

(** *** method.py: the control correlations *)

Section ControlCorr.
Context {T : Type} {N : Num T}.

(** [mat[:, idx]] on a matrix given by its columns: the columns at the
    positions [idx], an [IndexError] for a position out of range. *)
Definition take_cols (mat : list (list T)) (idx : list nat) : result (list (list T)) :=
  IsuruSampler.take_rows mat idx.

(** The assignment [ctrl_corr[row, :] = value] into a row of [b] entries:
    the value has [b] entries, or one entry that is broadcast; any other
    length is a [ValueError].  (A pair of array and mask is not met here:
    the correlation is called without [var_filter].) *)
Definition assign_row (b : nat) (value : corr_result) : result (list T) :=
  match value with
  | Flat c | Row c =>
      if length c =? b then Ok c
      else match c with
           | [x] => Ok (repeat x b)
           | _ => Raise ValueError
           end
  | WithMask _ _ => Raise ValueError
  end.

(** The loop [for row in range(adata.shape[1])] of [control_corr]. *)
Fixpoint control_corr_loop (atac_Xs rna_Xs : list (list T)) (ctrl_peaks : list (list nat))
  (b : nat) (rows : list nat) : result (list (list T)) :=
  match rows with
  | [] => Ok []
  | row :: rows' =>
      match nth_error ctrl_peaks row, nth_error rna_Xs row with
      | Some peaks, Some y =>
          x <- take_cols atac_Xs peaks ;;
          c <- pearson_corr_sparse (Arr2 x) (Arr2 [y]) false ;;
          r <- assign_row b c ;;
          rest <- control_corr_loop atac_Xs rna_Xs ctrl_peaks b rows' ;;
          Ok (r :: rest)
      | _, _ => Raise IndexError
      end
  end.

(** [control_corr(adata, b, update, ct)] of method.py.  [varm_control_peaks]
    is [adata.varm['control_peaks']] when the key is there; without it the
    matrix is made by [create_ctrl_peaks] from the table [bins] of [adata].
    [atac_Xs] is the accessibility matrix chosen by [ct], [rna_Xs] the
    expression layer, both by columns over the same cells. *)
Definition control_corr (varm_control_peaks : option (list (list nat)))
  (bins : list bins_row) (atac_Xs rna_Xs : list (list T)) (b : nat) (g : rng)
  : result (list (list T)) :=
  ctrl_peaks <- match varm_control_peaks with
                | Some m => Ok m
                | None => create_ctrl_peaks bins b g
                end ;;
  control_corr_loop atac_Xs rna_Xs ctrl_peaks b (seq 0 (length rna_Xs)).

End ControlCorr.

(** *** method.py: the correlations of the links *)

Section GetCorrs.
Context {T : Type} {N : Num T}.

(** [get_corrs(adata)] on the rows [var] of [adata.var] and the columns of
    the two layers; the result is the new [adata.var] with its column
    ['corr'].  [corr[1]] is the keep-mask when [pearson_corr_sparse] returns
    the pair; when it returns a single array, [corr[1]] is an entry of it
    (an [IndexError] when it has one entry, and no valid index of [adata]
    otherwise: an [IndexError] as well).  Setting a column of another length
    than the table is a [ValueError]. *)
Definition get_corrs {A : Type} (var : list A) (rna atac : list (list T))
  : result (list A * list T) :=
  corr <- pearson_corr_sparse (Arr2 rna) (Arr2 atac) true ;;
  match corr with
  | WithMask mat_corr keep =>
      var' <- select keep var ;;
      if length mat_corr =? length var' then Ok (var', mat_corr)
      else Raise ValueError
  | Flat _ | Row _ => Raise IndexError
  end.

End GetCorrs.

(** *** method-Isuru.py: the control correlations, one by one and by chunks *)

Module IsuruControl.
Section Control.
Context {T : Type} {N : Num T}.

(** [control_corr(adata, b, update, ct, is_atac, rna_adata)] of
    method-Isuru.py: the loop is that of method.py; a missing
    [adata.varm['control_peaks']] is made by the [create_ctrl_peaks] of this
    file, called with its defaults ([gc=True]). *)
Definition control_corr (varm_control_peaks : option (list (list nat)))
  (var : list IsuruSampler.var_row) (mfa_q gc_q : list Z)
  (atac_Xs rna_Xs : list (list T)) (b : nat) (g : rng) : result (list (list T)) :=
  ctrl_peaks <- match varm_control_peaks with
                | Some m => Ok m
                | None => IsuruSampler.create_ctrl_peaks var mfa_q gc_q b true g
                end ;;
  control_corr_loop atac_Xs rna_Xs ctrl_peaks b (seq 0 (length rna_Xs)).

(** [np.concatenate(arrays, axis=0)] and [np.vstack(arrays)] on a list of
    arrays: a [ValueError] ("need at least one array to concatenate") for
    the empty list. *)
Definition np_concatenate {A : Type} (arrays : list (list A)) : result (list A) :=
  match arrays with
  | [] => Raise ValueError
  | _ :: _ => Ok (concat arrays)
  end.

(** [np.tile(X[:, :, np.newaxis], (1, 1, b)).reshape(rows, cols * b)]: each
    column [b] times in a row. *)
Definition tile_columns (X : list (list T)) (b : nat) : list (list T) :=
  flat_map (fun c => repeat c b) X.

(** The rows of [v.reshape(cols, b)]. *)
Fixpoint rows_of (cols b : nat) (v : list T) : list (list T) :=
  match cols with
  | O => []
  | S c => firstn b v :: rows_of c b (skipn b v)
  end.

(** [value.reshape(cols, b)]: a [ValueError] unless the array has
    [cols * b] entries (a tuple has no [reshape]). *)
Definition reshape (cols b : nat) (value : corr_result) : result (list (list T)) :=
  match value with
  | Flat c | Row c =>
      if length c =? cols * b then Ok (rows_of cols b c) else Raise ValueError
  | WithMask _ _ => Raise AttributeError
  end.

(** [pearson_corr_sparse] on two matrices: the sparse product
    [mat_X.multiply(mat_Y)] raises a [ValueError] ("inconsistent shapes")
    unless the column counts agree or one side is a single column. *)
Definition pearson_of_matrices (X Y : list (list T)) : result corr_result :=
  if (length X =? length Y) || (length X =? 1) || (length Y =? 1)
  then pearson_corr_sparse (Arr2 X) (Arr2 Y) false
  else Raise ValueError.

(** The loop [for i in chunked_ctrl_peaks] of [control_corr_fast]. *)
Fixpoint control_corr_fast_loop (atac_Xs rna_X : list (list T))
  (rna_col_chunks : list (nat * list nat)) (b : nat)
  (chunked_ctrl_peaks : list (nat * list (list nat)))
  : result (list (list (list T))) :=
  match chunked_ctrl_peaks with
  | [] => Ok []
  | (i, chunk) :: rest =>
      index_arr <- np_concatenate chunk ;;
      match lookup Nat.eqb i rna_col_chunks with
      | None => Raise KeyError
      | Some col_idx =>
          rna_chunk <- take_cols rna_X col_idx ;;
          let cols := length rna_chunk in
          X <- take_cols atac_Xs index_arr ;;
          ctrl_corr_chunk <- pearson_of_matrices X (tile_columns rna_chunk b) ;;
          m <- reshape cols b ctrl_corr_chunk ;;
          pearson_corrs <- control_corr_fast_loop atac_Xs rna_X rna_col_chunks b rest ;;
          Ok (m :: pearson_corrs)
      end
  end.

(** [control_corr_fast(adata, b, update, ct, is_atac, rna_adata)]: the
    control peaks and the expression columns are cut by [chunk_lists] into
    15 + 1 chunks (15 is not zero: the division of [chunk_lists] is
    defined). *)
Definition control_corr_fast (varm_control_peaks : option (list (list nat)))
  (var : list IsuruSampler.var_row) (mfa_q gc_q : list Z)
  (atac_Xs rna_X : list (list T)) (b : nat) (g : rng) : result (list (list T)) :=
  ctrl_peaks <- match varm_control_peaks with
                | Some m => Ok m
                | None => IsuruSampler.create_ctrl_peaks var mfa_q gc_q b true g
                end ;;
  let chunked_ctrl_peaks :=
    match chunk_lists ctrl_peaks 15 with Some c => c | None => [] end in
  let rna_col_chunks :=
    match chunk_lists (seq 0 (length rna_X)) 15 with Some c => c | None => [] end in
  pearson_corrs <-
    control_corr_fast_loop atac_Xs rna_X rna_col_chunks b chunked_ctrl_peaks ;;
  np_concatenate pearson_corrs.

End Control.
End IsuruControl.

(** *** method-Isuru.py: the stratified layers *)

Section Stratified.
Context {T : Type} {N : Num T}.

(** The unary minus of the number type. *)
Variable opp : T -> T.

(** [-np.sort(-m[:i, :], axis=0)] on a matrix given by its columns: the
    first [i] rows, every column sorted on its own. *)
Definition sort_desc_rows (i : nat) (m : list (list T)) : list (list T) :=
  map (fun c => map opp (np_sort (map opp (firstn i c)))) m.

(** The loop [for i in neighborhood_sizes.values] of [build_strat_layers];
    [rna] is [None] or the second matrix. *)
Fixpoint strat_loop (sizes : list nat) (atac : list (list T))
  (rna : option (list (list T)))
  (stratified_atac stratified_rna : list (list (list T)))
  : list (list (list T)) * list (list (list T)) :=
  match sizes with
  | [] => (stratified_atac, stratified_rna)
  | i :: sizes' =>
      let atac_i := sort_desc_rows i atac in
      let atac' := map (skipn i) atac in
      match rna with
      | Some r =>
          let rna_i := sort_desc_rows i r in
          strat_loop sizes' atac' (Some (map (skipn i) r))
                     (stratified_atac ++ [atac_i]) (stratified_rna ++ [rna_i])
      | None =>
          strat_loop sizes' atac' None (stratified_atac ++ [atac_i]) stratified_rna
      end
  end.

(** [np.vstack(blocks)] of blocks with the same columns, each given by its
    columns: a [ValueError] for the empty list. *)
Definition np_vstack (blocks : list (list (list T))) : result (list (list T)) :=
  match blocks with
  | [] => Raise ValueError
  | b0 :: rest => Ok (fold_left (map2 (@app T)) rest b0)
  end.

(** [build_strat_layers(atac, rna, neighborhood_sizes)]: the stratified
    accessibility matrix, and the stratified second matrix when [rna] is
    given. *)
Definition build_strat_layers (atac : list (list T)) (rna : option (list (list T)))
  (neighborhood_sizes : list nat)
  : result (list (list T) * option (list (list T))) :=
  let '(stratified_atac, stratified_rna) :=
    strat_loop neighborhood_sizes atac rna [] [] in
  stratified_atac <- np_vstack stratified_atac ;;
  match rna with
  | Some _ =>
      stratified_rna <- np_vstack stratified_rna ;;
      Ok (stratified_atac, Some stratified_rna)
  | None => Ok (stratified_atac, None)
  end.

End Stratified.

(** ** Vocabulary of the statements *)

(** The chunk that one pass of the loop of [chunk_lists] stores under key [g]. *)
Definition chunk_of {A : Type} (num_groups group_size : nat) (lst : list A) (g : nat)
  : list A :=
  if g <? num_groups + 1
  then py_slice (group_size * (g - 1)) (group_size * g) lst
  else skipn (group_size * (g - 1)) lst.

Section Vocabulary.
Context {T : Type} {N : Num T}.

(** Number of entries of [l] ordered before [key], of those at or above it
    (not ordered before it), and of those tied with it. *)
Definition count_lt (key : T) (l : list T) : nat :=
  length (filter (fun e => less e key) l).

Definition count_ge (key : T) (l : list T) : nat :=
  length (filter (fun e => negb (less e key)) l).

Definition count_tie (key : T) (l : list T) : nat :=
  length (filter (fun e => negb (less e key) && negb (less key e)) l).

(** [l] is ascending: no entry is ordered before an earlier one. *)
Definition ascending (l : list T) : Prop :=
  forall i j, i <= j -> j < length l ->
    forall d, less (nth j l d) (nth i l d) = false.

(** Sortedness in the head/tail form used by the induction on [insert]. *)
Inductive sorted : list T -> Prop :=
| sorted_nil : sorted []
| sorted_cons x l : Forall (fun y => less y x = false) l -> sorted l -> sorted (x :: l).

(** The loop invariant of the bisection: everything left of [p] is below
    the key, everything from [p] on is not. *)
Definition split_at (a : list T) (key : T) (p : nat) : Prop :=
  p <= length a /\
  (forall i, i < p -> less (nth i a key) key = true) /\
  (forall i, p <= i -> i < length a -> less (nth i a key) key = false).

(** The variance [_get_mean_var] computes for the column [x]. *)
Definition col_var (x : list T) : T :=
  sub (np_mean (map (fun v => mul v v) x)) (mul (np_mean x) (np_mean x)).

(** The consecutive pieces of [l] of the lengths [sizes]. *)
Fixpoint cut (sizes : list nat) (l : list T) : list (list T) :=
  match sizes with
  | [] => []
  | i :: sizes' => firstn i l :: cut sizes' (skipn i l)
  end.

(** The correlation the engine computes for one pair of columns. *)
Definition pair_corr (x y : list T) : T :=
  f32 (div (div (sub (np_mean (map2 mul x y)) (mul (np_mean x) (np_mean y)))
                (sqrt (clip lit_1em8 (col_var x))))
           (sqrt (clip lit_1em8 (col_var y)))).

End Vocabulary.

(** The blocks the loop of [build_strat_layers] appends for one matrix. *)
Fixpoint strat_blocks {T : Type} {N : Num T} (opp : T -> T) (sizes : list nat)
  (atac : list (list T)) : list (list (list T)) :=
  match sizes with
  | [] => []
  | i :: sizes' =>
      sort_desc_rows opp i atac :: strat_blocks opp sizes' (map (skipn i) atac)
  end.

(** A rank that orders the values as numpy does: negative infinity, the
    negative numbers, the zeros, the positive numbers, positive infinity,
    and NaN last. *)
Definition float_rank (x : spec_float) : nat * Z * Z :=
  match x with
  | S754_infinity true => (0, 0%Z, 0%Z)
  | S754_finite true m e => (1, (- e)%Z, Z.neg m)
  | S754_zero _ => (2, 0%Z, 0%Z)
  | S754_finite false m e => (3, e, Z.pos m)
  | S754_infinity false => (4, 0%Z, 0%Z)
  | S754_nan => (5, 0%Z, 0%Z)
  end.

Definition lex_ltb (k1 k2 : nat * Z * Z) : bool :=
  let '(c1, e1, m1) := k1 in
  let '(c2, e2, m2) := k2 in
  match c1 ?= c2 with
  | Lt => true
  | Gt => false
  | Eq => match (e1 ?= e2)%Z with
          | Lt => true
          | Gt => false
          | Eq => (m1 <? m2)%Z
          end
  end.

Definition lex_lt (k1 k2 : nat * Z * Z) : Prop :=
  let '(c1, e1, m1) := k1 in
  let '(c2, e2, m2) := k2 in
  c1 < c2 \/ (c1 = c2 /\ (e1 < e2 \/ (e1 = e2 /\ m1 < m2))%Z).

Definition sf_less (x y : spec_float) : bool :=
  SFltb x y || (negb (SFeqb y y) && SFeqb x x).

(** The members of the bin of [row] in method.py, the row itself among them. *)
Definition bin_members (bins : list bins_row) (row : bins_row) : list nat :=
  map ind (filter (fun r => Z.eqb (combined_mfa_gc r) (combined_mfa_gc row)) bins).

(** In method-Isuru.py: the members of the bin of [peak] other than [peak]
    itself, and the number of distinct peaks of [adata.var]. *)
Definition others (gc : bool) (bins : list IsuruSampler.bins_row)
  (peak : IsuruSampler.bins_row) : list nat :=
  filter (fun i => negb (i =? IsuruSampler.ind peak))
         (IsuruSampler.bins_grouped gc bins (IsuruSampler.bin_of gc peak)).

Definition n_unique (var : list IsuruSampler.var_row) : nat :=
  length (where_ (map negb (IsuruSampler.duplicated (map IsuruSampler.v_peak var)))
                 (seq 0 (length var))).

(** What the loop of [get_poiss_coeff] collects when no fit raises: the
    coefficients that are not zero, and the columns (numbered from [i]) whose
    coefficient is zero. *)
Fixpoint loop_coeffs {T : Type} {N : Num T} (glm_fit : list T -> list T -> option T)
  (x y : list (list T)) : list (pyval T) :=
  match x, y with
  | xi :: x', yi :: y' =>
      match glm_fit xi yi with
      | Some c => if eqb c zero then loop_coeffs glm_fit x' y'
                  else PyFloat c :: loop_coeffs glm_fit x' y'
      | None => loop_coeffs glm_fit x' y'
      end
  | _, _ => []
  end.

Fixpoint loop_failed {T : Type} {N : Num T} (glm_fit : list T -> list T -> option T)
  (i : nat) (x y : list (list T)) : list nat :=
  match x, y with
  | xi :: x', yi :: y' =>
      match glm_fit xi yi with
      | Some c => if eqb c zero then i :: loop_failed glm_fit (S i) x' y'
                  else loop_failed glm_fit (S i) x' y'
      | None => loop_failed glm_fit (S i) x' y'
      end
  | _, _ => []
  end.

(** A fit that raises on a constant accessibility column (for which
    [sm.add_constant] adds no column and [result.params[1]] does not exist)
    and otherwise returns the slope between the first two cells.  It stands
    for the statsmodels fit on columns that are constant and not zero. *)
Definition constant_column_fails (x y : list float) : option float :=
  match x with
  | a :: b :: _ =>
      if forallb (PrimFloat.eqb a) x then None
      else Some (PrimFloat.div (PrimFloat.sub (nth 1 y 0%float) (nth 0 y 0%float))
                               (PrimFloat.sub b a))
  | _ => None
  end.

(** * Properties *)

(** ** Sorting and binary search under a strict weak order *)

Section SearchTheory.
Context {T : Type} {N : Num T}.
Hypothesis SW : StrictWeak (@less T N).

Lemma count_lt_ge (key : T) (l : list T) :
  count_lt key l + count_ge key l = length l.
Proof.
  unfold count_lt, count_ge.
  induction l as [|x l IH]; simpl; [reflexivity|].
  destruct (less x key); simpl; lia.
Qed.

Lemma insert_perm (x : T) (l : list T) : Permutation (insert x l) (x :: l).
Proof.
  induction l as [|y l IH]; simpl; [apply Permutation_refl|].
  destruct (less x y); [apply Permutation_refl|].
  eapply perm_trans; [apply perm_skip, IH | apply perm_swap].
Qed.

Lemma np_sort_perm (l : list T) : Permutation (np_sort l) l.
Proof.
  induction l as [|x l IH]; simpl; [constructor|].
  eapply perm_trans; [apply insert_perm | apply perm_skip, IH].
Qed.

Lemma np_sort_length (l : list T) : length (np_sort l) = length l.
Proof. apply Permutation_length, np_sort_perm. Qed.

Lemma count_ge_perm (key : T) (l l' : list T) :
  Permutation l l' -> count_ge key l = count_ge key l'.
Proof.
  unfold count_ge.
  induction 1 as [|x l l' _ IH|x y l|l l' l'' _ IH1 _ IH2]; simpl.
  - reflexivity.
  - destruct (less x key); simpl; congruence.
  - destruct (less x key), (less y key); reflexivity.
  - congruence.
Qed.

Lemma insert_sorted (x : T) (l : list T) : sorted l -> sorted (insert x l).
Proof.
  induction 1 as [|y l Hy Hs IH]; simpl.
  - constructor; constructor.
  - destruct (less x y) eqn:E.
    + constructor; [|constructor; assumption].
      constructor.
      * destruct (less y x) eqn:E'; [|reflexivity].
        rewrite <- (sw_irrefl SW x). symmetry. eapply (sw_trans SW); eassumption.
      * rewrite Forall_forall in *. intros z Hz.
        destruct (less z x) eqn:E'; [|reflexivity].
        rewrite <- (Hy z Hz). symmetry. eapply (sw_trans SW); eassumption.
    + constructor; [|assumption].
      rewrite Forall_forall in *. intros z Hz.
      apply (Permutation_in _ (insert_perm x l)) in Hz.
      destruct Hz as [<-|Hz]; [assumption | apply Hy, Hz].
Qed.

Lemma np_sort_sorted (l : list T) : sorted (np_sort l).
Proof.
  induction l as [|x l IH]; simpl; [constructor | apply insert_sorted, IH].
Qed.

Lemma sorted_ascending (l : list T) : sorted l -> ascending l.
Proof.
  induction 1 as [|x l Hx Hs IH]; intros i j Hij Hj d; simpl in Hj; [lia|].
  destruct j as [|j].
  - assert (i = 0) by lia. subst i. simpl. apply (sw_irrefl SW).
  - destruct i as [|i]; simpl.
    + rewrite Forall_forall in Hx. apply Hx, nth_In. lia.
    + apply IH; lia.
Qed.

(** In an ascending list the entries ordered before [key] form a prefix. *)
Lemma ascending_below (l : list T) (key : T) (i j : nat) (d : T) :
  ascending l -> i <= j -> j < length l ->
  less (nth j l d) key = true -> less (nth i l d) key = true.
Proof.
  intros Ha Hij Hj Hlt.
  destruct (less (nth i l d) key) eqn:E; [reflexivity|].
  rewrite <- Hlt. symmetry.
  apply (sw_ntrans SW) with (b := nth i l d); [apply Ha; assumption | assumption].
Qed.

Lemma ascending_above (l : list T) (key : T) (i j : nat) (d : T) :
  ascending l -> i <= j -> j < length l ->
  less (nth i l d) key = false -> less (nth j l d) key = false.
Proof.
  intros Ha Hij Hj Hge.
  apply (sw_ntrans SW) with (b := nth i l d); [apply Ha; assumption | assumption].
Qed.

Lemma bisect_left_step (fuel : nat) (a : list T) (key : T) (lo hi : nat) :
  bisect_left (S fuel) a key lo hi =
  if lo <? hi then
    if less (nth (lo + (hi - lo) / 2) a key) key
    then bisect_left fuel a key (lo + (hi - lo) / 2 + 1) hi
    else bisect_left fuel a key lo (lo + (hi - lo) / 2)
  else lo.
Proof. reflexivity. Qed.

Lemma bisect_left_split (a : list T) (key : T) :
  ascending a ->
  forall fuel lo hi,
    hi - lo <= fuel -> lo <= hi -> hi <= length a ->
    (forall i, i < lo -> less (nth i a key) key = true) ->
    (forall i, hi <= i -> i < length a -> less (nth i a key) key = false) ->
    split_at a key (bisect_left fuel a key lo hi).
Proof.
  intros Ha fuel.
  induction fuel as [|fuel IH]; intros lo hi Hf Hle Hhi Hlo Hup.
  - simpl. assert (lo = hi) by lia. subst hi.
    repeat split; [lia | exact Hlo | exact Hup].
  - rewrite bisect_left_step. destruct (lo <? hi) eqn:E.
    + apply Nat.ltb_lt in E.
      set (mid := lo + (hi - lo) / 2).
      assert (Hm : lo <= mid /\ mid < hi).
      { unfold mid. split; [lia|].
        assert ((hi - lo) / 2 < hi - lo) by (apply Nat.div_lt; lia). lia. }
      destruct (less (nth mid a key) key) eqn:Em.
      * apply IH; try lia.
        -- intros i Hi. apply ascending_below with (j := mid); auto; lia.
        -- exact Hup.
      * apply IH; try lia.
        -- exact Hlo.
        -- intros i Hi Hi'. apply ascending_above with (i := mid); auto; lia.
    + apply Nat.ltb_ge in E. assert (lo = hi) by lia. subst hi.
      repeat split; [lia | exact Hlo | exact Hup].
Qed.

Lemma searchsorted1_split (a : list T) (key : T) :
  ascending a -> split_at a key (searchsorted1 a key).
Proof.
  intros Ha. unfold searchsorted1.
  apply bisect_left_split; auto; try lia.
Qed.

(** A split point is the number of entries below the key. *)
Lemma split_at_count (a : list T) (key : T) (p : nat) :
  split_at a key p -> count_lt key a = p.
Proof.
  revert p. unfold count_lt.
  induction a as [|x a IH]; intros p (Hp & Hlo & Hup); simpl in *.
  - lia.
  - destruct p as [|p].
    + rewrite (Hup 0) by lia. 
      rewrite (IH 0); [reflexivity|].
      repeat split; [lia | intros; lia |].
      intros i _ Hi. apply (Hup (S i)); lia.
    + rewrite (Hlo 0) by lia. simpl. f_equal.
      apply IH. repeat split; [lia | |].
      * intros i Hi. apply (Hlo (S i)). lia.
      * intros i Hi Hi'. apply (Hup (S i)); lia.
Qed.

(** What [len(a) - np.searchsorted(a, key)] computes on the sorted pool. *)
Lemma searchsorted1_count (l : list T) (key : T) :
  length (np_sort l) - searchsorted1 (np_sort l) key = count_ge key l.
Proof.
  pose proof (searchsorted1_split key (sorted_ascending (np_sort_sorted l))) as Hs.
  apply split_at_count in Hs.
  pose proof (count_lt_ge key (np_sort l)) as Hc.
  rewrite (count_ge_perm key (np_sort_perm l)) in Hc. lia.
Qed.

End SearchTheory.

(** ** The order of binary64 values *)

Module FloatOrder.

Lemma lex_ltb_spec (k1 k2 : nat * Z * Z) : lex_ltb k1 k2 = true <-> lex_lt k1 k2.
Proof.
  destruct k1 as [[c1 e1] m1], k2 as [[c2 e2] m2]. unfold lex_ltb, lex_lt.
  destruct (Nat.compare_spec c1 c2), (Z.compare_spec e1 e2);
    rewrite ?Z.ltb_lt; split; intros; try discriminate; try lia; auto.
Qed.

Lemma lex_ltb_false (k1 k2 : nat * Z * Z) : lex_ltb k1 k2 = false <-> ~ lex_lt k1 k2.
Proof.
  rewrite <- lex_ltb_spec. destruct (lex_ltb k1 k2); split; congruence.
Qed.

Lemma sf_less_rank (x y : spec_float) : sf_less x y = lex_ltb (float_rank x) (float_rank y).
Proof.
  unfold sf_less, SFltb, SFeqb.
  destruct x as [sx|sx| |sx mx ex], y as [sy|sy| |sy my ey];
    try (destruct sx); try (destruct sy); try reflexivity.
  all: cbn [SFcompare float_rank lex_ltb Nat.compare]; rewrite ?Pos.compare_cont_spec;
    cbn [Pos.switch_Eq]; rewrite ?Pos.compare_refl, ?Z.compare_refl;
    cbn [negb andb orb CompOpp]; try reflexivity.
  all: rewrite ?orb_false_r.
  - rewrite Z.compare_opp, (Z.compare_antisym ex ey).
    destruct (ex ?= ey)%Z; cbn [CompOpp]; try reflexivity.
    unfold Z.ltb. cbn [Z.compare].
    destruct (mx ?= my)%positive; reflexivity.
  - destruct (ex ?= ey)%Z; try reflexivity.
    unfold Z.ltb. cbn [Z.compare]. destruct (mx ?= my)%positive; reflexivity.
Qed.

Lemma lex_strict_weak : StrictWeak lex_ltb.
Proof.
  split.
  - intros [[c e] m]. apply lex_ltb_false. unfold lex_lt. lia.
  - intros [[c1 e1] m1] [[c2 e2] m2] [[c3 e3] m3].
    rewrite !lex_ltb_spec. unfold lex_lt. lia.
  - intros [[c1 e1] m1] [[c2 e2] m2] [[c3 e3] m3].
    rewrite !lex_ltb_false. unfold lex_lt. lia.
Qed.

End FloatOrder.

(** numpy's order on binary64 values is a strict weak order. *)
Lemma float_less_rank (a b : float) :
  less a b = lex_ltb (float_rank (Prim2SF a)) (float_rank (Prim2SF b)).
Proof.
  rewrite <- FloatOrder.sf_less_rank. unfold less, sf_less. cbn [ltb eqb Num_float].
  now rewrite !FloatAxioms.ltb_spec, !FloatAxioms.eqb_spec.
Qed.

Lemma float_strict_weak : StrictWeak (@less float Num_float).
Proof.
  destruct FloatOrder.lex_strict_weak as [Hi Ht Hn].
  split; intros; rewrite float_less_rank in *; eauto.
Qed.

(** On numbers (neither side NaN) "not ordered before" is the usual [<=]. *)
Lemma sf_leb_rank (x y : spec_float) :
  SFeqb x x = true -> SFeqb y y = true ->
  SFleb x y = negb (lex_ltb (float_rank y) (float_rank x)).
Proof.
  unfold SFleb, SFeqb.
  destruct x as [sx|sx| |sx mx ex], y as [sy|sy| |sy my ey];
    try (destruct sx); try (destruct sy); try reflexivity; try discriminate.
  all: intros _ _; cbn [SFcompare float_rank lex_ltb Nat.compare];
    rewrite ?Pos.compare_cont_spec; cbn [Pos.switch_Eq].
  - rewrite Z.compare_opp.
    destruct (ex ?= ey)%Z; cbn [CompOpp negb]; try reflexivity.
    unfold Z.ltb. cbn [Z.compare]. rewrite (Pos.compare_antisym mx my).
    destruct (mx ?= my)%positive; reflexivity.
  - rewrite (Z.compare_antisym ex ey).
    destruct (ex ?= ey)%Z; cbn [CompOpp negb]; try reflexivity.
    unfold Z.ltb. cbn [Z.compare]. rewrite (Pos.compare_antisym mx my).
    destruct (mx ?= my)%positive; reflexivity.
Qed.

Lemma float_at_or_above (key e : float) :
  eqb key key = true -> eqb e e = true ->
  negb (less e key) = leb key e.
Proof.
  cbn [eqb leb Num_float]. rewrite !FloatAxioms.eqb_spec, FloatAxioms.leb_spec.
  intros Hk He. rewrite float_less_rank, (sf_leb_rank _ _ Hk He).
  reflexivity.
Qed.

(** ** The Monte Carlo tester *)

Section TesterTheory.
Context {T : Type} {N : Num T}.
Hypothesis SW : StrictWeak (@less T N).

(** [mc_pval] ranks every centered observed statistic in the pool. *)
Lemma mc_pval_unfold (ctrl : list (list T)) (obs : list T) :
  mc_pval ctrl obs =
  map (fun key => pval_of (count_ge key (fst (center_ctrls ctrl obs)))
                    (fst (shape ctrl) * snd (shape ctrl)))
      (snd (center_ctrls ctrl obs)).
Proof.
  unfold mc_pval, searchsorted. cbn [center_ctrls shape fst snd].
  rewrite !map_map. apply map_ext. intros key.
  now rewrite (searchsorted1_count SW).
Qed.

Lemma isuru_mc_pval_unfold (ctrl : list (list T)) (obs : list T) :
  Isuru.mc_pval ctrl obs =
  map (fun key =>
         pval_of (count_ge key (fst (Isuru.center_ctrls (map (map abs) ctrl) (map abs obs))))
                 (fst (shape ctrl) * snd (shape ctrl)))
      (snd (Isuru.center_ctrls (map (map abs) ctrl) (map abs obs))).
Proof.
  unfold Isuru.mc_pval, searchsorted. cbn [Isuru.center_ctrls shape fst snd].
  rewrite !map_map. apply map_ext. intros key.
  now rewrite (searchsorted1_count SW).
Qed.

End TesterTheory.

Lemma map2_length {A B C : Type} (f : A -> B -> C) (l : list A) (l' : list B) :
  length (map2 f l l') = Nat.min (length l) (length l').
Proof.
  revert l'. induction l as [|x l IH]; intros [|y l']; simpl; auto.
Qed.

Lemma concat_length_rows {A : Type} (m : list (list A)) (b : nat) :
  Forall (fun r => length r = b) m -> length (concat m) = length m * b.
Proof.
  induction 1 as [|r m Hr _ IH]; simpl; [reflexivity|].
  rewrite length_app, IH, Hr. reflexivity.
Qed.

Lemma pool_length {T : Type} {N : Num T} (ctrl : list (list T)) (obs : list T) :
  well_shaped ctrl ->
  length (fst (center_ctrls ctrl obs)) = fst (shape ctrl) * snd (shape ctrl).
Proof.
  intros Hw. cbn [center_ctrls fst]. rewrite length_map.
  unfold center_rows.
  rewrite (@concat_length_rows _ _ (snd (shape ctrl))).
  - now rewrite length_map.
  - unfold well_shaped in Hw. rewrite Forall_forall in *.
    intros r Hr. apply in_map_iff in Hr. destruct Hr as (r0 & <- & Hr0).
    rewrite length_map. now apply Hw.
Qed.

Lemma main_length {T : Type} {N : Num T} (ctrl : list (list T)) (obs : list T) :
  length obs = length ctrl ->
  length (snd (center_ctrls ctrl obs)) = length obs.
Proof.
  intros H. cbn [center_ctrls snd]. rewrite length_map. unfold center_main.
  rewrite map2_length. lia.
Qed.

Lemma count_ge_le {T : Type} {N : Num T} (key : T) (l : list T) :
  count_ge key l <= length l.
Proof. unfold count_ge. apply filter_length_le. Qed.

Lemma Zpos_of_nat_succ (nb : nat) :
  Z.pos (Pos.of_nat (1 + nb)) = (1 + Z.of_nat nb)%Z.
Proof.
  change (1 + nb) with (S nb).
  rewrite <- Pos.of_nat_succ, Zpos_P_of_succ_nat. lia.
Qed.

(** The quotient in [Q]. *)
Lemma pval_of_quotient (k nb : nat) :
  pval_of k nb == inject_Z (1 + Z.of_nat k) / inject_Z (1 + Z.of_nat nb).
Proof.
  unfold pval_of. rewrite Qmake_Qdiv, Zpos_of_nat_succ.
  now replace (Z.of_nat (1 + k)) with (1 + Z.of_nat k)%Z by lia.
Qed.

Lemma pval_of_pos (k nb : nat) : (0 < pval_of k nb)%Q.
Proof. unfold pval_of, Qlt. cbn [Qnum Qden]. lia. Qed.

Lemma pval_of_le_1 (k nb : nat) : k <= nb -> (pval_of k nb <= 1)%Q.
Proof.
  intros H. unfold pval_of, Qle. cbn [Qnum Qden].
  rewrite Z.mul_1_r, Z.mul_1_l, Zpos_of_nat_succ. lia.
Qed.

Lemma pval_of_full (nb : nat) : pval_of nb nb == 1.
Proof.
  unfold pval_of, Qeq. cbn [Qnum Qden].
  rewrite Z.mul_1_r, Z.mul_1_l, Zpos_of_nat_succ. lia.
Qed.

Lemma nth_map_in {A B : Type} (f : A -> B) (l : list A) (i : nat) (d : A) (d' : B) :
  i < length l -> nth i (map f l) d' = f (nth i l d).
Proof.
  intros H. rewrite (nth_indep _ d' (f d)) by (now rewrite length_map).
  apply map_nth.
Qed.

Lemma nth_map2 {A B C : Type} (f : A -> B -> C) (l : list A) (l' : list B)
  (i : nat) (da : A) (db : B) (dc : C) :
  i < length l -> i < length l' ->
  nth i (map2 f l l') dc = f (nth i l da) (nth i l' db).
Proof.
  revert l l'. induction i as [|i IH]; intros [|x l] [|y l'] H H'; simpl in *;
    try lia; [reflexivity | apply IH; lia].
Qed.

(** The pool and the centered statistic that [center_ctrls] of method.py
    returns, entry by entry. *)
Lemma centered_pool {T : Type} {N : Num T} (ctrl : list (list T)) (obs : list T) :
  fst (center_ctrls ctrl obs)
  = concat (map (fun r => map (fun x => abs (div (sub x (np_mean r)) (np_std r))) r)
                ctrl).
Proof.
  cbn [center_ctrls fst]. unfold center_rows.
  rewrite concat_map, map_map. f_equal. apply map_ext. intros r.
  now rewrite map_map.
Qed.

Lemma centered_key {T : Type} {N : Num T} (ctrl : list (list T)) (obs : list T) (i : nat) :
  length obs = length ctrl -> i < length obs ->
  nth i (snd (center_ctrls ctrl obs)) zero
  = abs (div (sub (nth i obs zero) (np_mean (nth i ctrl [])))
             (np_std (nth i ctrl []))).
Proof.
  intros Hlen Hi. cbn [center_ctrls snd]. unfold center_main.
  rewrite (nth_map_in _ _ zero zero) by (rewrite map2_length; lia).
  now rewrite (nth_map2 _ _ _ zero [] zero) by lia.
Qed.

(** The p-value of feature [i]. *)
Lemma mc_pval_nth (ctrl : list (list float)) (obs : list float) (i : nat) :
  length obs = length ctrl -> i < length obs ->
  nth_error (mc_pval ctrl obs) i =
  Some (pval_of (count_ge (nth i (snd (center_ctrls ctrl obs)) zero)
                          (fst (center_ctrls ctrl obs)))
                (fst (shape ctrl) * snd (shape ctrl))).
Proof.
  intros Hlen Hi.
  rewrite (mc_pval_unfold float_strict_weak).
  rewrite nth_error_map.
  rewrite (nth_error_nth' _ zero) by (rewrite main_length; assumption).
  reflexivity.
Qed.

(** ** C1: the p-value is the pooled rank of the observed statistic *)

(** C1.  For a null matrix [ctrl] of shape (N, B) and an observed vector of
    length N, [mc_pval] returns for feature [i] exactly
    [(1 + k) / (1 + N * B)].  The pooled centered absolute null holds, for
    every row [r] of [ctrl] and every entry [x] of [r], the value
    [|(x - mean r) / std r|]: each of the [N * B] null values is centered by
    the mean and the standard deviation of its own feature's row.  The
    centered absolute observed statistic of feature [i] is
    [|(obs_i - mean r_i) / std r_i|] for the row [r_i] of the same feature.
    [k] counts the pool entries at or above that statistic; it is what the
    binary search into the sorted pool yields, it is the count by [<=]
    whenever the values compared are numbers (which a nonzero standard
    deviation is there to ensure), and the p-value is never zero. *)
Theorem mc_pval_pooled_rank (ctrl : list (list float)) (obs : list float) (i : nat) :
  well_shaped ctrl -> length obs = length ctrl -> i < length obs ->
  let n := fst (shape ctrl) in
  let b := snd (shape ctrl) in
  let centered (r : list float) (x : float) : float :=
    abs (div (sub x (np_mean r)) (np_std r)) in
  let pool := concat (map (fun r => map (centered r) r) ctrl) in
  let key := centered (nth i ctrl []) (nth i obs zero) in
  let k := count_ge key pool in
  length pool = n * b /\
  k = length (np_sort pool) - searchsorted1 (np_sort pool) key /\
  ((forall e, In e pool -> eqb e e = true) -> eqb key key = true ->
   k = length (filter (fun e => leb key e) pool)) /\
  nth_error (mc_pval ctrl obs) i = Some (pval_of k (n * b)) /\
  pval_of k (n * b) == inject_Z (1 + Z.of_nat k) / inject_Z (1 + Z.of_nat (n * b)) /\
  ~ pval_of k (n * b) == 0.
Proof.
  intros Hw Hlen Hi n b centered pool key k.
  assert (Hpool : fst (center_ctrls ctrl obs) = pool) by apply centered_pool.
  assert (Hkey : nth i (snd (center_ctrls ctrl obs)) zero = key)
    by now apply centered_key.
  split; [rewrite <- Hpool; apply pool_length, Hw|].
  split; [symmetry; apply (searchsorted1_count float_strict_weak)|].
  split.
  { intros Hp Hk. unfold k, count_ge. f_equal.
    apply filter_ext_in. intros e He. apply float_at_or_above; auto. }
  split.
  { rewrite (@mc_pval_nth ctrl obs i Hlen Hi), Hpool, Hkey. reflexivity. }
  split; [apply pval_of_quotient|].
  intros H. pose proof (pval_of_pos k (n * b)) as Hp. rewrite H in Hp.
  discriminate Hp.
Qed.

Lemma mc_pval_pooled_rank_witness :
  let ctrl := [[0; 2]; [1; 4]; [3; 3.5]]%float in
  let obs := [1.5; 7; 3]%float in
  well_shaped ctrl /\ length obs = length ctrl /\
  0 < length obs /\ 1 < length obs /\ 2 < length obs /\
  nth_error (mc_pval ctrl obs) 0 = Some (pval_of 6 6) /\
  nth_error (mc_pval ctrl obs) 1 = Some (pval_of 0 6) /\
  nth_error (mc_pval ctrl obs) 2 = Some (pval_of 6 6).
Proof.
  intros ctrl obs.
  assert (Hw : well_shaped ctrl) by (repeat constructor).
  assert (Hl : length obs = length ctrl) by reflexivity.
  assert (H0 : 0 < length obs) by (simpl; lia).
  assert (H1 : 1 < length obs) by (simpl; lia).
  assert (H2 : 2 < length obs) by (simpl; lia).
  split; [exact Hw|]. split; [exact Hl|].
  split; [exact H0|]. split; [exact H1|]. split; [exact H2|].
  split; [exact (proj1 (proj2 (proj2 (proj2 (@mc_pval_pooled_rank ctrl obs 0 Hw Hl H0)))))|].
  split; [exact (proj1 (proj2 (proj2 (proj2 (@mc_pval_pooled_rank ctrl obs 1 Hw Hl H1)))))|].
  exact (proj1 (proj2 (proj2 (proj2 (@mc_pval_pooled_rank ctrl obs 2 Hw Hl H2))))).
Defined.

(** ** C3: bounds and the values at the ends of the pool *)

Lemma count_ge_at_max {T : Type} {N : Num T} (key : T) (l : list T) :
  (forall e, In e l -> less key e = false) -> count_ge key l = count_tie key l.
Proof.
  intros H. unfold count_ge, count_tie. f_equal.
  apply filter_ext_in. intros e He. rewrite (H e He). now rewrite andb_true_r.
Qed.

Lemma count_tie_pos {T : Type} {N : Num T} (key : T) (l : list T) :
  StrictWeak (@less T N) -> In key l -> 1 <= count_tie key l.
Proof.
  intros SW Hin. unfold count_tie.
  assert (Hk : In key (filter (fun e => negb (less e key) && negb (less key e)) l)).
  { apply filter_In. split; [assumption|]. now rewrite (sw_irrefl SW). }
  destruct (filter _ l); [destruct Hk | simpl; lia].
Qed.

Lemma count_ge_at_min {T : Type} {N : Num T} (key : T) (l : list T) :
  (forall e, In e l -> less e key = false) -> count_ge key l = length l.
Proof.
  intros H. unfold count_ge. f_equal.
  rewrite <- (filter_ext_in (fun _ => true)).
  - induction l as [|x l IH]; simpl; [reflexivity|]. f_equal. apply IH.
    intros e He. apply H. now right.
  - intros e He. now rewrite (H e He).
Qed.

Lemma count_ge_above_all {T : Type} {N : Num T} (key : T) (l : list T) :
  (forall e, In e l -> less e key = true) -> count_ge key l = 0.
Proof.
  intros H. unfold count_ge.
  induction l as [|x l IH]; simpl; [reflexivity|].
  rewrite (H x) by now left. simpl. apply IH. intros e He. apply H. now right.
Qed.

(** The claim fails on the code: with the null row [0, 2] and the observed
    value [2] the centered absolute observed statistic is [1], the maximum
    of the pool [1, 1], and the p-value is [3/3], not [1/(1 + 1*2)]. *)
Lemma mc_pval_at_maximum_counterexample :
  let ctrl := [[0; 2]]%float in
  let obs := [2]%float in
  fst (center_ctrls ctrl obs) = [1; 1]%float /\
  snd (center_ctrls ctrl obs) = [1]%float /\
  shape ctrl = (1, 2) /\
  mc_pval ctrl obs = [pval_of 2 (1 * 2)] /\
  ~ pval_of 2 (1 * 2) == 1 # 3.
Proof.
  repeat split. intros H. discriminate H.
Qed.

(** C3, amended.  Every p-value of [mc_pval] lies in (0, 1].  When no pool
    entry is above the centered absolute observed statistic of feature [i]
    (it is at the maximum of the pool), the p-value is [(1 + m)/(1 + N*B)]
    with [m] the number of pool entries equal to it, at least one when the
    statistic occurs in the pool; it is [1/(1 + N*B)] when the statistic is
    above every pool entry; and it is 1 when the statistic is at the minimum
    of the pool. *)
Theorem mc_pval_bounds (ctrl : list (list float)) (obs : list float) (i : nat) :
  well_shaped ctrl -> length obs = length ctrl -> i < length obs ->
  let nb := fst (shape ctrl) * snd (shape ctrl) in
  let pool := fst (center_ctrls ctrl obs) in
  let key := nth i (snd (center_ctrls ctrl obs)) zero in
  exists p,
    nth_error (mc_pval ctrl obs) i = Some p /\
    (0 < p)%Q /\ (p <= 1)%Q /\
    ((forall e, In e pool -> less key e = false) ->
       p = pval_of (count_tie key pool) nb /\
       (In key pool -> 1 <= count_tie key pool)) /\
    ((forall e, In e pool -> less e key = true) -> p = pval_of 0 nb) /\
    ((forall e, In e pool -> less e key = false) -> p == 1).
Proof.
  intros Hw Hlen Hi nb pool key.
  pose proof (@pool_length _ _ ctrl obs Hw) as Hpool.
  pose proof (@mc_pval_nth ctrl obs i Hlen Hi) as Hp.
  fold pool key nb in Hpool, Hp.
  exists (pval_of (count_ge key pool) nb).
  split; [exact Hp|].
  split; [apply pval_of_pos|].
  split; [apply pval_of_le_1; rewrite <- Hpool; apply count_ge_le|].
  split; [|split].
  - intros Hmax. split.
    + now rewrite (count_ge_at_max _ _ Hmax).
    + apply count_tie_pos, float_strict_weak.
  - intros Habove. now rewrite (count_ge_above_all _ _ Habove).
  - intros Hmin. rewrite (count_ge_at_min _ _ Hmin), Hpool. apply pval_of_full.
Qed.

Lemma mc_pval_bounds_witness :
  let ctrl := [[0; 2]; [1; 4]; [3; 3.5]]%float in
  let obs := [1.5; 7; 3]%float in
  well_shaped ctrl /\ length obs = length ctrl /\ 1 < length obs /\
  exists p, nth_error (mc_pval ctrl obs) 1 = Some p /\ (0 < p)%Q /\ (p <= 1)%Q.
Proof.
  intros ctrl obs.
  assert (Hw : well_shaped ctrl) by (repeat constructor).
  assert (Hl : length obs = length ctrl) by reflexivity.
  assert (Hi : 1 < length obs) by (simpl; lia).
  split; [exact Hw|]. split; [exact Hl|]. split; [exact Hi|].
  destruct (@mc_pval_bounds ctrl obs 1 Hw Hl Hi) as (p & Hp & Hpos & Hle & _).
  exists p. split; [exact Hp|]. split; [exact Hpos | exact Hle].
Defined.

(** ** C5: a null row of zero standard deviation *)

(** Division by a zero gives NaN or an infinity, whatever the numerator. *)
Lemma float_div_zero (x z : float) :
  eqb z zero = true ->
  eqb (abs (div x z)) (abs (div x z)) = false \/ abs (div x z) = infinity.
Proof.
  cbn [eqb abs div zero Num_float].
  rewrite !FloatAxioms.eqb_spec, FloatAxioms.abs_spec, FloatAxioms.div_spec.
  change (Prim2SF 0) with (S754_zero false).
  intros Hz.
  assert (Hz' : exists s, Prim2SF z = S754_zero s).
  { destruct (Prim2SF z) as [s|s| |s m e]; try discriminate Hz;
      try (destruct s; discriminate Hz). now exists s. }
  destruct Hz' as [s Hs].
  assert (H : SFabs (SF64div (Prim2SF x) (Prim2SF z)) = S754_nan \/
              SFabs (SF64div (Prim2SF x) (Prim2SF z)) = S754_infinity false).
  { rewrite Hs. destruct (Prim2SF x) as [sx|sx| |sx mx ex]; simpl; auto. }
  destruct H as [H|H].
  - left. rewrite H. reflexivity.
  - right. apply FloatAxioms.Prim2SF_inj.
    rewrite FloatAxioms.abs_spec, FloatAxioms.div_spec, H. reflexivity.
Qed.

(** The claim fails on the code: the first null row has standard deviation
    zero, its centered entries are NaN and its centered observed statistic is
    infinite, and the feature is given the p-value [3/5], the very value of
    the second, regular feature. *)
Lemma mc_pval_zero_std_counterexample :
  let ctrl := [[1; 1]; [0; 2]]%float in
  let obs := [2; 5]%float in
  np_std [1; 1]%float = 0%float /\
  fst (center_ctrls ctrl obs) = [nan; nan; 1; 1]%float /\
  snd (center_ctrls ctrl obs) = [infinity; 4]%float /\
  mc_pval ctrl obs = [pval_of 2 4; pval_of 2 4] /\
  pval_of 2 4 == 3 # 5.
Proof.
  repeat split.
Qed.

(** C5, amended.  If the null row of feature [i] has standard deviation zero,
    [mc_pval] does not raise and returns one p-value per feature; the
    centered absolute null entries of that row and its centered absolute
    observed statistic are NaN or infinite; and the p-value returned for the
    feature is an ordinary [(1 + k)/(1 + N*B)] in (0, 1] (no NaN is
    produced: the NaN entries of the pool sort last and are counted as at or
    above every statistic). *)
Theorem mc_pval_zero_std (ctrl : list (list float)) (obs : list float) (i : nat) :
  well_shaped ctrl -> length obs = length ctrl -> i < length obs ->
  eqb (np_std (nth i ctrl [])) zero = true ->
  let nb := fst (shape ctrl) * snd (shape ctrl) in
  let pool := fst (center_ctrls ctrl obs) in
  let key := nth i (snd (center_ctrls ctrl obs)) zero in
  length (mc_pval ctrl obs) = length obs /\
  (forall e, In e (nth i (center_rows ctrl) []) ->
     eqb (abs e) (abs e) = false \/ abs e = infinity) /\
  (eqb key key = false \/ key = infinity) /\
  (forall e, In e pool -> eqb e e = false -> less e key = false) /\
  exists k, k <= nb /\
    nth_error (mc_pval ctrl obs) i = Some (pval_of k nb) /\
    (0 < pval_of k nb)%Q /\ (pval_of k nb <= 1)%Q.
Proof.
  intros Hw Hlen Hi Hstd nb pool key.
  pose proof (@pool_length _ _ ctrl obs Hw) as Hpool.
  pose proof (@mc_pval_nth ctrl obs i Hlen Hi) as Hp.
  fold pool key nb in Hpool, Hp.
  split.
  { rewrite (mc_pval_unfold float_strict_weak), length_map. now apply main_length. }
  split.
  { intros e He. unfold center_rows in He.
    rewrite (nth_map_in _ _ []) in He by lia.
    apply in_map_iff in He. destruct He as (x & <- & _).
    now apply float_div_zero. }
  split.
  { unfold key. cbn [center_ctrls snd].
    rewrite (nth_map_in _ _ zero)
      by (unfold center_main; rewrite map2_length; lia).
    unfold center_main.
    rewrite (nth_map2 _ _ _ zero [] zero) by lia.
    now apply float_div_zero. }
  split.
  { intros e _ He. unfold less. rewrite He. cbn [negb andb].
    rewrite andb_false_r, orb_false_r.
    cbn [ltb eqb Num_float] in *. rewrite FloatAxioms.ltb_spec.
    rewrite FloatAxioms.eqb_spec in He. unfold SFltb.
    destruct (Prim2SF e) as [s|s| |s m ex]; try reflexivity.
    - discriminate He.
    - destruct s; discriminate He.
    - unfold SFeqb in He. cbn [SFcompare] in He.
      rewrite Z.compare_refl, Pos.compare_cont_spec, Pos.compare_refl in He.
      destruct s; discriminate He. }
  exists (count_ge key pool).
  split; [rewrite <- Hpool; apply count_ge_le|].
  split; [exact Hp|].
  split; [apply pval_of_pos | apply pval_of_le_1; rewrite <- Hpool; apply count_ge_le].
Qed.

Lemma mc_pval_zero_std_witness :
  let ctrl := [[1; 1]; [0; 2]]%float in
  let obs := [2; 5]%float in
  well_shaped ctrl /\ length obs = length ctrl /\ 0 < length obs /\
  eqb (np_std (nth 0 ctrl [])) zero = true /\
  length (mc_pval ctrl obs) = length obs.
Proof.
  intros ctrl obs.
  assert (Hw : well_shaped ctrl) by (repeat constructor).
  assert (Hl : length obs = length ctrl) by reflexivity.
  assert (Hi : 0 < length obs) by (simpl; lia).
  assert (Hs : eqb (np_std (nth 0 ctrl [])) zero = true) by reflexivity.
  split; [exact Hw|]. split; [exact Hl|]. split; [exact Hi|]. split; [exact Hs|].
  exact (proj1 (@mc_pval_zero_std ctrl obs 0 Hw Hl Hi Hs)).
Defined.

(** ** C8: the two versions of the tester *)

(** C8.  The two versions of the Monte Carlo p-value diverge: [mc_pval] of
    method.py takes the absolute values after centering by the null mean and
    standard deviation of each feature, [mc_pval] of method-Isuru.py takes
    them before centering (and none after), and on the null row [-1, 3] with
    the observed value [-3] the two return different p-values, [1/3] and
    [2/3]. *)
Theorem mc_pval_versions_diverge :
  (forall (ctrl : list (list float)) (obs : list float),
     center_ctrls ctrl obs =
     (map abs (concat (center_rows ctrl)), map abs (center_main ctrl obs)) /\
     mc_pval ctrl obs =
     map (fun key => pval_of (count_ge key (map abs (concat (center_rows ctrl))))
                       (fst (shape ctrl) * snd (shape ctrl)))
         (map abs (center_main ctrl obs))) /\
  (forall (ctrl : list (list float)) (obs : list float),
     Isuru.mc_pval ctrl obs =
     map (fun key =>
            pval_of (count_ge key (concat (center_rows (map (map abs) ctrl))))
                    (fst (shape ctrl) * snd (shape ctrl)))
         (center_main (map (map abs) ctrl) (map abs obs))) /\
  (exists (ctrl : list (list float)) (obs : list float),
     well_shaped ctrl /\ length obs = length ctrl /\
     mc_pval ctrl obs = [1 # 3] /\ Isuru.mc_pval ctrl obs = [2 # 3] /\
     mc_pval ctrl obs <> Isuru.mc_pval ctrl obs).
Proof.
  split; [|split].
  - intros ctrl obs. split; [reflexivity|].
    apply (mc_pval_unfold float_strict_weak).
  - intros ctrl obs. apply (isuru_mc_pval_unfold float_strict_weak).
  - exists [[-1; 3]]%float, [-3]%float.
    split; [repeat constructor|].
    split; [reflexivity|].
    split; [reflexivity|].
    split; [reflexivity|].
    discriminate.
Qed.

(** ** C4: the correlation of a column with itself *)

Lemma map2_diag {A C : Type} (f : A -> A -> C) (l : list A) :
  map2 f l l = map (fun x => f x x) l.
Proof. induction l as [|x l IH]; simpl; congruence. Qed.

Lemma R_ltb_false (a b : R) : (b <= a)%R -> R_ltb a b = false.
Proof. intros H. unfold R_ltb. destruct (Rlt_dec a b); [lra | reflexivity]. Qed.

Lemma R_leb_false (a b : R) : (b < a)%R -> R_leb a b = false.
Proof. intros H. unfold R_leb. destruct (Rle_dec a b); [lra | reflexivity]. Qed.

Lemma Rdiv_sqrt_sqrt (v : R) : (0 < v)%R -> (v / R_sqrt.sqrt v / R_sqrt.sqrt v = 1)%R.
Proof.
  intros Hv.
  assert (Hs : (0 < R_sqrt.sqrt v)%R) by now apply sqrt_lt_R0.
  rewrite <- (sqrt_sqrt v) at 1 by lra. field. lra.
Qed.

(** In exact arithmetic (the real-number instance, without rounding), a
    column whose variance exceeds the threshold 1e-6 has correlation 1 with
    itself.  This is the reading of the engine over the reals only: the
    binary64 behaviour is stated by the theorem and the counterexample that
    follow. *)
Lemma pearson_self_correlation_exact (x : list R) (var_filter : bool) :
  (lit_1em6 < col_var x)%R ->
  pearson_corr_sparse (Arr2 [x]) (Arr2 [x]) var_filter = Ok (Flat [1%R]) /\
  pearson_corr_sparse (Arr1 x) (Arr1 x) var_filter = Ok (Flat [1%R]).
Proof.
  intros Hv.
  assert (H : pearson_corr_sparse (Arr2 [x]) (Arr2 [x]) var_filter = Ok (Flat [1%R])).
  { unfold pearson_corr_sparse, _get_mean_var, as_columns.
    cbn [map map2 bmap2 length].
    fold (col_var x). unfold no_var_mask.
    cbn [map map2 bmap2 leb lit_1em6 lit_1em8 Num_R] in *.
    rewrite (R_leb_false Hv).
    cbn [orb negb np_any existsb andb]. rewrite andb_false_r.
    cbn [bind map map2 bmap2 length Nat.eqb orb].
    unfold clip. cbn [ltb sqrt div sub mul f32 lit_1em8 Num_R].
    rewrite R_ltb_false by lra.
    rewrite map2_diag.
    change (np_mean (map (fun v => v * v)%R x) - np_mean x * np_mean x)%R
      with (col_var x).
    rewrite Rdiv_sqrt_sqrt by lra. reflexivity. }
  split; [exact H | exact H].
Qed.




(** ** C7: the variance filter and its keep-mask *)

Section PearsonTheory.
Context {T : Type} {N : Num T}.

Lemma where_length {A : Type} (mask : list bool) (l : list A) :
  length mask = length l ->
  length (where_ mask l) = length (filter negb (map negb mask)).
Proof.
  unfold where_. rewrite length_map. revert l.
  induction mask as [|m mask IH]; intros [|x l] H; simpl in *; try discriminate;
    [reflexivity|].
  destruct m; simpl; rewrite IH by lia; reflexivity.
Qed.

Lemma select_ok {A : Type} (mask : list bool) (l : list A) :
  length mask = length l -> select mask l = Ok (where_ mask l).
Proof. intros H. unfold select. now rewrite H, Nat.eqb_refl. Qed.

Lemma bmap2_same_length {A B C : Type} (f : A -> B -> C) (l : list A) (l' : list B) :
  length l = length l' -> bmap2 f l l' = map2 f l l'.
Proof.
  destruct l as [|x [|x' l]], l' as [|y [|y' l']]; simpl; intros H;
    try discriminate H; reflexivity.
Qed.

Lemma bmap2_length_same {A B C : Type} (f : A -> B -> C) (l : list A) (l' : list B) :
  length l = length l' -> length (bmap2 f l l') = length l.
Proof.
  intros H. rewrite bmap2_same_length, map2_length by assumption. lia.
Qed.

Lemma map2_same_length {A B C : Type} (f : A -> B -> C) (l : list A) (l' : list B) :
  length l = length l' -> length (map2 f l l') = length l.
Proof. intros H. rewrite map2_length. lia. Qed.

Lemma get_mean_var_length (m : list (list T)) :
  length (fst (_get_mean_var m)) = length m /\
  length (snd (_get_mean_var m)) = length m.
Proof.
  unfold _get_mean_var. cbn [fst snd].
  rewrite map2_same_length; rewrite !length_map; auto.
Qed.

Lemma get_mean_var_nth (m : list (list T)) (i : nat) (d : T) :
  i < length m -> nth i (snd (_get_mean_var m)) d = col_var (nth i m []).
Proof.
  intros H. unfold _get_mean_var. cbn [snd].
  rewrite (nth_map2 _ _ _ d d d) by (rewrite !length_map; lia).
  rewrite (nth_map_in _ _ []) by lia.
  rewrite (nth_map_in _ _ d) by (rewrite length_map; lia).
  rewrite (nth_map_in _ _ []) by lia.
  reflexivity.
Qed.

(** With the variance filter on and some column without variance, the mask
    marks exactly the columns whose variance is at or below 1e-6 on either
    side and the correlation vector has one entry per column kept; the pair
    of vector and keep-mask is returned unless exactly one column is kept. *)
Lemma pearson_var_filter_result (X Y : list (list T)) :
  length X = length Y ->
  let no_var := no_var_mask (snd (_get_mean_var X)) (snd (_get_mean_var Y)) in
  let kept := length (filter negb no_var) in
  np_any no_var = true ->
  length no_var = length X /\
  (forall i, i < length X ->
     nth i no_var false =
     leb (col_var (nth i X [])) lit_1em6 || leb (col_var (nth i Y [])) lit_1em6) /\
  exists corr, length corr = kept /\
    pearson_corr_sparse (Arr2 X) (Arr2 Y) true =
    if kept =? 1 then Ok (Flat corr) else Ok (WithMask corr (map negb no_var)).
Proof.
  intros Hlen no_var kept Hany.
  destruct (get_mean_var_length X) as [HmX HvX].
  destruct (get_mean_var_length Y) as [HmY HvY].
  assert (Hnv : no_var =
                map2 orb (map (fun v => leb v lit_1em6) (snd (_get_mean_var X)))
                         (map (fun v => leb v lit_1em6) (snd (_get_mean_var Y)))).
  { unfold no_var, no_var_mask. apply bmap2_same_length.
    rewrite !length_map. congruence. }
  assert (Hl : length no_var = length X).
  { rewrite Hnv, map2_same_length; rewrite !length_map; congruence. }
  split; [exact Hl|].
  split.
  { intros i Hi. rewrite Hnv.
    rewrite (nth_map2 _ _ _ false false false) by (rewrite length_map; lia).
    rewrite !(nth_map_in _ _ zero) by lia.
    rewrite !get_mean_var_nth by lia. reflexivity. }
  unfold pearson_corr_sparse. cbn [as_columns].
  destruct (_get_mean_var X) as [v_X_mean v_X_var] eqn:EX.
  destruct (_get_mean_var Y) as [v_Y_mean v_Y_var] eqn:EY.
  cbn [fst snd] in *. fold no_var. rewrite Hany. cbn [andb].
  set (keep := map negb no_var).
  assert (Hk : length keep = length X) by (unfold keep; now rewrite length_map).
  rewrite (@select_ok _ keep X) by lia.
  rewrite (@select_ok _ keep Y) by lia.
  rewrite (@select_ok _ keep v_X_mean) by lia.
  rewrite (@select_ok _ keep v_X_var) by lia.
  rewrite (@select_ok _ keep v_Y_mean) by lia.
  rewrite (@select_ok _ keep v_Y_var) by lia.
  cbn [bind].
  assert (HW : forall A (l : list A), length l = length X ->
                 length (where_ keep l) = kept).
  { intros A l Hll. rewrite where_length by congruence.
    unfold keep, kept. rewrite map_map.
    rewrite (map_ext _ (fun b => b)) by (intros b; apply negb_involutive).
    now rewrite map_id. }
  set (prod := bmap2 (map2 mul) (where_ keep X) (where_ keep Y)).
  set (means := bmap2 mul (where_ keep v_X_mean) (where_ keep v_Y_mean)).
  set (v_X_sd := map (fun v => sqrt (clip lit_1em8 v)) (where_ keep v_X_var)).
  set (v_Y_sd := map (fun v => sqrt (clip lit_1em8 v)) (where_ keep v_Y_var)).
  assert (H1 : length prod = kept).
  { unfold prod. rewrite bmap2_length_same; rewrite !HW; auto; lia. }
  assert (H2 : length means = kept).
  { unfold means. rewrite bmap2_length_same; rewrite !HW; auto; lia. }
  assert (H3 : length v_X_sd = kept) by (unfold v_X_sd; rewrite length_map, HW; auto).
  assert (H4 : length v_Y_sd = kept) by (unfold v_Y_sd; rewrite length_map, HW; auto; lia).
  assert (H5 : length (bmap2 sub (map np_mean prod) means) = kept).
  { rewrite bmap2_length_same; rewrite length_map; lia. }
  assert (H6 : length (bmap2 div (bmap2 sub (map np_mean prod) means) v_X_sd) = kept).
  { rewrite bmap2_length_same; lia. }
  eexists. split; [|rewrite !HW by lia; rewrite orb_diag; reflexivity].
  rewrite length_map, bmap2_length_same; lia.
Qed.

End PearsonTheory.

(** C7.  The code fails the claim when exactly one column is kept.  Two
    columns, the second of [X] constant: the mask [no_var] is
    [false, true], the variance filter removes the second column, and the
    call with [var_filter=True] returns the flat vector of the one
    correlation left, without the keep-mask: the test for a single column
    returns before [return mat_corr, ~no_var] is reached. *)
Theorem pearson_var_filter_drops_mask :
  let X := [[1; 2; 3]; [5; 5; 5]]%float in
  let Y := [[1; 2; 4]; [1; 0; 2]]%float in
  nth 1 (snd (_get_mean_var X)) zero = 0%float /\
  no_var_mask (snd (_get_mean_var X)) (snd (_get_mean_var Y)) = [false; true] /\
  (exists c, pearson_corr_sparse (Arr2 X) (Arr2 Y) true = Ok (Flat [c])) /\
  (forall corr keep,
     pearson_corr_sparse (Arr2 X) (Arr2 Y) true <> Ok (WithMask corr keep)).
Proof.
  split; [reflexivity|]. split; [reflexivity|]. split.
  - eexists. reflexivity.
  - intros corr keep H. vm_compute in H. discriminate H.
Qed.

(** ** C10: a failed Poisson fit *)

Section PoissonTheory.
Context {T : Type} {N : Num T}.
Variable glm_fit : list T -> list T -> option T.

Lemma poiss_loop_fit_failure (x y : list (list T)) :
  length x = length y ->
  forall (j i : nat) (coeffs : list (pyval T)) (failed : list nat),
    j < length x ->
    glm_fit (nth j x []) (nth j y []) = None ->
    poiss_loop glm_fit i x y coeffs failed = Raise AttributeError.
Proof.
  revert y. induction x as [|xi x IH]; intros [|yi y] Hlen j i coeffs failed Hj Hfit;
    simpl in Hlen, Hj; try lia.
  cbn [poiss_loop]. unfold fit_poisson.
  destruct j as [|j].
  - simpl in Hfit. rewrite Hfit. reflexivity.
  - destruct (glm_fit xi yi) as [c|]; [|reflexivity].
    cbn [py_any bind]. simpl in Hfit.
    destruct (negb (negb (eqb c zero))); apply (IH y) with (j := j); auto; lia.
Qed.

Lemma poiss_loop_ok (x : list (list T)) :
  forall (y : list (list T)) (i : nat) (coeffs : list (pyval T)) (failed : list nat),
    length x = length y ->
    (forall j, j < length x -> glm_fit (nth j x []) (nth j y []) <> None) ->
    poiss_loop glm_fit i x y coeffs failed =
    Ok (coeffs ++ loop_coeffs glm_fit x y, failed ++ loop_failed glm_fit i x y).
Proof.
  induction x as [|xi x IH]; intros [|yi y] i coeffs failed Hlen Hfit;
    simpl in Hlen; try lia.
  - simpl. now rewrite !app_nil_r.
  - cbn [poiss_loop loop_coeffs loop_failed]. unfold fit_poisson.
    pose proof (Hfit 0 ltac:(simpl; lia)) as H0. simpl in H0.
    destruct (glm_fit xi yi) as [c|]; [|congruence].
    cbn [py_any bind]. rewrite negb_involutive.
    assert (Hrest : forall j, j < length x -> glm_fit (nth j x []) (nth j y []) <> None).
    { intros j Hj. apply (Hfit (S j)). simpl. lia. }
    destruct (eqb c zero).
    + rewrite IH by (auto; lia). now rewrite <- app_assoc.
    + rewrite IH by (auto; lia). now rewrite <- app_assoc.
Qed.

Lemma loop_failed_ge (x : list (list T)) :
  forall (y : list (list T)) (i j : nat), In j (loop_failed glm_fit i x y) -> i <= j.
Proof.
  induction x as [|xi x IH]; intros [|yi y] i j H; simpl in H; try contradiction.
  destruct (glm_fit xi yi) as [c|].
  - destruct (eqb c zero).
    + destruct H as [<-|H]; [lia | apply IH in H; lia].
    + apply IH in H. lia.
  - apply IH in H. lia.
Qed.

Lemma np_delete_length (x : list (list T)) :
  forall (y : list (list T)) (i : nat),
    length x = length y ->
    (forall j, j < length x -> glm_fit (nth j x []) (nth j y []) <> None) ->
    length (np_delete (seq i (length x)) (loop_failed glm_fit i x y)) =
    length (loop_coeffs glm_fit x y).
Proof.
  induction x as [|xi x IH]; intros [|yi y] i Hlen Hfit; simpl in Hlen; try lia;
    [reflexivity|].
  cbn [length seq loop_coeffs loop_failed].
  pose proof (Hfit 0 ltac:(simpl; lia)) as H0. simpl in H0.
  assert (Hrest : forall j, j < length x -> glm_fit (nth j x []) (nth j y []) <> None).
  { intros j Hj. apply (Hfit (S j)). simpl. lia. }
  destruct (glm_fit xi yi) as [c|]; [|congruence].
  unfold np_delete in *.
  destruct (eqb c zero).
  - cbn [filter existsb]. rewrite Nat.eqb_refl. cbn [orb negb].
    rewrite <- (IH y (S i)) by (auto; lia).
    f_equal. apply filter_ext_in. intros j Hj. apply in_seq in Hj.
    cbn [existsb]. replace (j =? i) with false by (symmetry; apply Nat.eqb_neq; lia).
    reflexivity.
  - cbn [filter].
    replace (existsb (Nat.eqb i) (loop_failed glm_fit (S i) x y)) with false.
    + cbn [negb length]. f_equal. apply IH; auto; lia.
    + symmetry. apply not_true_is_false. intros E.
      apply existsb_exists in E. destruct E as (j & Hj & Ej).
      apply Nat.eqb_eq in Ej. subst j. apply loop_failed_ge in Hj. lia.
Qed.

Lemma loop_counts (x : list (list T)) :
  forall (y : list (list T)) (i : nat),
    length x = length y ->
    (forall j, j < length x -> glm_fit (nth j x []) (nth j y []) <> None) ->
    length (loop_coeffs glm_fit x y) + length (loop_failed glm_fit i x y) = length x.
Proof.
  induction x as [|xi x IH]; intros [|yi y] i Hlen Hfit; simpl in Hlen; try lia;
    [reflexivity|].
  cbn [loop_coeffs loop_failed length].
  pose proof (Hfit 0 ltac:(simpl; lia)) as H0. simpl in H0.
  assert (Hrest : forall j, j < length x -> glm_fit (nth j x []) (nth j y []) <> None).
  { intros j Hj. apply (Hfit (S j)). simpl. lia. }
  destruct (glm_fit xi yi) as [c|]; [|congruence].
  destruct (eqb c zero); cbn [length]; rewrite <- (IH y (S i)) by (auto; lia); lia.
Qed.

(** When no fit raises, the features whose coefficient is zero are recorded
    as failed and dropped, and the object returned holds one coefficient per
    feature retained: as many features as the input has, less the failed
    ones. *)
Lemma get_poiss_coeff_no_failure (x y : list (list T)) :
  length x = length y ->
  (forall j, j < length x -> glm_fit (nth j x []) (nth j y []) <> None) ->
  exists r,
    get_poiss_coeff glm_fit x y = Ok r /\
    features r = np_delete (seq 0 (length x)) (loop_failed glm_fit 0 x y) /\
    length (poiss_coeff r) = length (features r) /\
    length (features r) + length (loop_failed glm_fit 0 x y) = length x.
Proof.
  intros Hlen Hfit. unfold get_poiss_coeff.
  rewrite (@poiss_loop_ok x y 0 [] [] Hlen Hfit). cbn [bind app].
  unfold set_var. rewrite (@np_delete_length x y 0 Hlen Hfit), Nat.eqb_refl.
  eexists. split; [reflexivity|]. cbn [features poiss_coeff].
  split; [reflexivity|].
  rewrite (@np_delete_length x y 0 Hlen Hfit).
  split; [|now apply loop_counts].
  clear Hlen Hfit. revert y.
  induction x as [|xi x IH]; intros [|yi y]; try reflexivity.
  cbn [loop_coeffs].
  destruct (glm_fit xi yi) as [c|]; [destruct (eqb c zero)|]; cbn [flat_map app length];
    now rewrite ?IH.
Qed.

End PoissonTheory.

(** C10.  The code fails the claim: whenever the fit of some feature fails,
    [fit_poisson] catches the exception and returns [None], and
    [get_poiss_coeff] then evaluates [coeff_.any()] on it, so the call ends
    in an [AttributeError]: the feature is neither dropped nor zero-filled
    and nothing is returned. *)
Theorem get_poiss_coeff_fit_failure (glm_fit : list float -> list float -> option float)
  (x y : list (list float)) (j : nat) :
  length x = length y -> j < length x ->
  glm_fit (nth j x []) (nth j y []) = None ->
  fit_poisson glm_fit (nth j x []) (nth j y []) true = PyNone /\
  py_any (fit_poisson glm_fit (nth j x []) (nth j y []) true) = Raise AttributeError /\
  get_poiss_coeff glm_fit x y = Raise AttributeError.
Proof.
  intros Hlen Hj Hfit. unfold fit_poisson at 1 2. rewrite Hfit.
  split; [reflexivity|]. split; [reflexivity|].
  unfold get_poiss_coeff.
  now rewrite (@poiss_loop_fit_failure _ _ glm_fit x y Hlen j 0 [] [] Hj Hfit).
Qed.

Lemma get_poiss_coeff_fit_failure_witness :
  let x := [[0; 1; 1]; [2; 2; 2]; [1; 0; 3]]%float in
  let y := [[1; 3; 2]; [1; 2; 0]; [4; 0; 1]]%float in
  length x = length y /\ 1 < length x /\
  constant_column_fails (nth 1 x []) (nth 1 y []) = None /\
  get_poiss_coeff constant_column_fails x y = Raise AttributeError.
Proof.
  intros x y.
  assert (Hl : length x = length y) by reflexivity.
  assert (Hj : 1 < length x) by (simpl; lia).
  assert (Hf : constant_column_fails (nth 1 x []) (nth 1 y []) = None) by reflexivity.
  split; [exact Hl|]. split; [exact Hj|]. split; [exact Hf|].
  exact (proj2 (proj2 (@get_poiss_coeff_fit_failure constant_column_fails x y 1 Hl Hj Hf))).
Defined.

(** ** Draws without replacement *)

Lemma remove_at_perm {A : Type} (l : list A) (j : nat) (x : A) :
  nth_error l j = Some x -> Permutation (x :: remove_at j l) l.
Proof.
  intros H. destruct (nth_error_split l j H) as (l1 & l2 & -> & Hj).
  unfold remove_at. subst j.
  rewrite firstn_app, firstn_all, Nat.sub_diag, app_nil_r.
  replace (skipn (S (length l1)) (l1 ++ x :: l2)) with l2.
  - apply Permutation_middle.
  - rewrite skipn_app, skipn_all2 by lia.
    replace (S (length l1) - length l1) with 1 by lia. reflexivity.
Qed.

Lemma randbelow_lt (n : nat) (g : rng) : 0 < n -> fst (randbelow n g) < n.
Proof.
  intros H. destruct g as [|r g]; simpl; [assumption|].
  apply Nat.mod_upper_bound. lia.
Qed.

(** [k] draws from a pool of at least [k] entries take [k] entries at
    distinct positions: with the entries left they make up the pool. *)
Lemma draw_spec {A : Type} (k : nat) :
  forall (pool : list A) (g : rng),
    k <= length pool ->
    length (fst (draw k pool g)) = k /\
    exists rest, Permutation (fst (draw k pool g) ++ rest) pool.
Proof.
  induction k as [|k IH]; intros pool g Hk.
  - simpl. split; [reflexivity|]. exists pool. apply Permutation_refl.
  - cbn [draw].
    pose proof (@randbelow_lt (length pool) g ltac:(lia)) as Hj.
    destruct (randbelow (length pool) g) as [j g1]. cbn [fst] in Hj.
    destruct (nth_error pool j) as [x|] eqn:Ex.
    + pose proof (remove_at_perm _ _ Ex) as Hp.
      assert (Hl : k <= length (remove_at j pool)).
      { apply Permutation_length in Hp. simpl in Hp. lia. }
      destruct (IH (remove_at j pool) g1 Hl) as (Hlen & rest & Hrest).
      destruct (draw k (remove_at j pool) g1) as [out g2]. cbn [fst] in *.
      split; [simpl; lia|].
      exists rest. simpl. eapply perm_trans; [apply perm_skip, Hrest | exact Hp].
    + apply nth_error_None in Ex. lia.
Qed.

Lemma draw_incl {A : Type} (k : nat) (pool : list A) (g : rng) :
  k <= length pool -> incl (fst (draw k pool g)) pool.
Proof.
  intros Hk x Hx. destruct (@draw_spec _ k pool g Hk) as (_ & rest & Hp).
  apply (Permutation_in _ Hp). apply in_or_app. now left.
Qed.

Lemma draw_NoDup {A : Type} (k : nat) (pool : list A) (g : rng) :
  k <= length pool -> NoDup pool -> NoDup (fst (draw k pool g)).
Proof.
  intros Hk Hnd. destruct (@draw_spec _ k pool g Hk) as (_ & rest & Hp).
  apply Permutation_sym in Hp.
  apply (Permutation_NoDup Hp) in Hnd. now apply NoDup_app_remove_r in Hnd.
Qed.

(** ** The sampler of method.py *)

Lemma in_bin_keys (k : Z) (l seen : list Z) :
  In k l -> ~ In k seen -> In k (bin_keys seen l).
Proof.
  revert seen. induction l as [|k' l IH]; intros seen Hin Hs; [destruct Hin|].
  cbn [bin_keys]. destruct (existsb (Z.eqb k') seen) eqn:E.
  - destruct Hin as [->|Hin]; [|now apply IH].
    exfalso. apply Hs. apply existsb_exists in E. destruct E as (z & Hz & Ez).
    apply Z.eqb_eq in Ez. now subst.
  - destruct Hin as [->|Hin]; [now left|].
    destruct (Z.eq_dec k k') as [->|Hne]; [now left|].
    right. apply IH; [assumption|]. intros [H|H]; [congruence | now apply Hs].
Qed.

Lemma lookup_map_keys {V : Type} (v : Z -> V) (k : Z) (keys : list Z) :
  In k keys -> lookup Z.eqb k (map (fun k' => (k', v k')) keys) = Some (v k).
Proof.
  induction keys as [|k' keys IH]; intros Hin; [destruct Hin|].
  cbn [map lookup]. destruct (Z.eqb k k') eqn:E.
  - apply Z.eqb_eq in E. now subst.
  - destruct Hin as [->|Hin]; [rewrite Z.eqb_refl in E; discriminate | now apply IH].
Qed.

Lemma bin_members_focal (bins : list bins_row) (row : bins_row) :
  In row bins -> In (ind row) (bin_members bins row).
Proof.
  intros H. unfold bin_members. apply in_map. apply filter_In.
  split; [assumption | apply Z.eqb_refl].
Qed.

(** The filter [row_bin[row_bin != row.name]] of [rand_peaks] removes
    nothing: the cell it compares with the row label is the list of the
    bin's indices.  The sample is drawn from the whole bin. *)
Lemma rand_peaks_population (bins : list bins_row) (row : bins_row) (b : nat) (g : rng) :
  In row bins ->
  rand_peaks row (bins_grouped bins) b g = random_sample (bin_members bins row) b g.
Proof.
  intros Hin. unfold rand_peaks, bins_grouped.
  rewrite (lookup_map_keys
             (fun k => [("ind"%string,
                         PyList (map ind (filter (fun r => Z.eqb (combined_mfa_gc r) k) bins)))])).
  - reflexivity.
  - apply in_bin_keys; [now apply in_map | intros []].
Qed.

(** [rand_peaks] raises exactly when [b] exceeds the size of the bin, the
    focal peak counted in. *)
Lemma rand_peaks_raises (bins : list bins_row) (row : bins_row) (b : nat) (g : rng) :
  In row bins ->
  (rand_peaks row (bins_grouped bins) b g = Raise ValueError <->
   length (bin_members bins row) < b).
Proof.
  intros Hin. rewrite (@rand_peaks_population bins row b g Hin).
  unfold random_sample. destruct (b <=? length (bin_members bins row)) eqn:E.
  - apply Nat.leb_le in E. split; [discriminate | lia].
  - apply Nat.leb_gt in E. split; [intros _; exact E | reflexivity].
Qed.

(** C2.  The code fails the claim: in method.py a row of the control index
    matrix can hold the index of its own feature.  Four links in two bins
    and one draw per link: with a generator whose draws all select the first
    position, rows 0 and 2 are [[0]] and [[2]]. *)
Theorem rand_peaks_draws_focal_peak :
  let bins := get_bins ["l0"; "l1"; "l2"; "l3"]%string ["p0"; "p1"; "p2"; "p3"]%string
                       [0; 0; 1; 1]%Z [0; 0; 0; 0]%Z in
  let row0 := nth 0 bins {| name := ""; gene_ids := ""; ind := 0; combined_mfa_gc := 0 |} in
  ind row0 = 0 /\
  rand_peaks row0 (bins_grouped bins) 1 [0; 0; 0; 0] = Ok ([0], [0; 0; 0]) /\
  create_ctrl_peaks bins 1 [0; 0; 0; 0] = Ok [[0]; [0]; [2]; [2]] /\
  In 0 (nth 0 [[0]; [0]; [2]; [2]] []) /\ In 2 (nth 2 [[0]; [0]; [2]; [2]] []).
Proof.
  repeat split; simpl; auto.
Qed.

(** C6.  The code fails the claim: in method.py a bin with fewer than [b]
    members other than the focal peak does not make the call raise when it
    has [b] members with the focal peak.  Two bins of two links and [b = 2]:
    every link has one other member in its bin, and the call returns both
    members of the bin, the link itself included, for each link. *)
Theorem create_ctrl_peaks_small_bin :
  let bins := get_bins ["l0"; "l1"; "l2"; "l3"]%string ["p0"; "p1"; "p2"; "p3"]%string
                       [0; 0; 1; 1]%Z [0; 0; 0; 0]%Z in
  map (bin_members bins) bins = [[0; 1]; [0; 1]; [2; 3]; [2; 3]] /\
  create_ctrl_peaks bins 2 [1; 0; 0; 0; 1; 0; 0; 0] = Ok [[1; 0]; [0; 1]; [3; 2]; [2; 3]] /\
  create_ctrl_peaks bins 3 [1; 0; 0; 0; 1; 0; 0; 0] = Raise ValueError.
Proof.
  repeat split.
Qed.

(** ** C9: links that share a peak *)

Module IsuruTheory.
Import IsuruSampler.

Lemma take_rows_spec {A : Type} (m : list A) (idx : list nat) (rows : list A) :
  take_rows m idx = Ok rows ->
  length rows = length idx /\
  forall i, i < length idx -> nth_error rows i = nth_error m (nth i idx 0).
Proof.
  revert rows. induction idx as [|c idx IH]; intros rows H; cbn [take_rows] in H.
  - injection H as <-. split; [reflexivity|]. intros i Hi. simpl in Hi. lia.
  - destruct (nth_error m c) as [r|] eqn:Ec; [|discriminate H].
    destruct (take_rows m idx) as [rest|e]; [|discriminate H].
    cbn [bind] in H. injection H as <-.
    destruct (IH rest eq_refl) as [Hl Hn].
    split; [simpl; lia|].
    intros [|i] Hi; simpl in *; [now rewrite Ec | apply Hn; lia].
Qed.

Lemma sample_rows_length (gc : bool) (bins rows : list bins_row) (b : nat) :
  forall (g : rng) (ctrl : list (list nat)),
    sample_rows gc bins rows b g = Ok ctrl -> length ctrl = length rows.
Proof.
  induction rows as [|peak rows IH]; intros g ctrl H; cbn [sample_rows] in H.
  - now injection H as <-.
  - destruct (random_choice _ b g) as [r|e]; [|discriminate H].
    cbn [bind] in H.
    destruct (sample_rows gc bins rows b (snd r)) as [rest|e] eqn:E; [|discriminate H].
    cbn [bind] in H. injection H as <-. simpl. f_equal. eapply IH, E.
Qed.

Lemma factorize_nth (values : list string) (i : nat) :
  i < length values ->
  nth i (factorize values) 0 =
  index_of (nth i values ""%string) (where_ (map negb (duplicated values)) values).
Proof.
  intros Hi. unfold factorize.
  now rewrite (nth_map_in _ _ ""%string) by assumption.
Qed.

End IsuruTheory.

(** The claim fails on method.py: links 0 and 1 share the peak [p0] and lie
    in one bin, and with draws that select positions 0 and 1 they are given
    the different rows [[0]] and [[1]]: every link has a draw of its own. *)
Lemma create_ctrl_peaks_duplicate_counterexample :
  let bins := get_bins ["l0"; "l1"; "l2"; "l3"]%string ["p0"; "p0"; "p1"; "p2"]%string
                       [0; 0; 0; 0]%Z [0; 0; 0; 0]%Z in
  map gene_ids bins = ["p0"; "p0"; "p1"; "p2"]%string /\
  create_ctrl_peaks bins 1 [0; 1; 0; 0] = Ok [[0]; [1]; [0]; [0]] /\
  nth 0 [[0]; [1]; [0]; [0]] [] <> nth 1 [[0]; [1]; [0]; [0]] [].
Proof.
  split; [reflexivity|]. split; [reflexivity|]. discriminate.
Qed.

(** C9, amended.  In [create_ctrl_peaks] of method-Isuru.py the draw is
    computed once per distinct peak (one row of [ctrl_peaks] per row of
    [bins]) and the row of every link is the row of its peak, picked by
    [pd.factorize]: two links that share the peak identifier are returned
    identical rows of control indices. *)
Theorem isuru_duplicate_peaks_share_draw
  (var : list IsuruSampler.var_row) (mfa_q gc_q : list Z) (b : nat) (gc : bool)
  (g : rng) (rows : list (list nat)) (i j : nat) (d : IsuruSampler.var_row) :
  IsuruSampler.create_ctrl_peaks var mfa_q gc_q b gc g = Ok rows ->
  i < length var -> j < length var ->
  IsuruSampler.v_peak_col (nth i var d) = IsuruSampler.v_peak_col (nth j var d) ->
  length rows = length var /\
  (exists ctrl_peaks,
     IsuruSampler.sample_rows gc (IsuruSampler.get_bins var mfa_q gc_q gc)
       (IsuruSampler.get_bins var mfa_q gc_q gc) b g = Ok ctrl_peaks /\
     length ctrl_peaks = length (IsuruSampler.get_bins var mfa_q gc_q gc) /\
     forall k, k < length var ->
       nth_error rows k =
       nth_error ctrl_peaks
         (nth k (IsuruSampler.factorize (map IsuruSampler.v_peak_col var)) 0)) /\
  nth_error rows i = nth_error rows j /\
  nth i rows [] = nth j rows [].
Proof.
  intros H Hi Hj Hpeak. unfold IsuruSampler.create_ctrl_peaks in H.
  destruct (IsuruSampler.sample_rows gc _ _ b g) as [ctrl|e] eqn:Es; [|discriminate H].
  cbn [bind] in H.
  destruct (IsuruTheory.take_rows_spec _ _ H) as [Hl Hn].
  assert (Hf : length (IsuruSampler.factorize (map IsuruSampler.v_peak_col var)) = length var).
  { unfold IsuruSampler.factorize. now rewrite !length_map. }
  rewrite Hf in Hl, Hn.
  assert (Hc : nth i (IsuruSampler.factorize (map IsuruSampler.v_peak_col var)) 0 =
               nth j (IsuruSampler.factorize (map IsuruSampler.v_peak_col var)) 0).
  { rewrite !IsuruTheory.factorize_nth by (now rewrite length_map).
    rewrite !(nth_map_in _ _ d) by assumption. now rewrite Hpeak. }
  assert (He : nth_error rows i = nth_error rows j).
  { rewrite (Hn i Hi), (Hn j Hj). now rewrite Hc. }
  split; [exact Hl|]. split.
  { exists ctrl. split; [reflexivity|]. split; [|exact Hn].
    eapply IsuruTheory.sample_rows_length, Es. }
  split; [exact He|].
  rewrite <- (nth_default_eq i), <- (nth_default_eq j). unfold nth_default.
  now rewrite He.
Qed.

Lemma isuru_duplicate_peaks_share_draw_witness :
  let var := map (fun p => {| IsuruSampler.v_peak := p; IsuruSampler.v_peak_col := p |})
                 ["a"; "b"; "a"; "c"; "d"; "b"]%string in
  let rows := [[3; 1]; [0; 4]; [3; 1]; [1; 4]; [0; 3]; [0; 4]] in
  IsuruSampler.create_ctrl_peaks var [0; 0; 0; 0]%Z [0; 0; 0; 0]%Z 2 true
    [1; 0; 3; 5; 7; 9; 0; 1; 1] = Ok rows /\
  0 < length var /\ 2 < length var /\
  nth 0 rows [] = nth 2 rows [].
Proof.
  intros var rows.
  assert (H : IsuruSampler.create_ctrl_peaks var [0; 0; 0; 0]%Z [0; 0; 0; 0]%Z 2 true
                [1; 0; 3; 5; 7; 9; 0; 1; 1] = Ok rows) by reflexivity.
  assert (Hi : 0 < length var) by (simpl; lia).
  assert (Hj : 2 < length var) by (simpl; lia).
  split; [exact H|]. split; [exact Hi|]. split; [exact Hj|].
  exact (proj2 (proj2 (proj2
    (@isuru_duplicate_peaks_share_draw var _ _ 2 true _ rows 0 2
       {| IsuruSampler.v_peak := ""; IsuruSampler.v_peak_col := "" |} H Hi Hj eq_refl)))).
Defined.

(** ** The sampler of method-Isuru.py: small bins and the rows drawn *)

Module IsuruRows.
Import IsuruSampler.

Lemma random_choice_small {A : Type} (a : list A) (b : nat) (g : rng) :
  length a < b -> random_choice a b g = Raise ValueError.
Proof.
  intros H. unfold random_choice. apply Nat.ltb_lt in H. now rewrite H.
Qed.

Lemma random_choice_raises {A : Type} (a : list A) (b : nat) (g : rng) (e : exn) :
  random_choice a b g = Raise e -> e = ValueError.
Proof.
  unfold random_choice. destruct (length a <? b); intros H; [|discriminate H].
  now injection H as <-.
Qed.

(** A bin with fewer than [b] members other than the focal peak makes the
    loop raise: no row is drawn short and none with replacement. *)
Lemma isuru_sample_rows_raises (gc : bool) (bins rows : list bins_row) (b : nat) :
  forall g : rng,
    (exists peak, In peak rows /\ length (others gc bins peak) < b) ->
    sample_rows gc bins rows b g = Raise ValueError.
Proof.
  induction rows as [|peak0 rows IH]; intros g (peak & Hin & Hlt); [destruct Hin|].
  cbn [sample_rows]. fold (others gc bins peak0).
  destruct (random_choice (others gc bins peak0) b g) as [r|e] eqn:Ec.
  - cbn [bind]. destruct Hin as [->|Hin].
    + rewrite (random_choice_small _ g Hlt) in Ec. discriminate Ec.
    + rewrite (IH (snd r)); [reflexivity | now exists peak].
  - cbn [bind]. now rewrite (random_choice_raises _ _ _ Ec).
Qed.

Lemma isuru_create_ctrl_peaks_raises (var : list var_row) (mfa_q gc_q : list Z)
  (b : nat) (gc : bool) (g : rng) :
  (exists peak, In peak (get_bins var mfa_q gc_q gc) /\
                length (others gc (get_bins var mfa_q gc_q gc) peak) < b) ->
  create_ctrl_peaks var mfa_q gc_q b gc g = Raise ValueError.
Proof.
  intros H. unfold create_ctrl_peaks.
  now rewrite (@isuru_sample_rows_raises gc _ _ b g H).
Qed.

End IsuruRows.

Module IsuruInvariant.
Import IsuruSampler IsuruRows.

(** *** Duplicates and first occurrences *)

Lemma duplicated_from_length (l seen : list string) :
  length (duplicated_from seen l) = length l.
Proof.
  revert seen. induction l as [|x l IH]; intros seen; simpl; [reflexivity|].
  now rewrite IH.
Qed.

Lemma existsb_eqb_in (x : string) (seen : list string) :
  existsb (String.eqb x) seen = true <-> In x seen.
Proof.
  rewrite existsb_exists. split.
  - intros (y & Hy & E). apply String.eqb_eq in E. now subst.
  - intros H. exists x. split; [assumption | apply String.eqb_refl].
Qed.

(** Position [i] is marked when its value is in [seen] or occurs earlier. *)
Lemma duplicated_from_nth (l : list string) :
  forall (seen : list string) (i : nat),
    i < length l ->
    (nth i (duplicated_from seen l) false = true <->
     In (nth i l ""%string) seen \/
     exists k, k < i /\ nth k l ""%string = nth i l ""%string).
Proof.
  induction l as [|x l IH]; intros seen i Hi; simpl in Hi; [lia|].
  destruct i as [|i]; cbn [duplicated_from nth].
  - rewrite existsb_eqb_in. split; [now left|].
    intros [H|(k & Hk & _)]; [assumption | lia].
  - rewrite (IH (x :: seen) i) by lia. split.
    + intros [[<-|H]|(k & Hk & E)].
      * right. exists 0. split; [lia | reflexivity].
      * now left.
      * right. exists (S k). split; [lia | exact E].
    + intros [H|(k & Hk & E)].
      * left. now right.
      * destruct k as [|k].
        -- left. left. exact E.
        -- right. exists k. split; [lia | exact E].
Qed.

Lemma duplicated_nth (l : list string) (i : nat) :
  i < length l ->
  (nth i (duplicated l) false = true <->
   exists k, k < i /\ nth k l ""%string = nth i l ""%string).
Proof.
  intros Hi. unfold duplicated. rewrite duplicated_from_nth by assumption.
  split; [intros [[]|H]; exact H | now right].
Qed.

(** Every value has a first occurrence, which is not marked. *)
Lemma first_occurrence (l : list string) (i : nat) :
  i < length l ->
  exists k, k <= i /\ nth k l ""%string = nth i l ""%string /\
            nth k (duplicated l) false = false.
Proof.
  induction i as [i IH] using lt_wf_ind. intros Hi.
  destruct (nth i (duplicated l) false) eqn:E.
  - apply duplicated_nth in E; [|assumption]. destruct E as (k & Hk & Ek).
    destruct (IH k Hk ltac:(lia)) as (k0 & Hk0 & E0 & D0).
    exists k0. split; [lia|]. split; [congruence | exact D0].
  - exists i. split; [lia|]. split; [reflexivity | exact E].
Qed.

(** Two unmarked positions of one value are the same position. *)
Lemma unmarked_unique (l : list string) (i j : nat) :
  i < length l -> j < length l ->
  nth i (duplicated l) false = false -> nth j (duplicated l) false = false ->
  nth i l ""%string = nth j l ""%string -> i = j.
Proof.
  intros Hi Hj Di Dj E.
  destruct (Nat.lt_trichotomy i j) as [H|[H|H]]; [|assumption|].
  - assert (D : nth j (duplicated l) false = true)
      by (apply duplicated_nth; [assumption | now exists i]).
    congruence.
  - assert (D : nth i (duplicated l) false = true)
      by (apply duplicated_nth; [assumption | now exists j]).
    congruence.
Qed.

(** *** Selection by a mask *)

Lemma where_cons {A : Type} (m : bool) (mask : list bool) (x : A) (l : list A) :
  where_ (m :: mask) (x :: l) = if m then x :: where_ mask l else where_ mask l.
Proof. unfold where_. simpl. now destruct m. Qed.

Lemma where_seq_in (mask : list bool) :
  forall s k,
    In k (where_ mask (seq s (length mask))) <->
    s <= k < s + length mask /\ nth (k - s) mask false = true.
Proof.
  induction mask as [|m mask IH]; intros s k; cbn [length seq].
  - unfold where_. simpl. split; [intros [] | lia].
  - rewrite where_cons.
    assert (Hrec : In k (where_ mask (seq (S s) (length mask))) <->
                   S s <= k < s + S (length mask) /\ nth (k - s) (m :: mask) false = true).
    { rewrite IH. split; intros [H1 H2]; (split; [lia|]).
      - replace (k - s) with (S (k - S s)) by lia. exact H2.
      - replace (k - s) with (S (k - S s)) in H2 by lia. exact H2. }
    destruct m.
    + cbn [In]. rewrite Hrec. split.
      * intros [<-|[H1 H2]].
        -- split; [lia|]. now rewrite Nat.sub_diag.
        -- split; [lia | exact H2].
      * intros [H1 H2]. destruct (Nat.eq_dec s k) as [->|Hne]; [now left|].
        right. split; [lia | exact H2].
    + rewrite Hrec. split.
      * intros [H1 H2]. split; [lia | exact H2].
      * intros [H1 H2]. split; [|exact H2].
        destruct (Nat.eq_dec s k) as [->|Hne]; [|lia].
        rewrite Nat.sub_diag in H2. discriminate H2.
Qed.

Lemma where_seq_NoDup (mask : list bool) (s : nat) :
  NoDup (where_ mask (seq s (length mask))).
Proof.
  revert s. induction mask as [|m mask IH]; intros s; cbn [length seq].
  - constructor.
  - rewrite where_cons. destruct m; [|apply IH].
    constructor; [|apply IH].
    intros H. apply where_seq_in in H. lia.
Qed.

Lemma where_as_map {A : Type} (d : A) (mask : list bool) :
  forall (l : list A) (s : nat),
    length mask = length l ->
    where_ mask l = map (fun k => nth (k - s) l d) (where_ mask (seq s (length mask))).
Proof.
  induction mask as [|m mask IH]; intros [|x l] s H; simpl in H; try discriminate;
    [reflexivity|].
  cbn [length seq]. rewrite !where_cons.
  assert (Hrec : where_ mask l =
                 map (fun k => nth (k - s) (x :: l) d) (where_ mask (seq (S s) (length mask)))).
  { rewrite (IH l (S s)) by lia. apply map_ext_in. intros k Hk.
    apply where_seq_in in Hk. replace (k - s) with (S (k - S s)) by lia. reflexivity. }
  destruct m; cbn [map]; [|exact Hrec].
  rewrite Nat.sub_diag. cbn [nth]. now rewrite Hrec.
Qed.

Lemma index_of_in (x : string) (l : list string) :
  In x l -> index_of x l < length l /\ nth (index_of x l) l ""%string = x.
Proof.
  induction l as [|y l IH]; intros H; [destruct H|].
  cbn [index_of]. destruct (String.eqb x y) eqn:E.
  - apply String.eqb_eq in E. subst. simpl. split; [lia | reflexivity].
  - destruct H as [->|H]; [rewrite String.eqb_refl in E; discriminate|].
    destruct (IH H) as [H1 H2]. simpl. split; [lia | exact H2].
Qed.

(** *** The table [bins] *)

Lemma map_fst_combine_le {A B : Type} (l : list A) (l' : list B) :
  length l <= length l' -> map fst (combine l l') = l.
Proof.
  revert l'. induction l as [|x l IH]; intros [|y l'] H; simpl in *; try lia;
    try reflexivity. f_equal. apply IH. lia.
Qed.

Lemma map_snd_combine_le {A B : Type} (l : list A) (l' : list B) :
  length l' <= length l -> map snd (combine l l') = l'.
Proof.
  revert l'. induction l as [|x l IH]; intros [|y l'] H; simpl in *; try lia;
    try reflexivity. f_equal. apply IH. lia.
Qed.

Section Bins.
Variable var : list var_row.
Variables mfa_q gc_q : list Z.
Variable gc : bool.
Hypothesis Hmfa : length mfa_q = n_unique var.
Hypothesis Hgc : gc = true -> length gc_q = n_unique var.

Let unique := map negb (duplicated (map v_peak var)).
Let index_z := where_ unique (seq 0 (length var)).
Let peaks := where_ unique (map v_peak_col var).
Let bins := get_bins var mfa_q gc_q gc.

Lemma unique_length : length unique = length var.
Proof.
  unfold unique, duplicated.
  now rewrite length_map, duplicated_from_length, length_map.
Qed.

Lemma peaks_length : length peaks = n_unique var.
Proof.
  unfold peaks, n_unique. fold unique.
  rewrite (@where_length _ unique (map v_peak_col var))
    by (now rewrite unique_length, length_map).
  rewrite (@where_length _ unique (seq 0 (length var)))
    by (now rewrite unique_length, length_seq).
  reflexivity.
Qed.

Lemma bins_ind : map ind bins = index_z.
Proof.
  unfold bins, get_bins. fold unique index_z peaks.
  set (gc_bin := if gc then gc_q else map (fun _ => 0%Z) mfa_q).
  assert (Hg : length gc_bin = n_unique var).
  { unfold gc_bin. destruct gc; [now apply Hgc | now rewrite length_map]. }
  rewrite map_map.
  rewrite (map_ext _ (fun a => fst (snd a)))
    by (intros [p0 [i0 [m0 q0]]]; reflexivity).
  rewrite <- (map_map snd fst).
  assert (Hz : length index_z = n_unique var) by reflexivity.
  pose proof peaks_length as Hp. fold peaks in Hp.
  rewrite map_snd_combine_le by (rewrite !length_combine; lia).
  apply map_fst_combine_le. rewrite length_combine. lia.
Qed.

Lemma bins_peak : map peak bins = peaks.
Proof.
  unfold bins, get_bins. fold unique index_z peaks.
  set (gc_bin := if gc then gc_q else map (fun _ => 0%Z) mfa_q).
  assert (Hg : length gc_bin = n_unique var).
  { unfold gc_bin. destruct gc; [now apply Hgc | now rewrite length_map]. }
  rewrite map_map.
  rewrite (map_ext _ (fun a => fst a))
    by (intros [p0 [i0 [m0 q0]]]; reflexivity).
  assert (Hz : length index_z = n_unique var) by reflexivity.
  pose proof peaks_length as Hp. fold peaks in Hp.
  apply map_fst_combine_le. rewrite !length_combine. lia.
Qed.

Lemma bins_length : length bins = n_unique var.
Proof. rewrite <- (length_map peak), bins_peak. apply peaks_length. Qed.

End Bins.

(** *** The rows drawn *)

Lemma random_choice_ok {A : Type} (a : list A) (b : nat) (g : rng) (r : list A * rng) :
  random_choice a b g = Ok r -> b <= length a /\ r = draw b a g.
Proof.
  unfold random_choice. destruct (length a <? b) eqn:E; intros H; [discriminate H|].
  apply Nat.ltb_ge in E. injection H as <-. now split.
Qed.

Lemma sample_rows_rows (gc : bool) (bins rows : list bins_row) (b : nat) (d : bins_row) :
  forall (g : rng) (ctrl : list (list nat)),
    sample_rows gc bins rows b g = Ok ctrl ->
    forall c, c < length rows ->
      length (nth c ctrl []) = b /\
      incl (nth c ctrl []) (others gc bins (nth c rows d)) /\
      (NoDup (others gc bins (nth c rows d)) -> NoDup (nth c ctrl [])).
Proof.
  induction rows as [|peak0 rows IH]; intros g ctrl H c Hc; simpl in Hc; [lia|].
  cbn [sample_rows] in H. fold (others gc bins peak0) in H.
  destruct (random_choice (others gc bins peak0) b g) as [r|e] eqn:Ec; [|discriminate H].
  cbn [bind] in H.
  destruct (sample_rows gc bins rows b (snd r)) as [rest|e] eqn:Er; [|discriminate H].
  cbn [bind] in H. injection H as <-.
  destruct (@random_choice_ok _ _ _ _ _ Ec) as [Hb ->].
  destruct c as [|c]; cbn [nth].
  - split; [apply (@draw_spec _ b _ g Hb)|].
    split; [now apply draw_incl | now apply draw_NoDup].
  - apply (IH _ _ Er). lia.
Qed.

Lemma filter_keeps_distinct_keys {X Y : Type} (key : X -> Y) (keep : X -> bool)
  (xs : list X) (Hnd : NoDup (map key xs)) :
  NoDup (map key (filter keep xs)).
Proof.
  induction xs as [|x xs IH]; simpl in *; [constructor|].
  inversion Hnd as [|y l' Hnin Hnd']; subst.
  destruct (keep x); simpl; [|now apply IH].
  constructor; [|now apply IH].
  intros Hin. apply Hnin. apply in_map_iff in Hin. destruct Hin as (z & <- & Hz).
  apply in_map. apply filter_In in Hz. tauto.
Qed.

(** The rows that [create_ctrl_peaks] of method-Isuru.py returns, when the
    column ['peak'] and the column [peak_col] of [adata.var] hold the same
    identifiers: row [i] has [b] pairwise distinct entries, none of them [i],
    each the position in [adata.var] of a peak (a row of [bins]) of the bin
    of the peak of link [i]. *)
Lemma isuru_control_rows (var : list var_row) (mfa_q gc_q : list Z) (b : nat)
  (gc : bool) (g : rng) (rows : list (list nat)) (d : var_row) :
  map v_peak var = map v_peak_col var ->
  length mfa_q = n_unique var ->
  (gc = true -> length gc_q = n_unique var) ->
  create_ctrl_peaks var mfa_q gc_q b gc g = Ok rows ->
  length rows = length var /\
  forall i, i < length var ->
    length (nth i rows []) = b /\
    NoDup (nth i rows []) /\
    ~ In i (nth i rows []) /\
    forall e, In e (nth i rows []) ->
      e < length var /\
      exists r ri,
        In r (get_bins var mfa_q gc_q gc) /\ ind r = e /\
        In ri (get_bins var mfa_q gc_q gc) /\ peak ri = v_peak_col (nth i var d) /\
        bin_of gc r = bin_of gc ri.
Proof.
  intros Hcol Hmfa Hgc H.
  set (values := map v_peak_col var).
  set (bins := get_bins var mfa_q gc_q gc) in *.
  pose proof (@bins_ind var mfa_q gc_q gc Hmfa Hgc) as Hind. fold bins in Hind.
  pose proof (@bins_peak var mfa_q gc_q gc Hmfa Hgc) as Hpk. fold bins in Hpk.
  rewrite Hcol in Hind, Hpk. fold values in Hind, Hpk.
  set (mask := map negb (duplicated values)) in *.
  assert (Hmask : length mask = length var).
  { unfold mask, values, duplicated.
    now rewrite length_map, duplicated_from_length, length_map. }
  assert (Hvl : length values = length var) by (unfold values; now rewrite length_map).
  rewrite <- Hmask in Hind.
  assert (Hpk' : map peak bins = map (fun k => nth (k - 0) values ""%string) (map ind bins)).
  { rewrite Hpk, Hind. apply where_as_map. congruence. }
  (* the positions held by [bins] *)
  assert (Hpos : forall e, In e (map ind bins) <->
                   e < length var /\ nth e (duplicated values) false = false).
  { intros e. rewrite Hind, where_seq_in, Hmask, Nat.sub_0_r. unfold mask.
    split; intros [H1 H2]; (split; [lia|]).
    - rewrite (nth_map_in _ _ false) in H2
        by (unfold duplicated; rewrite duplicated_from_length; lia).
      now apply negb_true_iff in H2.
    - rewrite (nth_map_in _ _ false)
        by (unfold duplicated; rewrite duplicated_from_length; lia).
      now apply negb_true_iff. }
  assert (Hnd : NoDup (map ind bins)) by (rewrite Hind; apply where_seq_NoDup).
  unfold create_ctrl_peaks in H. fold bins values in H.
  destruct (sample_rows gc bins bins b g) as [ctrl|e] eqn:Es; [|discriminate H].
  cbn [bind] in H.
  destruct (IsuruTheory.take_rows_spec _ _ H) as [Hl Hn].
  assert (Hf : length (factorize values) = length var).
  { unfold factorize. now rewrite length_map. }
  rewrite Hf in Hl, Hn.
  split; [exact Hl|].
  intros i Hi.
  (* the row of [bins] of the peak of link [i] *)
  set (c := nth i (factorize values) 0) in *.
  assert (Hc : c = index_of (nth i values ""%string) (map peak bins)).
  { unfold c. rewrite IsuruTheory.factorize_nth by lia. fold mask. now rewrite Hpk. }
  destruct (@first_occurrence values i ltac:(lia)) as (k0 & Hk0 & Ek0 & Dk0).
  assert (Hk0in : In k0 (map ind bins)) by (apply Hpos; split; [lia | exact Dk0]).
  assert (Hvin : In (nth i values ""%string) (map peak bins)).
  { rewrite Hpk'. rewrite <- Ek0. apply in_map_iff. exists k0.
    split; [now rewrite Nat.sub_0_r | exact Hk0in]. }
  destruct (@index_of_in _ _ Hvin) as [Hclt Hcval]. rewrite <- Hc in Hclt, Hcval.
  rewrite length_map in Hclt.
  set (db := {| peak := ""%string; ind := 0; mfa_bin := 0%Z; combined_mfa_gc := 0%Z |}).
  set (ri := nth c bins db).
  assert (Hri : In ri bins) by (apply nth_In; exact Hclt).
  assert (Hripk : peak ri = nth i values ""%string).
  { unfold ri. rewrite <- Hcval. rewrite (nth_map_in _ _ db) by exact Hclt. reflexivity. }
  assert (Hrival : nth (ind ri) values ""%string = nth i values ""%string).
  { rewrite <- Hripk. unfold ri.
    assert (E : nth c (map peak bins) ""%string =
                nth c (map (fun k => nth (k - 0) values ""%string) (map ind bins)) ""%string)
      by now rewrite <- Hpk'.
    rewrite (nth_map_in _ _ db) in E by exact Hclt.
    rewrite (nth_map_in _ _ 0) in E by (now rewrite length_map).
    rewrite (nth_map_in _ _ db) in E by exact Hclt.
    rewrite Nat.sub_0_r in E. now rewrite E. }
  assert (Hriin : In (ind ri) (map ind bins)) by now apply in_map.
  apply Hpos in Hriin. destruct Hriin as [Hrilt Hridup].
  (* the row of link [i] is the draw of that row of [bins] *)
  assert (Hrow : nth i rows [] = nth c ctrl []).
  { rewrite <- (nth_default_eq i), <- (nth_default_eq c). unfold nth_default.
    now rewrite (Hn i Hi). }
  rewrite Hrow.
  destruct (@sample_rows_rows gc bins bins b db g ctrl Es c Hclt) as (Hlen & Hincl & Hdraw).
  fold ri in Hincl, Hdraw.
  assert (Hoth : forall e, In e (others gc bins ri) ->
                   e <> ind ri /\ exists r, In r bins /\ ind r = e /\ bin_of gc r = bin_of gc ri).
  { intros e He. unfold others in He. apply filter_In in He. destruct He as [He Hne].
    apply negb_true_iff, Nat.eqb_neq in Hne. split; [exact Hne|].
    unfold bins_grouped in He. apply in_map_iff in He. destruct He as (r & <- & Hr).
    apply filter_In in Hr. destruct Hr as [Hr Hb]. apply Z.eqb_eq in Hb.
    now exists r. }
  split; [exact Hlen|].
  split.
  { apply Hdraw. unfold others, bins_grouped. apply NoDup_filter.
    now apply filter_keeps_distinct_keys. }
  split.
  { intros Hin. apply Hincl in Hin. apply Hoth in Hin. destruct Hin as (Hne & r & Hr & Er & _).
    assert (Hiin : In i (map ind bins)) by (rewrite <- Er; now apply in_map).
    apply Hpos in Hiin. destruct Hiin as [_ Hidup].
    apply Hne. symmetry.
    apply (@unmarked_unique values (ind ri) i); try lia; assumption. }
  intros e He. apply Hincl in He. apply Hoth in He.
  destruct He as (Hne & r & Hr & Er & Hbin).
  split.
  { assert (Hein : In e (map ind bins)) by (rewrite <- Er; now apply in_map).
    now apply Hpos in Hein. }
  exists r, ri. repeat split; try assumption.
  rewrite Hripk. unfold values. now rewrite (nth_map_in _ _ d) by exact Hi.
Qed.

End IsuruInvariant.

(** * Further properties: instances of the lemmas above *)

Lemma isuru_control_rows_witness :
  let var := map (fun p => {| IsuruSampler.v_peak := p; IsuruSampler.v_peak_col := p |})
                 ["a"; "b"; "a"; "c"; "d"; "b"]%string in
  let rows := [[3; 1]; [0; 4]; [3; 1]; [1; 4]; [0; 3]; [0; 4]] in
  map IsuruSampler.v_peak var = map IsuruSampler.v_peak_col var /\
  length [0; 0; 0; 0]%Z = n_unique var /\
  IsuruSampler.create_ctrl_peaks var [0; 0; 0; 0]%Z [0; 0; 0; 0]%Z 2 true
    [1; 0; 3; 5; 7; 9; 0; 1; 1] = Ok rows /\
  length rows = length var.
Proof.
  intros var rows.
  assert (Hc : map IsuruSampler.v_peak var = map IsuruSampler.v_peak_col var) by reflexivity.
  assert (Hm : length [0; 0; 0; 0]%Z = n_unique var) by reflexivity.
  assert (Hg : true = true -> length [0; 0; 0; 0]%Z = n_unique var) by (intros _; reflexivity).
  assert (H : IsuruSampler.create_ctrl_peaks var [0; 0; 0; 0]%Z [0; 0; 0; 0]%Z 2 true
                [1; 0; 3; 5; 7; 9; 0; 1; 1] = Ok rows) by reflexivity.
  split; [exact Hc|]. split; [exact Hm|]. split; [exact H|].
  exact (proj1 (@IsuruInvariant.isuru_control_rows var _ _ 2 true _ rows
                  {| IsuruSampler.v_peak := ""; IsuruSampler.v_peak_col := "" |}
                  Hc Hm Hg H)).
Defined.

Lemma isuru_create_ctrl_peaks_raises_witness :
  let var := map (fun p => {| IsuruSampler.v_peak := p; IsuruSampler.v_peak_col := p |})
                 ["a"; "b"; "a"; "c"; "d"; "b"]%string in
  let bins := IsuruSampler.get_bins var [0; 0; 0; 1]%Z [0; 0; 0; 0]%Z true in
  (exists peak, In peak bins /\ length (others true bins peak) < 2) /\
  IsuruSampler.create_ctrl_peaks var [0; 0; 0; 1]%Z [0; 0; 0; 0]%Z 2 true [1; 0; 3; 5]
  = Raise ValueError.
Proof.
  intros var bins.
  assert (H : exists peak, In peak bins /\ length (others true bins peak) < 2).
  { exists {| IsuruSampler.peak := "d"; IsuruSampler.ind := 4;
              IsuruSampler.mfa_bin := 1; IsuruSampler.combined_mfa_gc := 10 |}.
    split; [simpl; tauto | simpl; lia]. }
  split; [exact H|].
  exact (@IsuruRows.isuru_create_ctrl_peaks_raises var _ _ 2 true [1; 0; 3; 5] H).
Defined.

Lemma rand_peaks_raises_witness :
  let bins := get_bins ["l0"; "l1"; "l2"; "l3"]%string ["p0"; "p1"; "p2"; "p3"]%string
                       [0; 0; 1; 1]%Z [0; 0; 0; 0]%Z in
  let row := {| name := "l0"; gene_ids := "p0"; ind := 0; combined_mfa_gc := 0 |} in
  In row bins /\
  (rand_peaks row (bins_grouped bins) 3 [5; 1; 2] = Raise ValueError <->
   length (bin_members bins row) < 3).
Proof.
  intros bins row.
  assert (H : In row bins) by (simpl; tauto).
  split; [exact H|].
  exact (@rand_peaks_raises bins row 3 [5; 1; 2] H).
Defined.

Lemma get_poiss_coeff_no_failure_witness :
  let fit := fun x y : list float =>
               Some (PrimFloat.sub (nth 0 x 0%float) (nth 0 y 0%float)) in
  let x := [[1; 2]; [3; 1]; [2; 2]]%float in
  let y := [[0; 1]; [3; 0]; [5; 2]]%float in
  length x = length y /\
  (forall j, j < length x -> fit (nth j x []) (nth j y []) <> None) /\
  exists r, get_poiss_coeff fit x y = Ok r /\ features r = [0; 2] /\
            length (poiss_coeff r) = length (features r).
Proof.
  intros fit x y.
  assert (Hl : length x = length y) by reflexivity.
  assert (Hf : forall j, j < length x -> fit (nth j x []) (nth j y []) <> None)
    by (intros j _; discriminate).
  split; [exact Hl|]. split; [exact Hf|].
  destruct (@get_poiss_coeff_no_failure float _ fit x y Hl Hf) as (r & Hr & Hfe & Hlen & _).
  exists r. split; [exact Hr|]. split; [rewrite Hfe; reflexivity | exact Hlen].
Defined.

Lemma pearson_var_filter_result_witness :
  let X := [[1; 2; 3]; [5; 5; 5]; [1; 0; 0]]%float in
  let Y := [[1; 2; 4]; [1; 0; 2]; [1; 0; 0]]%float in
  length X = length Y /\
  np_any (no_var_mask (snd (_get_mean_var X)) (snd (_get_mean_var Y))) = true /\
  exists corr, length corr = 2 /\
    pearson_corr_sparse (Arr2 X) (Arr2 Y) true = Ok (WithMask corr [true; false; true]).
Proof.
  intros X Y.
  assert (Hl : length X = length Y) by reflexivity.
  assert (Ha : np_any (no_var_mask (snd (_get_mean_var X)) (snd (_get_mean_var Y))) = true)
    by reflexivity.
  split; [exact Hl|]. split; [exact Ha|].
  destruct (@pearson_var_filter_result float _ X Y Hl Ha) as (_ & _ & corr & Hc & Hr).
  exists corr. split; [exact Hc | exact Hr].
Defined.

(** * Further properties: the Monte Carlo testers *)

Lemma filter_length_mono {A : Type} (p q : A -> bool) (l : list A) :
  (forall x, In x l -> p x = true -> q x = true) ->
  length (filter p l) <= length (filter q l).
Proof.
  induction l as [|x l IH]; intros H; simpl; [lia|].
  assert (IH' : length (filter p l) <= length (filter q l))
    by (apply IH; intros y Hy; apply H; now right).
  destruct (p x) eqn:Ep.
  - rewrite (H x (or_introl eq_refl) Ep). simpl. lia.
  - destruct (q x); simpl; lia.
Qed.

Lemma pval_of_mono (k k' nb : nat) : k <= k' -> (pval_of k nb <= pval_of k' nb)%Q.
Proof.
  intros H. unfold pval_of, Qle. cbn [Qnum Qden].
  apply Z.mul_le_mono_nonneg_r; lia.
Qed.

(** [mc_pval] is monotone: a feature whose centered absolute statistic is
    not below that of another feature gets a p-value that is not above the
    other's. *)
Theorem mc_pval_monotone (ctrl : list (list float)) (obs : list float) (i j : nat) :
  length obs = length ctrl -> i < length obs -> j < length obs ->
  less (nth j (snd (center_ctrls ctrl obs)) zero)
       (nth i (snd (center_ctrls ctrl obs)) zero) = false ->
  exists pi pj,
    nth_error (mc_pval ctrl obs) i = Some pi /\
    nth_error (mc_pval ctrl obs) j = Some pj /\
    (pj <= pi)%Q.
Proof.
  intros Hlen Hi Hj Hle.
  rewrite (@mc_pval_nth ctrl obs i Hlen Hi), (@mc_pval_nth ctrl obs j Hlen Hj).
  eexists. eexists. split; [reflexivity|]. split; [reflexivity|].
  apply pval_of_mono. unfold count_ge. apply filter_length_mono.
  intros e _ He. apply negb_true_iff in He. apply negb_true_iff.
  exact (sw_ntrans float_strict_weak _ _ _ He Hle).
Qed.

Lemma mc_pval_monotone_witness :
  let ctrl := [[0; 2]; [1; 4]; [3; 3.5]]%float in
  let obs := [1.5; 7; 3]%float in
  length obs = length ctrl /\ 0 < length obs /\ 1 < length obs /\
  less (nth 1 (snd (center_ctrls ctrl obs)) zero)
       (nth 0 (snd (center_ctrls ctrl obs)) zero) = false /\
  exists pi pj,
    nth_error (mc_pval ctrl obs) 0 = Some pi /\
    nth_error (mc_pval ctrl obs) 1 = Some pj /\
    (pj <= pi)%Q.
Proof.
  intros ctrl obs.
  assert (Hl : length obs = length ctrl) by reflexivity.
  assert (Hi : 0 < length obs) by (simpl; lia).
  assert (Hj : 1 < length obs) by (simpl; lia).
  assert (Hk : less (nth 1 (snd (center_ctrls ctrl obs)) zero)
                    (nth 0 (snd (center_ctrls ctrl obs)) zero) = false) by reflexivity.
  split; [exact Hl|]. split; [exact Hi|]. split; [exact Hj|]. split; [exact Hk|].
  exact (@mc_pval_monotone ctrl obs 0 1 Hl Hi Hj Hk).
Defined.

(** NaN on binary64 values. *)
Lemma float_nan_spec (x : float) : eqb x x = false -> Prim2SF x = S754_nan.
Proof.
  cbn [eqb Num_float]. rewrite FloatAxioms.eqb_spec. unfold SFeqb.
  destruct (Prim2SF x) as [s|s| |s m e]; cbn [SFcompare]; try reflexivity.
  - discriminate.
  - destruct s; discriminate.
  - rewrite Z.compare_refl, Pos.compare_cont_spec, Pos.compare_refl.
    destruct s; discriminate.
Qed.

Lemma float_nan_eqb (x : float) : Prim2SF x = S754_nan -> eqb x x = false.
Proof.
  intros H. cbn [eqb Num_float]. now rewrite FloatAxioms.eqb_spec, H.
Qed.

Lemma float_centered_nan (x m s : float) :
  eqb x x = false -> eqb (abs (div (sub x m) s)) (abs (div (sub x m) s)) = false.
Proof.
  intros H. apply float_nan_spec in H. apply float_nan_eqb.
  cbn [abs div sub Num_float].
  rewrite FloatAxioms.abs_spec, FloatAxioms.div_spec, FloatAxioms.sub_spec, H.
  reflexivity.
Qed.

Lemma float_less_nan (e key : float) :
  eqb key key = false -> less e key = eqb e e.
Proof.
  intros H. unfold less. rewrite H. cbn [negb andb].
  replace (ltb e key) with false; [reflexivity|].
  apply float_nan_spec in H. cbn [ltb Num_float].
  rewrite FloatAxioms.ltb_spec, H. unfold SFltb.
  now destruct (Prim2SF e).
Qed.

(** A NaN observed statistic is ranked above every number of the pool: its
    p-value is [(1 + m)/(1 + N*B)] with [m] the number of NaN entries of the
    pool, the smallest p-value there is, [1/(1 + N*B)], when the pool holds
    no NaN. *)
Theorem mc_pval_nan_observed (ctrl : list (list float)) (obs : list float) (i : nat) :
  length obs = length ctrl -> i < length obs ->
  eqb (nth i obs zero) (nth i obs zero) = false ->
  let nb := fst (shape ctrl) * snd (shape ctrl) in
  let pool := fst (center_ctrls ctrl obs) in
  nth_error (mc_pval ctrl obs) i =
    Some (pval_of (length (filter (fun e => negb (eqb e e)) pool)) nb) /\
  ((forall e, In e pool -> eqb e e = true) ->
   nth_error (mc_pval ctrl obs) i = Some (pval_of 0 nb)).
Proof.
  intros Hlen Hi Hnan nb pool.
  assert (Hkey : eqb (nth i (snd (center_ctrls ctrl obs)) zero)
                     (nth i (snd (center_ctrls ctrl obs)) zero) = false).
  { cbn [center_ctrls snd].
    rewrite (nth_map_in _ _ zero)
      by (unfold center_main; rewrite map2_length; lia).
    unfold center_main. rewrite (nth_map2 _ _ _ zero [] zero) by lia.
    now apply float_centered_nan. }
  assert (Hcount : count_ge (nth i (snd (center_ctrls ctrl obs)) zero) pool =
                   length (filter (fun e => negb (eqb e e)) pool)).
  { unfold count_ge. f_equal. apply filter_ext. intros e.
    now rewrite (float_less_nan e Hkey). }
  rewrite (@mc_pval_nth ctrl obs i Hlen Hi). fold pool nb. rewrite Hcount.
  split; [reflexivity|].
  intros Hall. do 2 f_equal.
  rewrite <- (filter_ext_in (fun _ => false)).
  - clear. induction pool as [|x l IH]; simpl; auto.
  - intros e He. now rewrite (Hall e He).
Qed.

Lemma mc_pval_nan_observed_witness :
  let ctrl := [[0; 2]; [1; 4]]%float in
  let obs := [nan; 3]%float in
  length obs = length ctrl /\ 0 < length obs /\
  eqb (nth 0 obs zero) (nth 0 obs zero) = false /\
  nth_error (mc_pval ctrl obs) 0 = Some (pval_of 0 4).
Proof.
  intros ctrl obs.
  assert (Hl : length obs = length ctrl) by reflexivity.
  assert (Hi : 0 < length obs) by (simpl; lia).
  assert (Hn : eqb (nth 0 obs zero) (nth 0 obs zero) = false) by reflexivity.
  split; [exact Hl|]. split; [exact Hi|]. split; [exact Hn|].
  exact (proj1 (@mc_pval_nan_observed ctrl obs 0 Hl Hi Hn)).
Defined.

(** [mc_pval] of method-Isuru.py takes the absolute values first and centers
    them afterwards.  For every row [r] of the null matrix and every entry
    [x] of [r] the pool holds [(|x| - mean |r|) / std |r|], the mean and the
    standard deviation being those of the absolute values of the same row;
    the statistic of feature [i] is [(|obs_i| - mean |r_i|) / std |r_i|].
    Both are signed.  The p-value is [(1 + k)/(1 + N*B)] for the number [k]
    of the [N * B] pool entries at or above the statistic, and lies in
    (0, 1]. *)
Theorem isuru_mc_pval_pooled_rank (ctrl : list (list float)) (obs : list float) (i : nat) :
  well_shaped ctrl -> length obs = length ctrl -> i < length obs ->
  let nb := fst (shape ctrl) * snd (shape ctrl) in
  let centered (r : list float) (x : float) : float :=
    div (sub (abs x) (np_mean (map abs r))) (np_std (map abs r)) in
  let pool := concat (map (fun r => map (centered r) r) ctrl) in
  let key := centered (nth i ctrl []) (nth i obs zero) in
  let k := count_ge key pool in
  length pool = nb /\
  nth_error (Isuru.mc_pval ctrl obs) i = Some (pval_of k nb) /\
  ((forall e, In e pool -> eqb e e = true) -> eqb key key = true ->
   k = length (filter (fun e => leb key e) pool)) /\
  (0 < pval_of k nb)%Q /\ (pval_of k nb <= 1)%Q.
Proof.
  intros Hw Hlen Hi nb centered pool key k.
  assert (Epool : concat (center_rows (map (map abs) ctrl)) = pool).
  { unfold pool, center_rows. rewrite map_map. f_equal. apply map_ext. intros r.
    now rewrite map_map. }
  assert (Ekey : nth i (center_main (map (map abs) ctrl) (map abs obs)) zero = key).
  { unfold center_main, key, centered.
    rewrite (nth_map2 _ _ _ zero [] zero) by (rewrite length_map; lia).
    rewrite (nth_map_in _ _ zero zero) by lia.
    rewrite (nth_map_in _ _ [] []) by lia. reflexivity. }
  assert (Hpool : length pool = nb).
  { rewrite <- Epool. unfold center_rows, nb. rewrite map_map.
    rewrite (@concat_length_rows _ _ (snd (shape ctrl))).
    - now rewrite length_map.
    - unfold well_shaped in Hw. rewrite Forall_forall in *.
      intros r Hr. apply in_map_iff in Hr. destruct Hr as (r0 & <- & Hr0).
      rewrite !length_map. now apply Hw. }
  split; [exact Hpool|].
  split.
  { rewrite (isuru_mc_pval_unfold float_strict_weak). cbn [Isuru.center_ctrls fst snd].
    rewrite nth_error_map.
    rewrite (nth_error_nth' _ zero)
      by (unfold center_main; rewrite map2_length, !length_map; lia).
    rewrite Epool, Ekey. reflexivity. }
  split.
  { intros Hp Hk. unfold k, count_ge. f_equal.
    apply filter_ext_in. intros e He. apply float_at_or_above; auto. }
  split; [apply pval_of_pos|].
  apply pval_of_le_1. rewrite <- Hpool. apply count_ge_le.
Qed.

Lemma isuru_mc_pval_pooled_rank_witness :
  let ctrl := [[-1; 3]; [2; -4]]%float in
  let obs := [-3; 1]%float in
  well_shaped ctrl /\ length obs = length ctrl /\
  0 < length obs /\ 1 < length obs /\
  nth_error (Isuru.mc_pval ctrl obs) 0 = Some (pval_of 2 4) /\
  nth_error (Isuru.mc_pval ctrl obs) 1 = Some (pval_of 4 4).
Proof.
  intros ctrl obs.
  assert (Hw : well_shaped ctrl) by (repeat constructor).
  assert (Hl : length obs = length ctrl) by reflexivity.
  assert (H0 : 0 < length obs) by (simpl; lia).
  assert (H1 : 1 < length obs) by (simpl; lia).
  split; [exact Hw|]. split; [exact Hl|]. split; [exact H0|]. split; [exact H1|].
  split; [exact (proj1 (proj2 (@isuru_mc_pval_pooled_rank ctrl obs 0 Hw Hl H0)))|].
  exact (proj1 (proj2 (@isuru_mc_pval_pooled_rank ctrl obs 1 Hw Hl H1))).
Defined.

(** [initial_mcpval] compares a feature with its own [B] controls only: its
    p-value is [(1 + k)/(1 + B)] for the number [k] of controls of the
    feature whose absolute value is at least that of the observed
    statistic, so it lies between [1/(1 + B)] and 1; a NaN observed statistic
    is given [1/(1 + B)]. *)
Theorem initial_mcpval_own_controls (ctrl : list (list float)) (obs : list float) (i : nat) :
  well_shaped ctrl -> length obs = length ctrl -> i < length obs ->
  let b := snd (shape ctrl) in
  let c := nth i obs zero in
  let k := length (filter (fun e => leb (abs c) (abs e)) (nth i ctrl [])) in
  nth_error (initial_mcpval ctrl obs) i = Some (pval_of k b) /\
  k <= b /\
  (pval_of 0 b <= pval_of k b)%Q /\ (pval_of k b <= 1)%Q /\
  (eqb c c = false -> k = 0).
Proof.
  intros Hw Hlen Hi b c k.
  assert (Hk : k <= b).
  { unfold k, b. unfold well_shaped in Hw. rewrite Forall_forall in Hw.
    rewrite <- (Hw (nth i ctrl [])) by (apply nth_In; lia).
    apply filter_length_le. }
  split.
  { unfold initial_mcpval. rewrite nth_error_map.
    rewrite (nth_error_nth' _ 0) by (rewrite map2_length; lia).
    rewrite (nth_map2 _ _ _ [] zero 0) by lia. reflexivity. }
  split; [exact Hk|].
  split; [apply pval_of_mono; lia|].
  split; [now apply pval_of_le_1|].
  intros Hnan. unfold k.
  rewrite <- (filter_ext (fun _ => false)).
  - generalize (nth i ctrl []). intros l. induction l; simpl; auto.
  - intros e. symmetry. apply float_nan_spec in Hnan.
    cbn [leb abs Num_float]. rewrite FloatAxioms.leb_spec, FloatAxioms.abs_spec, Hnan.
    reflexivity.
Qed.

Lemma initial_mcpval_own_controls_witness :
  let ctrl := [[0.5; -2; 1]; [3; 0.25; -1]]%float in
  let obs := [-1; 4]%float in
  well_shaped ctrl /\ length obs = length ctrl /\ 0 < length obs /\
  nth_error (initial_mcpval ctrl obs) 0 = Some (pval_of 2 3).
Proof.
  intros ctrl obs.
  assert (Hw : well_shaped ctrl) by (repeat constructor).
  assert (Hl : length obs = length ctrl) by reflexivity.
  assert (Hi : 0 < length obs) by (simpl; lia).
  split; [exact Hw|]. split; [exact Hl|]. split; [exact Hi|].
  exact (proj1 (@initial_mcpval_own_controls ctrl obs 0 Hw Hl Hi)).
Defined.

(** ** Further properties: [chunk_lists] *)

Lemma firstn_add_skipn {A : Type} (a b : nat) (l : list A) :
  firstn (a + b) l = firstn a l ++ firstn b (skipn a l).
Proof.
  revert l. induction a as [|a IH]; intros l; [reflexivity|].
  destruct l as [|x l]; simpl.
  - now rewrite firstn_nil.
  - now rewrite IH.
Qed.

Lemma chunk_while_spec {A : Type} (ng gs : nat) (lst : list A) :
  forall fuel g acc, g + fuel = ng + 2 ->
  chunk_while fuel g ng gs lst acc
  = acc ++ map (fun g' => (g', chunk_of ng gs lst g')) (seq g fuel).
Proof.
  induction fuel as [|fuel IH]; intros g acc Hg; simpl.
  - now rewrite app_nil_r.
  - destruct (Nat.leb_spec g (ng + 1)) as [_|Hgt]; [|lia].
    rewrite IH by lia. rewrite <- app_assoc. simpl.
    replace (g + 1) with (S g) by lia. reflexivity.
Qed.

Lemma py_slices_concat {A : Type} (gs : nat) (lst : list A) (k : nat) :
  concat (map (fun g => py_slice (gs * (g - 1)) (gs * g) lst) (seq 1 k))
  = firstn (gs * k) lst.
Proof.
  induction k as [|k IH].
  - now rewrite Nat.mul_0_r.
  - rewrite seq_S, map_app, concat_app, IH. simpl.
    rewrite app_nil_r. unfold py_slice.
    replace (k - 0) with k by lia.
    replace (gs * S k - gs * k) with gs by lia.
    replace (gs * S k) with (gs * k + gs) by lia.
    symmetry. apply firstn_add_skipn.
Qed.

(** [chunk_lists] cuts the list into [num_groups + 1] consecutive pieces:
    the keys are [1 .. num_groups + 1] in order, the pieces put back together
    in key order give the list, each of the first [num_groups] pieces has
    [len(lst) // num_groups] elements and the last one the remaining
    [len(lst) % num_groups] elements (none when the length is a multiple of
    [num_groups]). *)
Theorem chunk_lists_partition {A : Type} (lst : list A) (num_groups : nat) :
  0 < num_groups ->
  exists chunks,
    chunk_lists lst num_groups = Some chunks /\
    map fst chunks = seq 1 (num_groups + 1) /\
    concat (map snd chunks) = lst /\
    (forall g, 1 <= g <= num_groups ->
       length (nth (g - 1) (map snd chunks) []) = length lst / num_groups) /\
    length (nth num_groups (map snd chunks) []) = length lst mod num_groups.
Proof.
  intros Hng. unfold chunk_lists.
  destruct (Nat.eqb_spec num_groups 0) as [->|_]; [lia|].
  set (gs := length lst / num_groups).
  assert (Hgs : gs * num_groups <= length lst).
  { unfold gs. rewrite Nat.mul_comm. apply Nat.Div0.mul_div_le. }
  eexists. split; [reflexivity|].
  rewrite chunk_while_spec by lia. simpl app.
  split; [|split; [|split]].
  - rewrite map_map. simpl. now rewrite map_id.
  - rewrite map_map. simpl.
    replace (num_groups + 1) with (S num_groups) by lia.
    rewrite seq_S, map_app, concat_app. simpl. rewrite app_nil_r.
    rewrite (map_ext_in _ (fun g => py_slice (gs * (g - 1)) (gs * g) lst)).
    + rewrite py_slices_concat. unfold chunk_of.
      destruct (Nat.ltb_spec (S num_groups) (num_groups + 1)) as [Hlt|_]; [lia|].
      replace (S num_groups - 1) with num_groups by lia.
      apply firstn_skipn.
    + intros g Hin. apply in_seq in Hin. unfold chunk_of.
      destruct (Nat.ltb_spec g (num_groups + 1)) as [_|Hge]; [reflexivity|lia].
  - intros g Hg. rewrite map_map. simpl.
    rewrite (nth_map_in (fun g' => chunk_of num_groups gs lst g') _ 0 [])
      by (rewrite length_seq; lia).
    rewrite seq_nth by lia. unfold chunk_of.
    destruct (Nat.ltb_spec (1 + (g - 1)) (num_groups + 1)) as [_|Hge]; [|lia].
    unfold py_slice. rewrite length_firstn, length_skipn.
    assert (gs * (1 + (g - 1)) <= gs * num_groups) by (apply Nat.mul_le_mono_l; lia).
    replace (1 + (g - 1) - 1) with (g - 1) in * by lia.
    assert (Hstep : gs * (1 + (g - 1)) = gs * (g - 1) + gs) by lia.
    lia.
  - rewrite map_map. simpl.
    rewrite (nth_map_in (fun g' => chunk_of num_groups gs lst g') _ 0 [])
      by (rewrite length_seq; lia).
    rewrite seq_nth by lia. unfold chunk_of.
    destruct (Nat.ltb_spec (1 + num_groups) (num_groups + 1)) as [Hlt|_]; [lia|].
    rewrite length_skipn.
    replace (1 + num_groups - 1) with num_groups by lia.
    rewrite (Nat.div_mod_eq (length lst) num_groups) at 1.
    fold gs. lia.
Qed.

Lemma chunk_lists_partition_witness :
  let lst := [10; 11; 12; 13; 14; 15; 16; 17] in
  0 < 3 /\
  exists chunks,
    chunk_lists lst 3 = Some chunks /\
    map fst chunks = [1; 2; 3; 4] /\
    concat (map snd chunks) = lst /\
    length (nth 3 (map snd chunks) []) = 2.
Proof.
  intros lst.
  assert (H : 0 < 3) by lia.
  split; [exact H|].
  destruct (@chunk_lists_partition nat lst 3 H)
    as [chunks [Hc [Hk [Hcat [_ Hlast]]]]].
  exists chunks. split; [exact Hc|]. split; [exact Hk|]. split; [exact Hcat|].
  exact Hlast.
Defined.

(** ** Further properties: [create_ctrl_peaks] of method.py *)

Lemma Forall2_at {X Y : Type} (P : X -> Y -> Prop) (l : list X) (l' : list Y) :
  Forall2 P l l' ->
  forall i x y, nth_error l i = Some x -> nth_error l' i = Some y -> P x y.
Proof.
  induction 1 as [|x0 y0 l l' Hxy HF IH]; intros i x y Hi Er.
  - destruct i; discriminate.
  - destruct i as [|i]; simpl in Hi, Er.
    + injection Hi as <-. injection Er as <-. exact Hxy.
    + now apply (IH i).
Qed.

Lemma apply_rand_peaks_rows (bins : list bins_row) (b : nat) :
  (forall row, In row bins -> b <= length (bin_members bins row)) ->
  forall (rows : list bins_row) (g : rng),
    incl rows bins ->
    exists m,
      apply_rand_peaks rows (bins_grouped bins) b g = Ok m /\
      Forall2 (fun row r => length r = b /\
                            exists rest, Permutation (r ++ rest) (bin_members bins row))
              rows m.
Proof.
  intros Hall. induction rows as [|row rows IH]; intros g Hincl.
  - exists []. split; [reflexivity | constructor].
  - assert (Hin : In row bins) by (apply Hincl; now left).
    cbn [apply_rand_peaks].
    rewrite (@rand_peaks_population bins row b g Hin).
    unfold random_sample.
    pose proof (Hall row Hin) as Hb.
    destruct (Nat.leb_spec b (length (bin_members bins row))) as [_|Hlt]; [|lia].
    cbn [bind].
    destruct (IH (snd (draw b (bin_members bins row) g))) as (m & Hm & HF).
    { intros x Hx. apply Hincl. now right. }
    rewrite Hm. cbn [bind].
    exists (fst (draw b (bin_members bins row) g) :: m).
    split; [reflexivity|]. constructor; [|exact HF].
    exact (@draw_spec _ b (bin_members bins row) g Hb).
Qed.

Lemma apply_rand_peaks_short (bins : list bins_row) (b : nat) :
  forall (rows : list bins_row) (g : rng),
    incl rows bins ->
    (exists row, In row rows /\ length (bin_members bins row) < b) ->
    apply_rand_peaks rows (bins_grouped bins) b g = Raise ValueError.
Proof.
  induction rows as [|row rows IH]; intros g Hincl (r & Hr & Hshort).
  - destruct Hr.
  - assert (Hin : In row bins) by (apply Hincl; now left).
    cbn [apply_rand_peaks].
    rewrite (@rand_peaks_population bins row b g Hin).
    unfold random_sample.
    destruct (Nat.leb_spec b (length (bin_members bins row))) as [Hle|Hlt].
    + cbn [bind]. rewrite IH; [reflexivity | |].
      * intros x Hx. apply Hincl. now right.
      * destruct Hr as [->|Hr]; [lia|]. exists r. now split.
    + reflexivity.
Qed.

(** [create_ctrl_peaks] of method.py returns exactly when every bin holds at
    least [b] links, the link of the row counted in; with a smaller bin it
    raises [ValueError] whatever the generator draws.  When it returns, the
    matrix has one row per link, and with the positions [ind] pairwise
    distinct (as [get_bins] numbers them) row [i] holds [b] pairwise distinct
    positions, all of links of the bin of link [i]. *)
Theorem create_ctrl_peaks_rows (bins : list bins_row) (b : nat) (g : rng) :
  NoDup (map ind bins) ->
  ((forall row, In row bins -> b <= length (bin_members bins row)) ->
   exists m,
     create_ctrl_peaks bins b g = Ok m /\
     length m = length bins /\
     forall i row, nth_error bins i = Some row ->
       exists r, nth_error m i = Some r /\
                 length r = b /\ NoDup r /\
                 forall j, In j r ->
                   exists row', In row' bins /\ ind row' = j /\
                                combined_mfa_gc row' = combined_mfa_gc row) /\
  ((exists row, In row bins /\ length (bin_members bins row) < b) ->
   create_ctrl_peaks bins b g = Raise ValueError).
Proof.
  intros Hnd. split.
  - intros Hall.
    destruct (@apply_rand_peaks_rows bins b Hall bins g (incl_refl bins)) as (m & Hm & HF).
    exists m. split; [exact Hm|].
    split; [symmetry; exact (Forall2_length HF)|].
    intros i row Hi.
    assert (Hlen : i < length m).
    { rewrite <- (Forall2_length HF). apply nth_error_Some. congruence. }
    destruct (nth_error m i) as [r|] eqn:Er; [|apply nth_error_None in Er; lia].
    exists r. split; [reflexivity|].
    assert (Hrow : length r = b /\
                   exists rest, Permutation (r ++ rest) (bin_members bins row)).
    { exact (@Forall2_at _ _ _ bins m HF i row r Hi Er). }
    destruct Hrow as (Hb & rest & Hp).
    assert (Hndm : NoDup (bin_members bins row)).
    { unfold bin_members. now apply IsuruInvariant.filter_keeps_distinct_keys. }
    split; [exact Hb|]. split.
    + apply Permutation_sym in Hp. apply (Permutation_NoDup Hp) in Hndm.
      now apply NoDup_app_remove_r in Hndm.
    + intros j Hj.
      assert (Hjm : In j (bin_members bins row)).
      { apply (Permutation_in _ Hp). apply in_or_app. now left. }
      unfold bin_members in Hjm. apply in_map_iff in Hjm.
      destruct Hjm as (row' & Hind & Hf). apply filter_In in Hf.
      destruct Hf as (Hin' & Heq). apply Z.eqb_eq in Heq.
      exists row'. now repeat split.
  - intros Hex. unfold create_ctrl_peaks.
    apply apply_rand_peaks_short; [apply incl_refl | exact Hex].
Qed.

Lemma create_ctrl_peaks_rows_witness :
  let bins := get_bins ["l0"; "l1"; "l2"; "l3"; "l4"]%string
                       ["p0"; "p1"; "p2"; "p3"; "p4"]%string
                       [0; 0; 1; 1; 0]%Z [0; 0; 0; 0; 0]%Z in
  NoDup (map ind bins) /\
  (forall row, In row bins -> 2 <= length (bin_members bins row)) /\
  (exists m, create_ctrl_peaks bins 2 [2; 0; 1; 1; 0; 0; 1; 1; 0; 0] = Ok m /\
             length m = 5) /\
  (exists row, In row bins /\ length (bin_members bins row) < 3) /\
  create_ctrl_peaks bins 3 [2; 0; 1; 1; 0; 0; 1; 1; 0; 0] = Raise ValueError.
Proof.
  intros bins.
  assert (Hnd : NoDup (map ind bins)).
  { cbn. repeat constructor; cbn; intuition lia. }
  assert (Hall : forall row, In row bins -> 2 <= length (bin_members bins row)).
  { intros row Hin. cbn in Hin.
    repeat (destruct Hin as [<-|Hin]; [cbn; lia|]). destruct Hin. }
  assert (Hex : exists row, In row bins /\ length (bin_members bins row) < 3).
  { exists (nth 2 bins {| name := ""; gene_ids := ""; ind := 0; combined_mfa_gc := 0 |}).
    split; [cbn; tauto | cbn; lia]. }
  split; [exact Hnd|]. split; [exact Hall|].
  split.
  - destruct (proj1 (@create_ctrl_peaks_rows bins 2 [2; 0; 1; 1; 0; 0; 1; 1; 0; 0] Hnd) Hall)
      as (m & Hm & Hlen & _).
    exists m. split; [exact Hm | exact Hlen].
  - split; [exact Hex|].
    exact (proj2 (@create_ctrl_peaks_rows bins 3 [2; 0; 1; 1; 0; 0; 1; 1; 0; 0] Hnd) Hex).
Defined.

(** ** Further properties: the control correlations of method.py *)

Section ControlCorrTheory.
Context {T : Type} {N : Num T}.

Lemma bmap2_single_r {A B C : Type} (f : A -> B -> C) (l : list A) (y : B) :
  bmap2 f l [y] = map (fun x => f x y) l.
Proof. destruct l as [|x [|x' l]]; reflexivity. Qed.

Lemma map2_of_maps {A B C D : Type} (f : B -> C -> D) (g : A -> B) (h : A -> C)
  (l : list A) :
  map2 f (map g l) (map h l) = map (fun x => f (g x) (h x)) l.
Proof. induction l as [|x l IH]; simpl; congruence. Qed.

Lemma bmap2_of_maps {A B C D : Type} (f : B -> C -> D) (g : A -> B) (h : A -> C)
  (l : list A) :
  bmap2 f (map g l) (map h l) = map (fun x => f (g x) (h x)) l.
Proof.
  rewrite bmap2_same_length by now rewrite !length_map.
  apply map2_of_maps.
Qed.

(** One call on a single pair of columns. *)
Lemma pearson_pair (x y : list T) :
  pearson_corr_sparse (Arr1 x) (Arr1 y) false = Ok (Flat [pair_corr x y]).
Proof. reflexivity. Qed.

(** A matrix against a single column: the flat vector of the correlations
    of each column with that column. *)
Lemma pearson_columnwise (cols : list (list T)) (y : list T) :
  pearson_corr_sparse (Arr2 cols) (Arr2 [y]) false
  = Ok (Flat (map (fun x => pair_corr x y) cols)).
Proof.
  unfold pearson_corr_sparse, _get_mean_var. cbn [as_columns andb bind map map2 length].
  rewrite Nat.eqb_refl, orb_true_r.
  rewrite !bmap2_single_r, !map_map.
  rewrite (map2_of_maps sub (fun c => np_mean (map (fun x => mul x x) c))
             (fun c => mul (np_mean c) (np_mean c))).
  rewrite (bmap2_of_maps sub (fun c => np_mean (map2 mul c y))
             (fun c => mul (np_mean c) (np_mean y))).
  rewrite map_map.
  rewrite (bmap2_of_maps div).
  rewrite map_map. reflexivity.
Qed.

Lemma take_cols_ok (mat : list (list T)) (idx : list nat) :
  Forall (fun j => j < length mat) idx ->
  take_cols mat idx = Ok (map (fun j => nth j mat []) idx).
Proof.
  unfold take_cols. induction idx as [|j idx IH]; intros H; [reflexivity|].
  inversion H as [|j' idx' Hj Hrest]; subst.
  cbn [IsuruSampler.take_rows map].
  rewrite (nth_error_nth' mat [] Hj), (IH Hrest). reflexivity.
Qed.

Lemma control_corr_loop_ok (atac_Xs rna_Xs : list (list T))
  (ctrl_peaks : list (list nat)) (b : nat) :
  length ctrl_peaks = length rna_Xs ->
  Forall (fun r => length r = b /\ Forall (fun j => j < length atac_Xs) r) ctrl_peaks ->
  forall rows, Forall (fun row => row < length rna_Xs) rows ->
  control_corr_loop atac_Xs rna_Xs ctrl_peaks b rows
  = Ok (map (fun row =>
               map (fun j => pair_corr (nth j atac_Xs []) (nth row rna_Xs []))
                   (nth row ctrl_peaks []))
            rows).
Proof.
  intros Hlen Hall. induction rows as [|row rows IH]; intros Hrows; [reflexivity|].
  inversion Hrows as [|row' rows' Hrow Hrest]; subst.
  assert (Hrow' : row < length ctrl_peaks) by lia.
  cbn [control_corr_loop map].
  rewrite (nth_error_nth' ctrl_peaks [] Hrow'), (nth_error_nth' rna_Xs [] Hrow).
  rewrite Forall_forall in Hall.
  destruct (Hall (nth row ctrl_peaks []) (nth_In _ _ Hrow')) as [Hb Hidx].
  rewrite (@take_cols_ok atac_Xs _ Hidx). cbn [bind].
  rewrite pearson_columnwise. cbn [bind assign_row].
  rewrite !length_map, Hb, Nat.eqb_refl. cbn [bind].
  rewrite (IH Hrest). cbn [bind]. rewrite map_map. reflexivity.
Qed.

End ControlCorrTheory.

(** With a stored matrix of control peaks whose rows have [b] positions, all
    of them columns of the accessibility matrix, [control_corr] of method.py
    returns an array of shape (number of links, [b]) without touching the
    random source: entry [(row, j)] is what one call of
    [pearson_corr_sparse] on the pair (column [ctrl_peaks[row][j]] of the
    accessibility matrix, column [row] of the expression matrix) returns.
    The expression column of a row is that of the link itself for all its
    controls. *)
Theorem control_corr_entries {T : Type} {N : Num T} (bins : list bins_row)
  (atac_Xs rna_Xs : list (list T)) (ctrl_peaks : list (list nat)) (b : nat) (g : rng) :
  length ctrl_peaks = length rna_Xs ->
  Forall (fun r => length r = b /\ Forall (fun j => j < length atac_Xs) r) ctrl_peaks ->
  exists m,
    control_corr (Some ctrl_peaks) bins atac_Xs rna_Xs b g = Ok m /\
    length m = length rna_Xs /\
    forall row, row < length rna_Xs ->
      length (nth row m []) = b /\
      forall j, j < b ->
        pearson_corr_sparse (Arr1 (nth (nth j (nth row ctrl_peaks []) 0) atac_Xs []))
                            (Arr1 (nth row rna_Xs [])) false
        = Ok (Flat [nth j (nth row m []) zero]).
Proof.
  intros Hlen Hall. eexists. split.
  - unfold control_corr. cbn [bind].
    apply (@control_corr_loop_ok T N atac_Xs rna_Xs ctrl_peaks b Hlen Hall).
    apply Forall_forall. intros row Hin. apply in_seq in Hin. lia.
  - split; [now rewrite length_map, length_seq|].
    intros row Hrow.
    rewrite (nth_map_in _ _ 0 []) by (rewrite length_seq; lia).
    rewrite seq_nth by lia. cbn [Nat.add].
    assert (Hrow' : row < length ctrl_peaks) by lia.
    rewrite Forall_forall in Hall.
    destruct (Hall (nth row ctrl_peaks []) (nth_In _ _ Hrow')) as [Hb _].
    split; [now rewrite length_map|].
    intros j Hj. rewrite pearson_pair.
    rewrite (nth_map_in _ _ 0 zero) by lia. reflexivity.
Qed.

Lemma control_corr_entries_witness :
  let atac := [[1; 0; 2; 1]; [0; 1; 1; 3]; [2; 2; 0; 1]]%float in
  let rna := [[1; 2; 0; 1]; [0; 0; 3; 1]]%float in
  let ctrl_peaks := [[1; 2]; [2; 0]] in
  length ctrl_peaks = length rna /\
  Forall (fun r => length r = 2 /\ Forall (fun j => j < length atac) r) ctrl_peaks /\
  exists m,
    control_corr (Some ctrl_peaks) [] atac rna 2 [] = Ok m /\
    length m = 2 /\
    pearson_corr_sparse (Arr1 [2; 2; 0; 1]%float) (Arr1 [0; 0; 3; 1]%float) false
    = Ok (Flat [nth 0 (nth 1 m []) zero]).
Proof.
  intros atac rna ctrl_peaks.
  assert (Hl : length ctrl_peaks = length rna) by reflexivity.
  assert (Ha : Forall (fun r => length r = 2 /\ Forall (fun j => j < length atac) r)
                      ctrl_peaks).
  { repeat constructor. }
  split; [exact Hl|]. split; [exact Ha|].
  destruct (@control_corr_entries float Num_float [] atac rna ctrl_peaks 2 [] Hl Ha)
    as (m & Hm & Hlen & Hent).
  exists m. split; [exact Hm|]. split; [exact Hlen|].
  exact (proj2 (Hent 1 ltac:(simpl; lia)) 0 ltac:(lia)).
Defined.

(** ** Further properties: the chunked control correlations of method-Isuru.py *)

Lemma chunk_lists_chunks {A : Type} (lst : list A) (ng : nat) :
  0 < ng ->
  chunk_lists lst ng
  = Some (map (fun g => (g, chunk_of ng (length lst / ng) lst g)) (seq 1 (ng + 1))).
Proof.
  intros Hng. unfold chunk_lists.
  destruct (Nat.eqb_spec ng 0) as [->|_]; [lia|].
  now rewrite chunk_while_spec by lia.
Qed.

Section ControlCorrFastTheory.
Context {T : Type} {N : Num T}.

(** A chunk without rows stops the loop of [control_corr_fast], wherever it
    stands. *)
Lemma control_corr_fast_loop_empty_chunk (atac_Xs rna_X : list (list T))
  (rna_col_chunks : list (nat * list nat)) (b i : nat)
  (post : list (nat * list (list nat))) :
  forall pre,
  exists e,
    IsuruControl.control_corr_fast_loop atac_Xs rna_X rna_col_chunks b
      (pre ++ (i, []) :: post) = Raise e.
Proof.
  induction pre as [|[k chunk] pre [e IH]].
  - exists ValueError. reflexivity.
  - cbn [app IsuruControl.control_corr_fast_loop]. rewrite IH.
    destruct (IsuruControl.np_concatenate chunk) as [index_arr|e1]; cbn [bind];
      [|now exists e1].
    destruct (lookup Nat.eqb k rna_col_chunks) as [col_idx|]; [|now exists KeyError].
    destruct (take_cols rna_X col_idx) as [rna_chunk|e2]; cbn [bind]; [|now exists e2].
    destruct (take_cols atac_Xs index_arr) as [X|e3]; cbn [bind]; [|now exists e3].
    destruct (IsuruControl.pearson_of_matrices X (IsuruControl.tile_columns rna_chunk b))
      as [c|e4]; cbn [bind]; [|now exists e4].
    destruct (IsuruControl.reshape (length rna_chunk) b c) as [m|e5]; cbn [bind];
      [|now exists e5].
    now exists e.
Qed.

End ControlCorrFastTheory.

(** [control_corr_fast] never returns when the number of links is below 15
    or a multiple of 15.  Below 15 the chunks hold [len // 15 = 0] rows: the
    first [np.concatenate] is given an empty list and raises [ValueError].
    For a multiple of 15 the sixteenth chunk is empty, and the call raises
    after the work on the first fifteen. *)
Theorem control_corr_fast_empty_chunk {T : Type} {N : Num T}
  (ctrl_peaks : list (list nat)) (var : list IsuruSampler.var_row) (mfa_q gc_q : list Z)
  (atac_Xs rna_X : list (list T)) (b : nat) (g : rng) :
  (length ctrl_peaks < 15 ->
   IsuruControl.control_corr_fast (Some ctrl_peaks) var mfa_q gc_q atac_Xs rna_X b g
   = Raise ValueError) /\
  (length ctrl_peaks mod 15 = 0 ->
   exists e,
     IsuruControl.control_corr_fast (Some ctrl_peaks) var mfa_q gc_q atac_Xs rna_X b g
     = Raise e).
Proof.
  unfold IsuruControl.control_corr_fast. cbn [bind].
  rewrite (@chunk_lists_chunks _ ctrl_peaks 15) by lia.
  split.
  - intros Hlt. rewrite (Nat.div_small _ _ Hlt). reflexivity.
  - intros Hmod.
    change (seq 1 (15 + 1)) with (seq 1 15 ++ [16]).
    rewrite map_app. cbn [map app].
    assert (Hlast : chunk_of 15 (length ctrl_peaks / 15) ctrl_peaks 16 = []).
    { unfold chunk_of. cbn [Nat.ltb Nat.leb Nat.add Nat.sub].
      apply skipn_all2.
      pose proof (Nat.div_mod_eq (length ctrl_peaks) 15) as Hd.
      rewrite Hmod in Hd. lia. }
    rewrite Hlast.
    destruct (@control_corr_fast_loop_empty_chunk T N atac_Xs rna_X
                (match chunk_lists (seq 0 (length rna_X)) 15 with
                 | Some c => c | None => [] end)
                b 16 []
                (map (fun g0 => (g0, chunk_of 15 (length ctrl_peaks / 15) ctrl_peaks g0))
                     (seq 1 15))) as [e He].
    exists e. rewrite He. reflexivity.
Qed.

Lemma control_corr_fast_empty_chunk_witness :
  let ctrl_peaks := [[1]; [0]; [1]] in
  let atac := [[1; 0; 2]; [0; 1; 1]; [2; 2; 0]]%float in
  let rna := [[1; 2; 0]; [0; 0; 3]; [1; 1; 4]]%float in
  length ctrl_peaks < 15 /\
  IsuruControl.control_corr_fast (Some ctrl_peaks) [] [] [] atac rna 1 [] = Raise ValueError.
Proof.
  intros ctrl_peaks atac rna.
  assert (H : length ctrl_peaks < 15) by (simpl; lia).
  split; [exact H|].
  exact (proj1 (@control_corr_fast_empty_chunk float Num_float ctrl_peaks [] [] []
                  atac rna 1 []) H).
Defined.

Section ControlCorrAgreement.
Context {T : Type} {N : Num T}.

Ltac same_length :=
  repeat first [rewrite length_map | rewrite map2_length]; lia.

Lemma corr_vector_aligned (X Y : list (list T)) :
  length X = length Y ->
  map f32
    (map2 div
       (map2 div
          (map2 sub (map np_mean (map2 (map2 mul) X Y))
             (map2 mul (map np_mean X) (map np_mean Y)))
          (map (fun v => sqrt (clip lit_1em8 v))
             (map2 sub (map (fun c => np_mean (map (fun x => mul x x) c)) X)
                (map (fun m => mul m m) (map np_mean X)))))
       (map (fun v => sqrt (clip lit_1em8 v))
          (map2 sub (map (fun c => np_mean (map (fun x => mul x x) c)) Y)
             (map (fun m => mul m m) (map np_mean Y)))))
  = map2 pair_corr X Y.
Proof.
  revert Y. induction X as [|x X IH]; intros [|y Y] H; try discriminate H; [reflexivity|].
  simpl. f_equal. apply IH. simpl in H. lia.
Qed.

(** Two matrices with the same number of columns: the correlations of the
    pairs of columns at the same position, as the 1 x M array (the flat
    vector for one column). *)
Lemma pearson_aligned (X Y : list (list T)) :
  length X = length Y ->
  pearson_corr_sparse (Arr2 X) (Arr2 Y) false
  = Ok ((if length X =? 1 then Flat else Row) (map2 pair_corr X Y)).
Proof.
  intros H. unfold pearson_corr_sparse, _get_mean_var.
  cbn [as_columns andb bind].
  rewrite (bmap2_same_length (map2 mul) X Y H).
  rewrite (bmap2_same_length mul (map np_mean X) (map np_mean Y))
    by now rewrite !length_map.
  rewrite (bmap2_same_length sub) by same_length.
  rewrite (bmap2_same_length div (map2 sub _ _)) by same_length.
  rewrite (bmap2_same_length div) by same_length.
  rewrite (@corr_vector_aligned X Y H), <- H, orb_diag.
  destruct (length X =? 1); reflexivity.
Qed.

Lemma map2_app_same {A B C : Type} (f : A -> B -> C) (l1 l2 : list A) (k1 k2 : list B) :
  length l1 = length k1 ->
  map2 f (l1 ++ l2) (k1 ++ k2) = map2 f l1 k1 ++ map2 f l2 k2.
Proof.
  revert k1. induction l1 as [|x l1 IH]; intros [|y k1] H; try discriminate H;
    [reflexivity|].
  simpl. f_equal. apply IH. simpl in H. lia.
Qed.

Lemma map2_repeat_r {A B C : Type} (f : A -> B -> C) (l : list A) (y : B) :
  map2 f l (repeat y (length l)) = map (fun x => f x y) l.
Proof. induction l as [|x l IH]; simpl; congruence. Qed.

Lemma lookup_nat_keys {V : Type} (v : nat -> V) (k : nat) (keys : list nat) :
  In k keys -> lookup Nat.eqb k (map (fun k' => (k', v k')) keys) = Some (v k).
Proof.
  induction keys as [|k' keys IH]; intros Hin; [destruct Hin|].
  cbn [map lookup]. destruct (Nat.eqb_spec k k') as [->|Hne]; [reflexivity|].
  destruct Hin as [->|Hin]; [congruence | now apply IH].
Qed.

Variables (atac_Xs rna_Xs : list (list T)) (ctrl_peaks : list (list nat)) (b : nat).
Hypothesis Hlen : length ctrl_peaks = length rna_Xs.
Hypothesis Hall :
  Forall (fun r => length r = b /\ Forall (fun j => j < length atac_Xs) r) ctrl_peaks.

(** The row of correlations of link [row]. *)
Let corr_row (row : nat) : list T :=
  map (fun j => pair_corr (nth j atac_Xs []) (nth row rna_Xs []))
      (nth row ctrl_peaks []).

Let peaks_of (row : nat) : list nat := nth row ctrl_peaks [].

Lemma peaks_of_ok (row : nat) :
  row < length rna_Xs ->
  length (peaks_of row) = b /\ Forall (fun j => j < length atac_Xs) (peaks_of row).
Proof.
  intros Hrow. rewrite Forall_forall in Hall. apply Hall.
  apply nth_In. lia.
Qed.

Lemma chunk_index_ok (R : list nat) :
  Forall (fun row => row < length rna_Xs) R ->
  length (concat (map peaks_of R)) = length R * b /\
  Forall (fun j => j < length atac_Xs) (concat (map peaks_of R)).
Proof.
  induction R as [|r R IH]; intros HR; [split; [reflexivity | constructor]|].
  inversion HR as [|r' R' Hr HR']; subst.
  destruct (peaks_of_ok Hr) as [Hb Hv]. destruct (IH HR') as [Hl Hf].
  cbn [map concat]. split.
  - rewrite length_app, Hb, Hl. simpl. lia.
  - apply Forall_app. now split.
Qed.

Lemma tile_columns_length (X : list (list T)) :
  length (IsuruControl.tile_columns X b) = length X * b.
Proof.
  unfold IsuruControl.tile_columns. induction X as [|x X IH]; [reflexivity|].
  cbn [flat_map]. rewrite length_app, repeat_length, IH. simpl. lia.
Qed.

(** The chunk's correlations, cut into rows of [b], are the rows of its
    links. *)
Lemma rows_of_chunk (R : list nat) :
  Forall (fun row => row < length rna_Xs) R ->
  IsuruControl.rows_of (length R) b
    (map2 pair_corr
       (map (fun j => nth j atac_Xs []) (concat (map peaks_of R)))
       (IsuruControl.tile_columns (map (fun r => nth r rna_Xs []) R) b))
  = map corr_row R.
Proof.
  induction R as [|r R IH]; intros HR; [reflexivity|].
  inversion HR as [|r' R' Hr HR']; subst.
  destruct (peaks_of_ok Hr) as [Hb _].
  cbn [map concat length IsuruControl.rows_of].
  unfold IsuruControl.tile_columns. cbn [flat_map].
  fold (IsuruControl.tile_columns (map (fun r0 => nth r0 rna_Xs []) R) b).
  rewrite map_app.
  rewrite map2_app_same by now rewrite length_map, repeat_length.
  assert (HA : map2 pair_corr (map (fun j => nth j atac_Xs []) (peaks_of r))
                 (repeat (nth r rna_Xs []) b) = corr_row r).
  { rewrite <- Hb at 1.
    rewrite <- (length_map (fun j => nth j atac_Xs []) (peaks_of r)).
    rewrite map2_repeat_r, map_map. reflexivity. }
  rewrite HA.
  assert (Hb' : length (corr_row r) = b) by (unfold corr_row; now rewrite length_map).
  assert (Hf : firstn b (corr_row r) = corr_row r) by (rewrite <- Hb'; apply firstn_all).
  assert (Hs : skipn b (corr_row r) = []) by (rewrite <- Hb'; apply skipn_all).
  rewrite firstn_app, skipn_app, Hf, Hs, Hb', Nat.sub_diag. cbn [firstn skipn app].
  rewrite app_nil_r, (IH HR'). reflexivity.
Qed.

Lemma control_corr_fast_loop_ok (allkeys : list nat) (rows_at : nat -> list nat) :
  forall keys,
    (forall k, In k keys ->
       In k allkeys /\ rows_at k <> [] /\
       Forall (fun row => row < length rna_Xs) (rows_at k)) ->
    IsuruControl.control_corr_fast_loop atac_Xs rna_Xs
      (map (fun k => (k, rows_at k)) allkeys) b
      (map (fun k => (k, map peaks_of (rows_at k))) keys)
    = Ok (map (fun k => map corr_row (rows_at k)) keys).
Proof.
  induction keys as [|k keys IH]; intros Hk; [reflexivity|].
  destruct (Hk k (or_introl eq_refl)) as (Hin & Hne & HR).
  cbn [map IsuruControl.control_corr_fast_loop].
  destruct (rows_at k) as [|r R] eqn:ER; [congruence|].
  cbn [map IsuruControl.np_concatenate bind].
  rewrite (lookup_nat_keys rows_at k allkeys Hin). rewrite ER.
  assert (HRv : Forall (fun j => j < length rna_Xs) (r :: R)) by exact HR.
  rewrite (@take_cols_ok T rna_Xs (r :: R) HRv). cbn [bind].
  destruct (chunk_index_ok HR) as [Hl Hv].
  change (peaks_of r :: map peaks_of R) with (map peaks_of (r :: R)).
  rewrite (@take_cols_ok T atac_Xs _ Hv). cbn [bind].
  unfold IsuruControl.pearson_of_matrices.
  assert (Hsame : length (map (fun j => nth j atac_Xs []) (concat (map peaks_of (r :: R))))
                  = length (IsuruControl.tile_columns
                              (map (fun j => nth j rna_Xs []) (r :: R)) b)).
  { now rewrite tile_columns_length, !length_map, Hl. }
  rewrite Hsame at 1. rewrite Nat.eqb_refl. cbn [orb].
  rewrite (pearson_aligned _ _ Hsame). cbn [bind].
  assert (Hsize : length (map2 pair_corr
                    (map (fun j => nth j atac_Xs []) (concat (map peaks_of (r :: R))))
                    (IsuruControl.tile_columns
                       (map (fun j => nth j rna_Xs []) (r :: R)) b))
                  = length (map (fun j => nth j rna_Xs []) (r :: R)) * b).
  { rewrite map2_length, <- Hsame, Nat.min_id, !length_map. exact Hl. }
  assert (Hreshape :
    forall c, (c = Flat \/ c = Row) ->
    IsuruControl.reshape (length (map (fun j => nth j rna_Xs []) (r :: R))) b
      (c (map2 pair_corr
            (map (fun j => nth j atac_Xs []) (concat (map peaks_of (r :: R))))
            (IsuruControl.tile_columns (map (fun j => nth j rna_Xs []) (r :: R)) b)))
    = Ok (map corr_row (r :: R))).
  { intros c [->| ->]; cbn [IsuruControl.reshape];
      rewrite Hsize, Nat.eqb_refl, length_map; now rewrite (rows_of_chunk HR). }
  rewrite Hreshape by (destruct (_ =? 1); auto).
  cbn [bind]. rewrite IH; [reflexivity|].
  intros k' Hk'. apply Hk. now right.
Qed.

End ControlCorrAgreement.

Lemma list_by_positions {A : Type} (lst : list A) (d : A) :
  lst = map (fun r => nth r lst d) (seq 0 (length lst)).
Proof.
  apply (nth_ext _ _ d d).
  - now rewrite length_map, length_seq.
  - intros i Hi. rewrite (nth_map_in _ _ 0 d) by (rewrite length_seq; lia).
    now rewrite seq_nth.
Qed.

(** A chunk of a list holds the entries at the positions of the same chunk
    of [range(len(lst))]. *)
Lemma chunk_of_positions {A : Type} (ng gs : nat) (lst : list A) (d : A) (g : nat) :
  chunk_of ng gs lst g
  = map (fun r => nth r lst d) (chunk_of ng gs (seq 0 (length lst)) g).
Proof.
  unfold chunk_of, py_slice.
  destruct (g <? ng + 1).
  - rewrite <- firstn_map, <- skipn_map. now rewrite <- list_by_positions.
  - rewrite <- skipn_map. now rewrite <- list_by_positions.
Qed.

Lemma chunk_of_range (ng gs n g r : nat) :
  In r (chunk_of ng gs (seq 0 n) g) -> r < n.
Proof.
  unfold chunk_of, py_slice. intros H.
  assert (Hin : In r (seq 0 n)).
  { destruct (g <? ng + 1).
    - rewrite <- (firstn_skipn (gs * (g - 1)) (seq 0 n)). apply in_or_app. right.
      rewrite <- (firstn_skipn (gs * g - gs * (g - 1)) (skipn _ (seq 0 n))).
      apply in_or_app. now left.
    - rewrite <- (firstn_skipn (gs * (g - 1)) (seq 0 n)). apply in_or_app. now right. }
  apply in_seq in Hin. lia.
Qed.

Lemma chunk_of_length {A : Type} (ng : nat) (lst : list A) (g : nat) :
  0 < ng -> 1 <= g <= ng + 1 ->
  length (chunk_of ng (length lst / ng) lst g)
  = if g <? ng + 1 then length lst / ng else length lst mod ng.
Proof.
  intros Hng Hg. set (gs := length lst / ng).
  assert (Hgs : gs * ng <= length lst).
  { unfold gs. rewrite Nat.mul_comm. apply Nat.Div0.mul_div_le. }
  pose proof (Nat.div_mod_eq (length lst) ng) as Hd. fold gs in Hd.
  unfold chunk_of, py_slice.
  destruct (Nat.ltb_spec g (ng + 1)) as [Hlt|Hge].
  - rewrite length_firstn, length_skipn.
    assert (gs * g <= gs * ng) by (apply Nat.mul_le_mono_l; lia).
    assert (Hstep : gs * g = gs * (g - 1) + gs).
    { replace g with (S (g - 1)) at 1 by lia. lia. }
    lia.
  - rewrite length_skipn. replace (g - 1) with ng by lia. lia.
Qed.

Lemma chunks_cover {A : Type} (ng : nat) (lst : list A) :
  0 < ng ->
  concat (map (chunk_of ng (length lst / ng) lst) (seq 1 (ng + 1))) = lst.
Proof.
  intros Hng. set (gs := length lst / ng).
  replace (ng + 1) with (S ng) by lia.
  rewrite seq_S, map_app, concat_app. simpl. rewrite app_nil_r.
  rewrite (map_ext_in _ (fun g => py_slice (gs * (g - 1)) (gs * g) lst)).
  - rewrite py_slices_concat. unfold chunk_of.
    destruct (Nat.ltb_spec (S ng) (ng + 1)) as [Hlt|_]; [lia|].
    replace (S ng - 1) with ng by lia. apply firstn_skipn.
  - intros g Hin. apply in_seq in Hin. unfold chunk_of.
    destruct (Nat.ltb_spec g (ng + 1)) as [_|Hge]; [reflexivity|lia].
Qed.

(** With at least 15 links, their number no multiple of 15, one expression
    column per link and control rows of [b] valid positions,
    [control_corr_fast] returns, and returns the array that [control_corr]
    of the same file returns: cutting the links into chunks and correlating
    a chunk's controls with the tiled expression columns in one call gives,
    entry for entry, the correlations computed link by link. *)
Theorem control_corr_fast_agrees {T : Type} {N : Num T}
  (ctrl_peaks : list (list nat)) (var : list IsuruSampler.var_row) (mfa_q gc_q : list Z)
  (atac_Xs rna_X : list (list T)) (b : nat) (g : rng) :
  length ctrl_peaks = length rna_X ->
  15 <= length rna_X ->
  length rna_X mod 15 <> 0 ->
  Forall (fun r => length r = b /\ Forall (fun j => j < length atac_Xs) r) ctrl_peaks ->
  exists m,
    IsuruControl.control_corr_fast (Some ctrl_peaks) var mfa_q gc_q atac_Xs rna_X b g
    = Ok m /\
    IsuruControl.control_corr (Some ctrl_peaks) var mfa_q gc_q atac_Xs rna_X b g
    = Ok m /\
    length m = length rna_X.
Proof.
  intros Hlen Hn Hmod Hall.
  set (n := length rna_X) in *.
  set (corr_row := fun row =>
         map (fun j => pair_corr (nth j atac_Xs []) (nth row rna_X []))
             (nth row ctrl_peaks [])).
  exists (map corr_row (seq 0 n)).
  split; [|split].
  - unfold IsuruControl.control_corr_fast. cbn [bind].
    rewrite (@chunk_lists_chunks _ ctrl_peaks 15) by lia.
    rewrite (@chunk_lists_chunks _ (seq 0 (length rna_X)) 15) by lia.
    fold n. rewrite length_seq, Hlen.
    set (rows_at := chunk_of 15 (n / 15) (seq 0 n)).
    rewrite (map_ext (fun g0 => (g0, chunk_of 15 (n / 15) ctrl_peaks g0))
               (fun k => (k, map (fun row => nth row ctrl_peaks []) (rows_at k)))).
    2:{ intros k. unfold rows_at. rewrite <- Hlen.
        now rewrite <- (chunk_of_positions 15 (length ctrl_peaks / 15) ctrl_peaks [] k). }
    rewrite (@control_corr_fast_loop_ok T N atac_Xs rna_X ctrl_peaks b Hlen Hall
               (seq 1 (15 + 1)) rows_at (seq 1 (15 + 1))).
    + cbn [bind]. fold corr_row.
      change (seq 1 (15 + 1)) with (1 :: seq 2 15) at 1. cbn [map].
      cbn [IsuruControl.np_concatenate].
      change (map corr_row (rows_at 1)
                :: map (fun k => map corr_row (rows_at k)) (seq 2 15))
        with (map (fun k => map corr_row (rows_at k)) (seq 1 (15 + 1))).
      rewrite <- (map_map rows_at (map corr_row)), <- concat_map.
      unfold rows_at.
      pose proof (@chunks_cover nat 15 (seq 0 n) ltac:(lia)) as Hcover.
      rewrite length_seq in Hcover. rewrite Hcover. reflexivity.
    + intros k Hk. split; [exact Hk|]. apply in_seq in Hk. fold n. split.
      * intros Hnil. apply (f_equal (@length nat)) in Hnil.
        unfold rows_at in Hnil.
        pose proof (@chunk_of_length nat 15 (seq 0 n) k ltac:(lia) ltac:(lia)) as Hc.
        rewrite length_seq in Hc. rewrite Hc in Hnil. cbn [length] in Hnil.
        pose proof (Nat.div_mod_eq n 15).
        pose proof (Nat.mod_upper_bound n 15 ltac:(lia)).
        destruct (k <? 15 + 1); lia.
      * apply Forall_forall. intros r Hr. exact (chunk_of_range _ _ _ _ _ Hr).
  - unfold IsuruControl.control_corr. cbn [bind].
    apply (@control_corr_loop_ok T N atac_Xs rna_X ctrl_peaks b Hlen Hall).
    apply Forall_forall. intros row Hin. apply in_seq in Hin. fold n. lia.
  - now rewrite length_map, length_seq.
Qed.

Lemma control_corr_fast_agrees_witness :
  let atac := [[1; 0; 2]; [0; 1; 1]; [2; 2; 0]]%float in
  let rna := map (fun k => [float_of_nat k; 1; 0]%float) (seq 0 16) in
  let ctrl_peaks := map (fun k => [k mod 3; (k + 1) mod 3]) (seq 0 16) in
  length ctrl_peaks = length rna /\
  15 <= length rna /\
  length rna mod 15 <> 0 /\
  Forall (fun r => length r = 2 /\ Forall (fun j => j < length atac) r) ctrl_peaks /\
  exists m,
    IsuruControl.control_corr_fast (Some ctrl_peaks) [] [] [] atac rna 2 [] = Ok m /\
    IsuruControl.control_corr (Some ctrl_peaks) [] [] [] atac rna 2 [] = Ok m /\
    length m = length rna.
Proof.
  intros atac rna ctrl_peaks.
  assert (Hl : length ctrl_peaks = length rna) by reflexivity.
  assert (Hn : 15 <= length rna) by (vm_compute; lia).
  assert (Hm : length rna mod 15 <> 0) by (vm_compute; discriminate).
  assert (Ha : Forall (fun r => length r = 2 /\ Forall (fun j => j < length atac) r)
                      ctrl_peaks).
  { vm_compute. repeat constructor. }
  split; [exact Hl|]. split; [exact Hn|]. split; [exact Hm|]. split; [exact Ha|].
  exact (@control_corr_fast_agrees float Num_float ctrl_peaks [] [] [] atac rna 2 []
           Hl Hn Hm Ha).
Defined.

(** ** Further properties: [get_corrs] of method.py *)

Section GetCorrsTheory.
Context {T : Type} {N : Num T}.

Ltac lengths :=
  repeat first [rewrite length_map | rewrite map2_length]; lia.

Lemma get_mean_var_cols (X : list (list T)) :
  _get_mean_var X = (map np_mean X, map col_var X).
Proof.
  unfold _get_mean_var. rewrite map_map.
  now rewrite (map2_of_maps sub (fun c => np_mean (map (fun x => mul x x) c))
                 (fun c => mul (np_mean c) (np_mean c))).
Qed.

Lemma where_map {A B : Type} (f : A -> B) (mask : list bool) (l : list A) :
  where_ mask (map f l) = map f (where_ mask l).
Proof.
  unfold where_. revert l. induction mask as [|m mask IH]; intros [|x l];
    try reflexivity.
  cbn [map combine filter]. destruct m; cbn [fst map snd filter].
  - f_equal. apply IH.
  - apply IH.
Qed.

Lemma where_all {A : Type} (mask : list bool) (l : list A) :
  length mask = length l -> existsb negb mask = false -> where_ mask l = l.
Proof.
  unfold where_. revert l. induction mask as [|m mask IH]; intros [|x l] Hl He;
    try discriminate Hl; [reflexivity|].
  cbn [existsb] in He. apply orb_false_iff in He. destruct He as [Hm He].
  destruct m; [|discriminate Hm].
  cbn [combine filter fst map snd]. f_equal. apply IH; [simpl in Hl; lia | exact He].
Qed.

Lemma existsb_negb_map (l : list bool) :
  existsb negb (map negb l) = np_any l.
Proof.
  unfold np_any. induction l as [|x l IH]; [reflexivity|].
  cbn [map existsb]. now rewrite IH, negb_involutive.
Qed.

Lemma where_same_length {A B : Type} (mask : list bool) (l : list A) (l' : list B) :
  length mask = length l -> length mask = length l' ->
  length (where_ mask l) = length (where_ mask l').
Proof. intros H H'. now rewrite !where_length. Qed.

Lemma corr_vector_cols (X Y : list (list T)) :
  length X = length Y ->
  map f32
    (bmap2 div
       (bmap2 div
          (bmap2 sub (map np_mean (bmap2 (map2 mul) X Y))
             (bmap2 mul (map np_mean X) (map np_mean Y)))
          (map (fun v => sqrt (clip lit_1em8 v)) (map col_var X)))
       (map (fun v => sqrt (clip lit_1em8 v)) (map col_var Y)))
  = map2 pair_corr X Y.
Proof.
  intros H.
  rewrite (bmap2_same_length (map2 mul) X Y H).
  rewrite (bmap2_same_length mul (map np_mean X) (map np_mean Y)) by lengths.
  rewrite (bmap2_same_length sub) by lengths.
  rewrite (bmap2_same_length div (map2 sub _ _)) by lengths.
  rewrite (bmap2_same_length div) by lengths.
  revert Y H. induction X as [|x X IH]; intros [|y Y] H; try discriminate H;
    [reflexivity|].
  simpl. f_equal. apply IH. simpl in H. lia.
Qed.

(** The call with [var_filter=True] on two matrices with the same number of
    columns: the correlations of the pairs of columns kept; with the
    keep-mask unless one pair is kept. *)
Lemma pearson_filter_aligned (X Y : list (list T)) :
  length X = length Y ->
  let keep := map negb (no_var_mask (map col_var X) (map col_var Y)) in
  pearson_corr_sparse (Arr2 X) (Arr2 Y) true
  = Ok (let v := map2 pair_corr (where_ keep X) (where_ keep Y) in
        if length (where_ keep X) =? 1 then Flat v else WithMask v keep).
Proof.
  intros H keep. unfold pearson_corr_sparse. cbn [as_columns].
  rewrite !get_mean_var_cols. cbn [andb]. fold keep.
  assert (Hk : length keep = length X).
  { unfold keep, no_var_mask. rewrite length_map, bmap2_length_same; lengths. }
  assert (Hsel :
    (if np_any (no_var_mask (map col_var X) (map col_var Y))
     then
       mat_X' <- select keep X ;;
       mat_Y' <- select keep Y ;;
       v_X_mean' <- select keep (map np_mean X) ;;
       v_X_var' <- select keep (map col_var X) ;;
       v_Y_mean' <- select keep (map np_mean Y) ;;
       v_Y_var' <- select keep (map col_var Y) ;;
       Ok (mat_X', mat_Y', (v_X_mean', v_X_var'), (v_Y_mean', v_Y_var'))
     else Ok (X, Y, (map np_mean X, map col_var X), (map np_mean Y, map col_var Y)))
    = Ok (where_ keep X, where_ keep Y,
          (map np_mean (where_ keep X), map col_var (where_ keep X)),
          (map np_mean (where_ keep Y), map col_var (where_ keep Y)))).
  { destruct (np_any (no_var_mask (map col_var X) (map col_var Y))) eqn:Eany.
    - rewrite (@select_ok _ keep X) by lia.
      rewrite (@select_ok _ keep Y) by lia.
      rewrite !select_ok by lengths.
      cbn [bind]. now rewrite !where_map.
    - assert (Hall : existsb negb keep = false).
      { unfold keep. now rewrite existsb_negb_map. }
      rewrite (@where_all _ keep X) by (assumption || lia).
      rewrite (@where_all _ keep Y) by (assumption || lia).
      reflexivity. }
  rewrite Hsel. cbn [bind].
  assert (Hw : length (where_ keep X) = length (where_ keep Y)).
  { apply where_same_length; lia. }
  rewrite (corr_vector_cols _ _ Hw), <- Hw, orb_diag.
  destruct (length (where_ keep X) =? 1); reflexivity.
Qed.

End GetCorrsTheory.

(** [get_corrs] raises [IndexError] exactly when one single link passes the
    variance filter (both variances above 1e-6): [pearson_corr_sparse] then
    returns the flat one-entry vector, and [corr[1]] is out of range.  With
    any other number of links kept it returns the links kept, each with the
    correlation of its two columns. *)
Theorem get_corrs_single_link {T : Type} {N : Num T} {A : Type}
  (var : list A) (rna atac : list (list T)) :
  length rna = length atac -> length var = length rna ->
  let keep := map negb (no_var_mask (map col_var rna) (map col_var atac)) in
  let kept := length (where_ keep var) in
  (kept = 1 -> get_corrs var rna atac = Raise IndexError) /\
  (kept <> 1 ->
   get_corrs var rna atac
   = Ok (where_ keep var, map2 pair_corr (where_ keep rna) (where_ keep atac)) /\
   length (map2 pair_corr (where_ keep rna) (where_ keep atac)) = kept).
Proof.
  intros Hlen Hvar keep kept. unfold get_corrs.
  rewrite (@pearson_filter_aligned T N rna atac Hlen). fold keep. cbn [bind].
  assert (Hk : length keep = length rna).
  { unfold keep, no_var_mask. rewrite length_map, bmap2_length_same;
      rewrite !length_map; lia. }
  assert (Hr : length (where_ keep rna) = kept).
  { unfold kept. apply where_same_length; lia. }
  assert (Ha : length (where_ keep atac) = kept).
  { unfold kept. apply where_same_length; lia. }
  rewrite Hr. split.
  - intros ->. reflexivity.
  - intros Hne. destruct (Nat.eqb_spec kept 1) as [E|_]; [contradiction|].
    rewrite (@select_ok _ keep var) by lia. cbn [bind].
    assert (Hm : length (map2 pair_corr (where_ keep rna) (where_ keep atac)) = kept).
    { rewrite map2_length, Hr, Ha. apply Nat.min_id. }
    rewrite Hm. fold kept. rewrite Nat.eqb_refl. split; reflexivity.
Qed.

Lemma get_corrs_single_link_witness :
  let var := ["l0"; "l1"; "l2"]%string in
  let rna := [[1; 2; 3]; [5; 5; 5]; [0; 0; 0]]%float in
  let atac := [[1; 2; 4]; [1; 0; 2]; [1; 3; 2]]%float in
  length rna = length atac /\ length var = length rna /\
  length (where_ (map negb (no_var_mask (map col_var rna) (map col_var atac))) var) = 1 /\
  get_corrs var rna atac = Raise IndexError.
Proof.
  intros var rna atac.
  assert (Hl : length rna = length atac) by reflexivity.
  assert (Hv : length var = length rna) by reflexivity.
  assert (Hk : length (where_ (map negb (no_var_mask (map col_var rna) (map col_var atac)))
                              var) = 1) by (vm_compute; reflexivity).
  split; [exact Hl|]. split; [exact Hv|]. split; [exact Hk|].
  exact (proj1 (@get_corrs_single_link float Num_float string var rna atac Hl Hv) Hk).
Defined.

(** ** Further properties: [build_strat_layers] of method-Isuru.py *)

Section StratifiedTheory.
Context {T : Type} {N : Num T}.
Variable opp : T -> T.
Hypothesis opp_involutive : forall x, opp (opp x) = x.
Hypothesis SW : StrictWeak (@less T N).

(** One stratum of one column after the call. *)
Let desc (blk : list T) : list T := map opp (np_sort (map opp blk)).

(** One column after the call. *)
Let strat_column (sizes : list nat) (col : list T) : list T :=
  concat (map desc (cut sizes col)).

Lemma strat_loop_blocks (sizes : list nat) :
  forall atac sa sr,
    strat_loop opp sizes atac None sa sr = (sa ++ strat_blocks opp sizes atac, sr).
Proof.
  induction sizes as [|i sizes IH]; intros atac sa sr; cbn [strat_loop strat_blocks].
  - now rewrite app_nil_r.
  - rewrite IH, <- app_assoc. reflexivity.
Qed.

Lemma map2_app_maps {A B : Type} (f g : A -> list B) (l : list A) :
  forall acc, length acc = length l ->
  map2 (@app B) (map2 (@app B) acc (map f l)) (map g l)
  = map2 (@app B) acc (map (fun x => f x ++ g x) l).
Proof.
  induction l as [|x l IH]; intros [|a acc] H; try discriminate H; [reflexivity|].
  cbn [map map2]. rewrite <- app_assoc. f_equal. apply IH. simpl in H. lia.
Qed.

Lemma map2_app_nils {A B : Type} (l : list A) :
  forall acc : list (list B), length acc = length l ->
  map2 (@app B) acc (map (fun _ => []) l) = acc.
Proof.
  induction l as [|x l IH]; intros [|a acc] H; try discriminate H; [reflexivity|].
  cbn [map map2]. rewrite app_nil_r. f_equal. apply IH. simpl in H. lia.
Qed.

Lemma vstack_blocks (sizes : list nat) :
  forall atac acc, length acc = length atac ->
  fold_left (map2 (@app T)) (strat_blocks opp sizes atac) acc
  = map2 (@app T) acc (map (strat_column sizes) atac).
Proof.
  induction sizes as [|i sizes IH]; intros atac acc H; cbn [strat_blocks fold_left].
  - symmetry. now apply map2_app_nils.
  - rewrite IH.
    + unfold sort_desc_rows. rewrite (map_map (skipn i)).
      exact (map2_app_maps (fun c => desc (firstn i c))
               (fun c => strat_column sizes (skipn i c)) atac acc H).
    + unfold sort_desc_rows. now rewrite map2_length, !length_map, H, Nat.min_id.
Qed.

Lemma map2_head_maps {A B : Type} (f g : A -> list B) (l : list A) :
  map2 (@app B) (map f l) (map g l) = map (fun x => f x ++ g x) l.
Proof. induction l as [|x l IH]; simpl; congruence. Qed.

(** The call on the accessibility matrix alone: every column is treated on
    its own. *)
Lemma build_strat_layers_columns (atac : list (list T)) (i : nat) (sizes : list nat) :
  build_strat_layers opp atac None (i :: sizes)
  = Ok (map (strat_column (i :: sizes)) atac, None).
Proof.
  unfold build_strat_layers. rewrite strat_loop_blocks.
  cbn [app strat_blocks np_vstack bind].
  rewrite vstack_blocks by (unfold sort_desc_rows; now rewrite !length_map).
  unfold sort_desc_rows. rewrite (map_map (skipn i)).
  f_equal. f_equal.
  exact (map2_head_maps (fun c => desc (firstn i c))
           (fun c => strat_column sizes (skipn i c)) atac).
Qed.

Lemma desc_length (blk : list T) : length (desc blk) = length blk.
Proof. unfold desc. now rewrite length_map, np_sort_length, length_map. Qed.

Lemma desc_perm (blk : list T) : Permutation (desc blk) blk.
Proof.
  unfold desc.
  eapply perm_trans; [apply Permutation_map, np_sort_perm|].
  rewrite map_map, (map_ext _ (fun x => x)) by exact opp_involutive.
  rewrite map_id. apply Permutation_refl.
Qed.

Lemma desc_ascending (blk : list T) : ascending (map opp (desc blk)).
Proof.
  unfold desc. rewrite map_map, (map_ext _ (fun x => x)) by exact opp_involutive.
  rewrite map_id. apply (sorted_ascending SW), (np_sort_sorted SW).
Qed.

Lemma cut_strat_column (sizes : list nat) :
  forall col, list_sum sizes <= length col ->
  cut sizes (strat_column sizes col) = map desc (cut sizes col).
Proof.
  induction sizes as [|i sizes IH]; intros col H; [reflexivity|].
  change (list_sum (i :: sizes)) with (i + list_sum sizes) in H.
  unfold strat_column. cbn [cut map concat].
  fold (strat_column sizes (skipn i col)).
  assert (Hi : length (desc (firstn i col)) = i).
  { rewrite desc_length, length_firstn. lia. }
  assert (Hf : firstn i (desc (firstn i col)) = desc (firstn i col)).
  { rewrite <- Hi at 1. apply firstn_all. }
  assert (Hs : skipn i (desc (firstn i col)) = []).
  { rewrite <- Hi at 1. apply skipn_all. }
  rewrite firstn_app, skipn_app, Hf, Hs, Hi, Nat.sub_diag.
  cbn [firstn skipn app]. rewrite app_nil_r.
  rewrite IH by (rewrite length_skipn; lia). reflexivity.
Qed.

Lemma cut_cover (sizes : list nat) :
  forall col : list T, length col <= list_sum sizes -> concat (cut sizes col) = col.
Proof.
  induction sizes as [|i sizes IH]; intros col H; cbn [cut concat].
  - destruct col; [reflexivity | simpl in H; lia].
  - change (list_sum (i :: sizes)) with (i + list_sum sizes) in H.
    rewrite IH by (rewrite length_skipn; lia).
    apply firstn_skipn.
Qed.

Lemma strat_column_perm (sizes : list nat) (col : list T) :
  Permutation (strat_column sizes col) (concat (cut sizes col)).
Proof.
  unfold strat_column. revert col.
  induction sizes as [|i sizes IH]; intros col; cbn [cut map concat].
  - apply Permutation_refl.
  - apply Permutation_app; [apply desc_perm | apply IH].
Qed.

Lemma Forall2_map_left {A : Type} (P : A -> A -> Prop) (f : A -> A) (l : list A) :
  (forall x, P (f x) x) -> Forall2 P (map f l) l.
Proof. intros H. induction l; simpl; constructor; auto. Qed.

Lemma strat_column_strata (sizes : list nat) (col : list T) :
  length col = list_sum sizes ->
  Permutation (strat_column sizes col) col /\
  Forall2 (fun out blk => Permutation out blk /\ ascending (map opp out))
          (cut sizes (strat_column sizes col)) (cut sizes col).
Proof.
  intros H. split.
  - rewrite <- (cut_cover sizes col) at 2 by lia. apply strat_column_perm.
  - rewrite cut_strat_column by lia. apply Forall2_map_left.
    intros blk. split; [apply desc_perm | apply desc_ascending].
Qed.

End StratifiedTheory.

Lemma float_opp_involutive (x : float) : PrimFloat.opp (PrimFloat.opp x) = x.
Proof.
  apply FloatAxioms.Prim2SF_inj. rewrite !FloatAxioms.opp_spec.
  destruct (Prim2SF x) as [s| s| |s m e]; cbn [SFopp]; now rewrite ?negb_involutive.
Qed.

(** [build_strat_layers] called on one matrix whose rows are exactly those
    counted by the neighborhood sizes: the result has the columns of the
    input, every column keeps its values, and cut at the boundaries of the
    neighborhoods each piece is a rearrangement of the same piece of the
    input column, in descending order (its negation is ascending in numpy's
    order).  Values never move to another neighborhood or another column;
    the columns are sorted independently, so rows are no longer cells. *)
Theorem build_strat_layers_strata (atac : list (list float)) (sizes : list nat) :
  sizes <> [] ->
  Forall (fun col => length col = list_sum sizes) atac ->
  exists m,
    build_strat_layers PrimFloat.opp atac None sizes = Ok (m, None) /\
    length m = length atac /\
    forall c, c < length atac ->
      Permutation (nth c m []) (nth c atac []) /\
      Forall2 (fun out blk =>
                 Permutation out blk /\ ascending (map PrimFloat.opp out))
              (cut sizes (nth c m [])) (cut sizes (nth c atac [])).
Proof.
  intros Hne Hall.
  destruct sizes as [|i sizes]; [congruence|].
  eexists. split; [apply build_strat_layers_columns|].
  split; [now rewrite length_map|].
  intros c Hc.
  rewrite (nth_map_in _ _ [] []) by exact Hc.
  apply (@strat_column_strata float Num_float PrimFloat.opp
           float_opp_involutive float_strict_weak).
  rewrite Forall_forall in Hall. apply Hall. now apply nth_In.
Qed.

Lemma build_strat_layers_strata_witness :
  let atac := [[1; 3; 2; 0; 5]; [4; 4; 1; 2; 2]]%float in
  let sizes := [3; 2] in
  sizes <> [] /\
  Forall (fun col => length col = list_sum sizes) atac /\
  build_strat_layers PrimFloat.opp atac None sizes
  = Ok ([[3; 2; 1; 5; 0]; [4; 4; 1; 2; 2]]%float, None) /\
  Permutation [3; 2; 1; 5; 0]%float [1; 3; 2; 0; 5]%float.
Proof.
  intros atac sizes.
  assert (Hne : sizes <> []) by discriminate.
  assert (Hall : Forall (fun col => length col = list_sum sizes) atac)
    by (repeat constructor).
  split; [exact Hne|]. split; [exact Hall|].
  destruct (@build_strat_layers_strata atac sizes Hne Hall) as (m & Hm & _ & Hcols).
  assert (E : m = [[3; 2; 1; 5; 0]; [4; 4; 1; 2; 2]]%float).
  { vm_compute in Hm. now injection Hm as <-. }
  subst m. split; [reflexivity|].
  exact (proj1 (Hcols 0 ltac:(simpl; lia))).
Defined.

(** ** Further properties: the failures of [control_corr] of method.py *)

(** [control_corr] of method.py raises [ValueError] in two situations.
    Without stored control peaks it calls [create_ctrl_peaks], whose
    [ValueError] for a bin of fewer than [b] links is not caught.  With a
    stored matrix whose rows hold a number of positions that is neither [b]
    nor 1, the first row of correlations does not fit the row of [b] entries
    it is assigned to. *)
Theorem control_corr_value_errors {T : Type} {N : Num T} (bins : list bins_row)
  (atac_Xs rna_Xs : list (list T)) (b : nat) (g : rng) :
  ((exists row, In row bins /\ length (bin_members bins row) < b) ->
   control_corr None bins atac_Xs rna_Xs b g = Raise ValueError) /\
  (forall ctrl_peaks k,
     0 < length rna_Xs -> length ctrl_peaks = length rna_Xs ->
     Forall (fun r => length r = k /\ Forall (fun j => j < length atac_Xs) r) ctrl_peaks ->
     k <> b -> k <> 1 ->
     control_corr (Some ctrl_peaks) bins atac_Xs rna_Xs b g = Raise ValueError).
Proof.
  split.
  - intros Hex. unfold control_corr, create_ctrl_peaks.
    rewrite (@apply_rand_peaks_short bins b bins g (incl_refl bins) Hex). reflexivity.
  - intros ctrl_peaks k Hpos Hlen Hall Hkb Hk1.
    unfold control_corr. cbn [bind].
    destruct rna_Xs as [|y rna']; [simpl in Hpos; lia|].
    destruct ctrl_peaks as [|peaks rest]; [discriminate Hlen|].
    inversion Hall as [|p0 r0 [Hk Hidx] _]; subst.
    cbn [length seq control_corr_loop nth_error].
    rewrite (@take_cols_ok T atac_Xs peaks Hidx). cbn [bind].
    rewrite pearson_columnwise. cbn [bind assign_row].
    rewrite !length_map.
    destruct (Nat.eqb_spec (length peaks) b) as [E|_]; [contradiction|].
    destruct peaks as [|p [|p' ps]]; [reflexivity | simpl in Hk1; lia | reflexivity].
Qed.

Lemma control_corr_value_errors_witness :
  let atac := [[1; 0; 2; 1]; [0; 1; 1; 3]; [2; 2; 0; 1]]%float in
  let rna := [[1; 2; 0; 1]; [0; 0; 3; 1]]%float in
  let ctrl_peaks := [[1; 2]; [2; 0]] in
  let bins := get_bins ["l0"; "l1"]%string ["p0"; "p1"]%string [0; 0]%Z [0; 0]%Z in
  (exists row, In row bins /\ length (bin_members bins row) < 3) /\
  control_corr None bins atac rna 3 [] = Raise ValueError /\
  0 < length rna /\ length ctrl_peaks = length rna /\
  Forall (fun r => length r = 2 /\ Forall (fun j => j < length atac) r) ctrl_peaks /\
  2 <> 3 /\ 2 <> 1 /\
  control_corr (Some ctrl_peaks) bins atac rna 3 [] = Raise ValueError.
Proof.
  intros atac rna ctrl_peaks bins.
  assert (Hex : exists row, In row bins /\ length (bin_members bins row) < 3).
  { exists (nth 0 bins {| name := ""; gene_ids := ""; ind := 0; combined_mfa_gc := 0 |}).
    split; [cbn; tauto | cbn; lia]. }
  assert (Hp : 0 < length rna) by (simpl; lia).
  assert (Hl : length ctrl_peaks = length rna) by reflexivity.
  assert (Ha : Forall (fun r => length r = 2 /\ Forall (fun j => j < length atac) r)
                      ctrl_peaks) by (repeat constructor).
  assert (H3 : 2 <> 3) by lia.
  assert (H1 : 2 <> 1) by lia.
  split; [exact Hex|].
  split; [exact (proj1 (@control_corr_value_errors float Num_float bins atac rna 3 []) Hex)|].
  split; [exact Hp|]. split; [exact Hl|]. split; [exact Ha|].
  split; [exact H3|]. split; [exact H1|].
  exact (proj2 (@control_corr_value_errors float Num_float bins atac rna 3 [])
           ctrl_peaks 2 Hp Hl Ha H3 H1).
Defined.

(** ** Further properties: the controls of method.py are matched on both bins *)

Lemma bins_rows_nth (f : nat * (string * (string * (Z * Z))) -> bins_row) :
  forall (l1 l2 : list string) (l3 l4 : list Z) (s i : nat),
    length l2 = length l1 -> length l3 = length l1 -> length l4 = length l1 ->
    i < length l1 ->
    nth_error (map f (combine (seq s (length l1))
                              (combine l1 (combine l2 (combine l3 l4))))) i
    = Some (f (s + i, (nth i l1 ""%string, (nth i l2 ""%string,
                                           (nth i l3 0%Z, nth i l4 0%Z))))).
Proof.
  induction l1 as [|x1 l1 IH]; intros [|x2 l2] [|x3 l3] [|x4 l4] s i H2 H3 H4 Hi;
    try discriminate; simpl in Hi; try lia.
  destruct i as [|i].
  - cbn. now rewrite Nat.add_0_r.
  - cbn [length seq combine map nth_error nth].
    rewrite IH by (simpl in *; lia).
    now replace (S s + i) with (s + S i) by lia.
Qed.

Lemma get_bins_row (var_index peaks : list string) (mfa_bin gc_bin : list Z) (i : nat) :
  length peaks = length var_index -> length mfa_bin = length var_index ->
  length gc_bin = length var_index -> i < length var_index ->
  nth_error (get_bins var_index peaks mfa_bin gc_bin) i
  = Some {| name := nth i var_index ""%string; gene_ids := nth i peaks ""%string;
            ind := i;
            combined_mfa_gc := (nth i mfa_bin 0 * 10 + nth i gc_bin 0)%Z |}.
Proof.
  intros H2 H3 H4 Hi. unfold get_bins.
  now rewrite bins_rows_nth by assumption.
Qed.

Lemma get_bins_length (var_index peaks : list string) (mfa_bin gc_bin : list Z) :
  length peaks = length var_index -> length mfa_bin = length var_index ->
  length gc_bin = length var_index ->
  length (get_bins var_index peaks mfa_bin gc_bin) = length var_index.
Proof.
  intros H2 H3 H4. unfold get_bins.
  rewrite length_map, !length_combine, length_seq, H2, H3, H4. lia.
Qed.

(** When [create_ctrl_peaks] of method.py returns for the table of
    [get_bins], and the GC bins are numbers from 0 to 9 (as [pd.qcut] gives
    for at most ten bins), every control of link [i] is the position of a
    link with the MFA bin and the GC bin of link [i]: the identifier
    [mfa_bin * 10 + gc_bin] then tells the two bins apart. *)
Theorem create_ctrl_peaks_matched (var_index peaks : list string)
  (mfa_bin gc_bin : list Z) (b : nat) (g : rng) (m : list (list nat)) :
  length peaks = length var_index -> length mfa_bin = length var_index ->
  length gc_bin = length var_index ->
  Forall (fun q => 0 <= q < 10)%Z gc_bin ->
  create_ctrl_peaks (get_bins var_index peaks mfa_bin gc_bin) b g = Ok m ->
  length m = length var_index /\
  forall i j, i < length var_index -> In j (nth i m []) ->
    j < length var_index /\
    nth j mfa_bin 0%Z = nth i mfa_bin 0%Z /\
    nth j gc_bin 0%Z = nth i gc_bin 0%Z.
Proof.
  intros H2 H3 H4 Hgc Hm.
  set (bins := get_bins var_index peaks mfa_bin gc_bin) in *.
  assert (Hn : length bins = length var_index) by now apply get_bins_length.
  assert (Hall : forall row, In row bins -> b <= length (bin_members bins row)).
  { intros row Hin. destruct (le_lt_dec b (length (bin_members bins row))) as [H|H];
      [exact H|].
    unfold create_ctrl_peaks in Hm.
    rewrite (@apply_rand_peaks_short bins b bins g (incl_refl bins)) in Hm;
      [discriminate Hm | now exists row]. }
  destruct (@apply_rand_peaks_rows bins b Hall bins g (incl_refl bins)) as (m' & Hm' & HF).
  unfold create_ctrl_peaks in Hm. rewrite Hm' in Hm. injection Hm as <-.
  split; [now rewrite <- (Forall2_length HF)|].
  intros i j Hi Hj.
  pose proof (@get_bins_row var_index peaks mfa_bin gc_bin i H2 H3 H4 Hi) as Hrow.
  fold bins in Hrow.
  assert (Him : i < length m') by (rewrite <- (Forall2_length HF); lia).
  assert (Er : nth_error m' i = Some (nth i m' [])) by now apply nth_error_nth'.
  destruct (@Forall2_at _ _ _ bins m' HF i _ _ Hrow Er) as (_ & rest & Hp).
  assert (Hjm : In j (bin_members bins
                 {| name := nth i var_index ""%string; gene_ids := nth i peaks ""%string;
                    ind := i;
                    combined_mfa_gc := (nth i mfa_bin 0 * 10 + nth i gc_bin 0)%Z |})).
  { apply (Permutation_in _ Hp). apply in_or_app. now left. }
  unfold bin_members in Hjm. apply in_map_iff in Hjm.
  destruct Hjm as (row' & Hind & Hf). apply filter_In in Hf.
  destruct Hf as (Hin' & Heq). apply Z.eqb_eq in Heq. cbn [combined_mfa_gc] in Heq.
  destruct (In_nth_error _ _ Hin') as (j' & Hj').
  assert (Hj'n : j' < length var_index).
  { rewrite <- Hn. apply nth_error_Some. congruence. }
  unfold bins in Hj'.
  rewrite (@get_bins_row var_index peaks mfa_bin gc_bin j' H2 H3 H4 Hj'n) in Hj'.
  injection Hj' as <-. cbn [ind combined_mfa_gc] in Hind, Heq. subst j'.
  split; [exact Hj'n|].
  rewrite Forall_forall in Hgc.
  assert (Gi : (0 <= nth i gc_bin 0 < 10)%Z) by (apply Hgc, nth_In; lia).
  assert (Gj : (0 <= nth j gc_bin 0 < 10)%Z) by (apply Hgc, nth_In; lia).
  lia.
Qed.

Lemma create_ctrl_peaks_matched_witness :
  let var_index := ["l0"; "l1"; "l2"; "l3"; "l4"]%string in
  let peaks := ["p0"; "p1"; "p2"; "p3"; "p4"]%string in
  let mfa_bin := [0; 1; 0; 1; 0]%Z in
  let gc_bin := [2; 0; 2; 0; 2]%Z in
  let g := [2; 0; 1; 1; 0; 0; 1; 1; 0; 0] in
  let m := [[4; 0]; [3; 1]; [0; 2]; [3; 1]; [0; 2]] in
  length peaks = length var_index /\ length mfa_bin = length var_index /\
  length gc_bin = length var_index /\
  Forall (fun q => 0 <= q < 10)%Z gc_bin /\
  create_ctrl_peaks (get_bins var_index peaks mfa_bin gc_bin) 2 g = Ok m /\
  nth 4 mfa_bin 0%Z = nth 0 mfa_bin 0%Z /\ nth 4 gc_bin 0%Z = nth 0 gc_bin 0%Z.
Proof.
  intros var_index peaks mfa_bin gc_bin g m.
  assert (H2 : length peaks = length var_index) by reflexivity.
  assert (H3 : length mfa_bin = length var_index) by reflexivity.
  assert (H4 : length gc_bin = length var_index) by reflexivity.
  assert (Hgc : Forall (fun q => 0 <= q < 10)%Z gc_bin) by (repeat constructor; lia).
  assert (Hm : create_ctrl_peaks (get_bins var_index peaks mfa_bin gc_bin) 2 g = Ok m)
    by reflexivity.
  split; [exact H2|]. split; [exact H3|]. split; [exact H4|]. split; [exact Hgc|].
  split; [exact Hm|].
  exact (proj2 (proj2 (@create_ctrl_peaks_matched var_index peaks mfa_bin gc_bin 2 g m
                         H2 H3 H4 Hgc Hm) 0 4 ltac:(simpl; lia) ltac:(simpl; tauto))).
Defined.
